(** * SillyTavern-Interactive Map: a shallow embedding of [index.js]

    The development follows the English copy of the module (the file carries
    a second copy whose only differences are the message texts).

    Data, as the code has it:
    - a JavaScript value decoded from JSON is a [JsVal]; numbers are IEEE
      binary64 values ([PrimFloat.float]);
    - a JavaScript string is a [string]: a sequence of code units, here the
      code units below 256, on which [toLowerCase] and [trim] are exactly the
      functions written out below;
    - an object literal is an association list read at the first binding of
      a key; the [Map] used as document cache is an association list in
      insertion order;
    - a thrown exception is the [Throw] case of [Completion]; [try]/[catch]
      is a [match] on it;
    - module-level [let] variables and the DOM nodes they point to are fields
      of the record [World], threaded through the media functions. *)

From Stdlib Require Import String Ascii List Bool Arith ZArith Lia.
From Stdlib Require Import DecimalString.
From Corelib Require Import PrimFloat.
Import ListNotations.

Local Open Scope list_scope.
Local Open Scope string_scope.

(** ** JavaScript values and completions *)

#[warnings="-register-all"]
Inductive JsVal : Type :=
| JUndefined
| JNull
| JBool (b : bool)
| JNum (f : float)
| JStr (s : string)
| JArr (items : list JsVal)
| JObj (fields : list (string * JsVal)).

(** [new Error(message)], with the [name] that [catch] blocks inspect. *)
Record JsError : Type := mkError { errName : string; errMessage : string }.

Definition Error (msg : string) : JsError := mkError "Error" msg.

Inductive Completion (A : Type) : Type :=
| Return (a : A)
| Throw (e : JsError).
Arguments Return {A} a.
Arguments Throw {A} e.

Definition bind {A B} (c : Completion A) (k : A -> Completion B) : Completion B :=
  match c with
  | Return a => k a
  | Throw e => Throw e
  end.

Notation "x <- c ;; k" := (bind c (fun x => k))
  (at level 61, c at next level, right associativity).

Definition throws {A} (c : Completion A) : Prop := exists e, c = Throw e.

Definition isThrow {A} (c : Completion A) : bool :=
  match c with Throw _ => true | Return _ => false end.

(** ** Strings *)

Definition startsWith (pat s : string) : bool := String.prefix pat s.

Fixpoint includes (pat s : string) : bool :=
  startsWith pat s ||
  match s with
  | EmptyString => false
  | String _ rest => includes pat rest
  end.

Fixpoint endsWith (suf s : string) : bool :=
  String.eqb s suf ||
  match s with
  | EmptyString => false
  | String _ rest => endsWith suf rest
  end.

Definition isUpperAZ (c : ascii) : bool :=
  let n := nat_of_ascii c in ((65 <=? n) && (n <=? 90))%nat.

Definition isLowerAZ (c : ascii) : bool :=
  let n := nat_of_ascii c in ((97 <=? n) && (n <=? 122))%nat.

(** The character class [[a-zA-Z]]. *)
Definition isLetter (c : ascii) : bool := isLowerAZ c || isUpperAZ c.

(** [String.prototype.toLowerCase] on code units below 256: A-Z and the
    Latin-1 capitals U+00C0-U+00DE (U+00D7, the multiplication sign, apart)
    move up by 32; every other code unit is its own lower case. On these
    code units the lower case of a text is made character by character;
    beyond them it is not (a capital sigma is lower-cased by its place in
    the word), and nothing below is stated for such text. *)
Definition lowerChar (c : ascii) : ascii :=
  let n := nat_of_ascii c in
  if isUpperAZ c then ascii_of_nat (n + 32)
  else if ((192 <=? n) && (n <=? 222) && negb (n =? 215))%nat then ascii_of_nat (n + 32)
  else c.

Fixpoint toLowerCase (s : string) : string :=
  match s with
  | EmptyString => EmptyString
  | String c rest => String (lowerChar c) (toLowerCase rest)
  end.

(** White space and line terminators below 256: TAB, LF, VT, FF, CR, SP, NBSP. *)
Definition isWhiteSpace (c : ascii) : bool :=
  let n := nat_of_ascii c in
  (((9 <=? n) && (n <=? 13)) || (n =? 32) || (n =? 160))%nat.

Fixpoint trimStart (s : string) : string :=
  match s with
  | EmptyString => EmptyString
  | String c rest => if isWhiteSpace c then trimStart rest else s
  end.

(** [trimEnd]: a character is dropped when it is white space and everything
    after it has been dropped. *)
Fixpoint trimEnd (s : string) : string :=
  match s with
  | EmptyString => EmptyString
  | String c rest =>
      match trimEnd rest with
      | EmptyString => if isWhiteSpace c then EmptyString else String c EmptyString
      | kept => String c kept
      end
  end.

Definition trim (s : string) : string := trimEnd (trimStart s).

(** Decimal rendering of an array index or a small non-negative integer. *)
Definition showNat (n : nat) : string := NilEmpty.string_of_uint (Nat.to_uint n).

(** ** Truthiness and [typeof] *)

Definition truthy (v : JsVal) : bool :=
  match v with
  | JUndefined | JNull => false
  | JBool b => b
  | JNum f => negb (PrimFloat.is_nan f || PrimFloat.is_zero f)
  | JStr s => negb (String.eqb s "")
  | JArr _ | JObj _ => true
  end.

Definition typeof (v : JsVal) : string :=
  match v with
  | JUndefined => "undefined"
  | JNull => "object"
  | JBool _ => "boolean"
  | JNum _ => "number"
  | JStr _ => "string"
  | JArr _ | JObj _ => "object"
  end.

(** ** Path traversal protection *)

(** The regular expression [/^[a-zA-Z]:/]. *)
Definition isDrivePath (s : string) : bool :=
  match s with
  | String c (String ":" _) => isLetter c
  | _ => false
  end.

Definition backslash : string := String (ascii_of_nat 92) EmptyString.

Definition dquote : string := String (ascii_of_nat 34) EmptyString.

(** The first test, [!filePath || typeof filePath !== 'string'], lets only
    non-empty strings through: the [match] is on [typeof]. *)
Definition validateAssetPath (filePath : JsVal) : Completion bool :=
  match filePath with
  | JStr s =>
      if negb (truthy filePath) then Throw (Error "Path must be a string")
      else if includes ".." s || startsWith "/" s || startsWith backslash s
              || includes (backslash ++ backslash) s
      then Throw (Error ("Invalid file path: " ++ s))
      else if isDrivePath s
      then Throw (Error ("Absolute paths forbidden: " ++ s))
      else Return true
  | _ => Throw (Error "Path must be a string")
  end.

(** ** Configuration *)

Record MapSettings : Type := {
  hoverOpacity : float;
  maxMapCache : nat;
  defaultMap : string
}.

Definition DEFAULT_MAP : string := "SillyTavern.json".

(** The [mapSettings] object of the module (the fields the modelled
    functions read). *)
Definition mapSettings : MapSettings :=
  {| hoverOpacity := 0x1.3333333333333p-2%float; (* the double written 0.3 *)
     maxMapCache := 10; defaultMap := DEFAULT_MAP |}.

Definition extensionName : string := "SillyTavern-Interactive Map".

Definition extensionFolderPath : string :=
  "scripts/extensions/third-party/" ++ extensionName.

(** ** The conversions of the language

    [Number(string)] and the rendering of a number in a template literal are
    operations of the JavaScript runtime, not of this module: they are the
    fields of [Runtime]. *)

Class Runtime : Type := {
  StringToNumber : string -> float;
  NumberToString : float -> string
}.

Definition getProp (v : JsVal) (key : string) : JsVal :=
  match v with
  | JObj fields =>
      match find (fun kv => String.eqb (fst kv) key) fields with
      | Some kv => snd kv
      | None => JUndefined
      end
  | _ => JUndefined
  end.

(** [v?.key] *)
Definition optProp (v : JsVal) (key : string) : JsVal :=
  match v with
  | JUndefined | JNull => JUndefined
  | _ => getProp v key
  end.

Definition TypeError (msg : string) : JsError := mkError "TypeError" msg.

(** [v.key], which throws on [null] and [undefined]. *)
Definition readProp (v : JsVal) (key : string) : Completion JsVal :=
  match v with
  | JUndefined | JNull =>
      Throw (TypeError ("Cannot read properties of " ++
                        (match v with JNull => "null" | _ => "undefined" end) ++
                        " (reading '" ++ key ++ "')"))
  | _ => Return (getProp v key)
  end.

(** [array.push(x)] on an array held as a list. *)
Definition push {A} (array : list A) (x : A) : list A := (array ++ [x])%list.

Definition isArray (v : JsVal) : bool :=
  match v with JArr _ => true | _ => false end.

Definition tryCatch {A} (body : Completion A) (handler : JsError -> Completion A)
  : Completion A :=
  match body with
  | Return a => Return a
  | Throw e => handler e
  end.

Section Core.
Context `{Runtime}.

(** The text of a value, for every value that has one; the values whose
    conversion throws are told apart by [hasPrimitive] below. *)
Fixpoint ToString (v : JsVal) : string :=
  match v with
  | JUndefined => "undefined"
  | JNull => "null"
  | JBool true => "true"
  | JBool false => "false"
  | JNum f => NumberToString f
  | JStr s => s
  | JArr items =>
      String.concat ","
        (map (fun x => match x with
                       | JUndefined | JNull => ""
                       | _ => ToString x
                       end) items)
  | JObj _ => "[object Object]"
  end.

Definition ToNumber (v : JsVal) : float :=
  match v with
  | JUndefined => PrimFloat.nan
  | JNull => 0%float
  | JBool true => 1%float
  | JBool false => 0%float
  | JNum f => f
  | JStr s => StringToNumber s
  | JArr _ | JObj _ => StringToNumber (ToString v)
  end.

(** [Number.isFinite] *)
Definition isFinite (f : float) : bool :=
  negb (PrimFloat.is_nan f) && negb (PrimFloat.is_infinity f).

(** *** Conversions that throw

    [ToString] and [ToNumber] above are the text and the number of a value
    that has a primitive value. An object is converted through its
    [toString] method. A decoded object that holds a property [toString] of
    its own holds a value there, never a function: nothing can be called,
    its [valueOf], own or inherited, yields no primitive either, and the
    conversion throws a [TypeError]. An array joins the conversions of its
    elements. *)

Definition hasOwn (key : string) (fields : list (string * JsVal)) : bool :=
  existsb (fun kv => String.eqb (fst kv) key) fields.

Fixpoint hasPrimitive (v : JsVal) : bool :=
  match v with
  | JArr items => forallb (fun x => hasPrimitive x) items
  | JObj fields => negb (hasOwn "toString" fields)
  | _ => true
  end.

Definition ToStringOrThrow (v : JsVal) : Completion string :=
  if hasPrimitive v then Return (ToString v)
  else Throw (TypeError "Cannot convert object to primitive value").

Definition ToNumberOrThrow (v : JsVal) : Completion float :=
  if hasPrimitive v then Return (ToNumber v)
  else Throw (TypeError "Cannot convert object to primitive value").

(** ** Document validation *)

Definition isHexDigit (c : ascii) : bool :=
  let n := nat_of_ascii c in
  (((48 <=? n) && (n <=? 57)) || ((65 <=? n) && (n <=? 70))
   || ((97 <=? n) && (n <=? 102)))%nat.

Fixpoint allHex (s : string) : bool :=
  match s with
  | EmptyString => true
  | String c rest => isHexDigit c && allHex rest
  end.

(** [/^#([A-Fa-f0-9]{6}|[A-Fa-f0-9]{3})$/.test(color)]: [test] converts
    its argument to a string first. *)
Definition isValidColor (color : JsVal) : bool :=
  match ToString color with
  | String "#" digits =>
      allHex digits
      && ((String.length digits =? 6) || (String.length digits =? 3))%nat
  | _ => false
  end.

(** [isValidColor] with the failure of that conversion: what the call
    does for every argument, where [isValidColor] is its result when it
    returns one. *)
Definition isValidColorOrThrow (color : JsVal) : Completion bool :=
  text <- ToStringOrThrow color ;;
  Return (isValidColor (JStr text)).

Definition shapePrefix (index : nat) : string := "Shape[" ++ showNat index ++ "]".

(** [errors] is the array the caller passes in; the result is that array
    after the pushes. *)
Definition validateShape (shape : JsVal) (index : nat) (errors : list string)
  : list string :=
  if negb (truthy shape) || negb (String.eqb (typeof shape) "object") then
    push errors (shapePrefix index ++ ": must be an object")
  else
    let s := shape in
    let prefix := shapePrefix index in
    let errors :=
      if negb (truthy (getProp s "id")) || negb (truthy (getProp s "path"))
         || negb (truthy (getProp s "color")) || negb (truthy (getProp s "script"))
      then push errors (prefix ++ ": missing required fields (id, path, color, script)")
      else errors in
    let errors :=
      if negb (String.eqb (typeof (getProp s "script")) "string")
      then push errors (prefix ++ ".script: must be a string")
      else errors in
    let errors :=
      if negb (String.eqb (typeof (getProp s "path")) "string")
      then push errors (prefix ++ ".path: must be a string")
      else errors in
    if negb (isValidColor (getProp s "color"))
    then push errors (prefix ++ ".color: invalid color " ++ dquote ++
                 ToString (getProp s "color") ++ dquote)
    else errors.

(** [shapes.forEach((shape, i) => validateShape(shape, i, errors))], from
    index [i] on. *)
Fixpoint validateShapesFrom (shapes : list JsVal) (i : nat) (errors : list string)
  : list string :=
  match shapes with
  | [] => errors
  | shape :: rest => validateShapesFrom rest (S i) (validateShape shape i errors)
  end.

Record ValidationResult : Type := { valid : bool; errors : list string }.

Definition validateMapData (data : JsVal) : ValidationResult :=
  if negb (truthy data) || negb (String.eqb (typeof data) "object") then
    {| valid := false; errors := ["Map data must be an object"] |}
  else
    let errors := @nil string in
    let bg := getProp data "backgroundImage" in
    let errors :=
      if negb (truthy bg) || negb (String.eqb (typeof (getProp bg "file")) "string")
      then push errors ("backgroundImage.file: required and must be a string")
      else errors in
    let width := ToNumber (optProp bg "width") in
    let height := ToNumber (optProp bg "height") in
    let errors :=
      if negb (isFinite width) || negb (isFinite height)
         || PrimFloat.leb width 0 || PrimFloat.leb height 0
      then push errors ("backgroundImage.width/height: must be positive numbers")
      else errors in
    let errors :=
      match getProp data "shapes" with
      | JArr [] => push errors ("shapes: must be non-empty array")
      | JArr shapes => validateShapesFrom shapes 0 errors
      | _ => push errors ("shapes: must be non-empty array")
      end in
    {| valid := match errors with [] => true | _ => false end; errors := errors |}.

(** ** The network

    What [fetch(url)] settles to within the timeout: a rejection (the
    [AbortError] of the timer's [controller.abort()], or a network
    failure), or a response whose [json()] either yields a value or
    rejects. *)

Inductive Body : Type :=
| BodyJson (value : JsVal)
| BodyRejected (e : JsError).

Inductive FetchOutcome : Type :=
| Rejected (e : JsError)
| Response (ok : bool) (status : nat) (statusText : string) (body : Body).

Definition Network : Type := string -> FetchOutcome.

Definition AbortError : JsError := mkError "AbortError" "The operation was aborted.".

Definition fetchJsonWithTimeout (fetch : Network) (url : string)
    (treatNotOkAsEmpty : bool) (timeoutMessage : string) : Completion JsVal :=
  tryCatch
    (match fetch url with
     | Rejected e => Throw e
     | Response ok status statusText body =>
         if negb ok then
           if treatNotOkAsEmpty then Return JNull
           else Throw (Error ("HTTP " ++ showNat status ++ ": " ++ statusText))
         else
           match body with
           | BodyJson data => Return data
           | BodyRejected parseError =>
               Throw (Error ("JSON parse error: " ++ errMessage parseError))
           end
     end)
    (fun error =>
       if String.eqb (errName error) "AbortError"
       then Throw (Error timeoutMessage)
       else Throw error).

(** ** Module state *)

Record ExtensionState : Type := {
  currentLoadedMap : option string;
  availableMaps : JsVal;
  isMapLoaded : bool;
  lastError : option JsError
}.

(** [mapCache] is a [Map]: its entries in insertion order. *)
Definition MapCache : Type := list (string * JsVal).

Record Store : Type := {
  mapCache : MapCache;
  extensionState : ExtensionState
}.

Definition initialStore : Store :=
  {| mapCache := [];
     extensionState := {| currentLoadedMap := None; availableMaps := JArr [];
                          isMapLoaded := false; lastError := None |} |}.

Definition cacheGet (key : string) (c : MapCache) : option JsVal :=
  match find (fun kv => String.eqb (fst kv) key) c with
  | Some kv => Some (snd kv)
  | None => None
  end.

Definition cacheHas (key : string) (c : MapCache) : bool :=
  match cacheGet key c with Some _ => true | None => false end.

Definition cacheDelete (key : string) (c : MapCache) : MapCache :=
  filter (fun kv => negb (String.eqb (fst kv) key)) c.

(** [Map.prototype.set]: a present key keeps its place, a new key goes last. *)
Fixpoint cacheSet (key : string) (value : JsVal) (c : MapCache) : MapCache :=
  match c with
  | [] => [(key, value)]
  | (k, v) :: rest =>
      if String.eqb k key then (k, value) :: rest
      else (k, v) :: cacheSet key value rest
  end.

(** [mapCache.keys().next().value] *)
Definition firstKey (c : MapCache) : option string :=
  match c with
  | [] => None
  | (k, _) :: _ => Some k
  end.

Definition cacheKeys (c : MapCache) : list string := map fst c.

Definition setLastError (e : JsError) (st : Store) : Store :=
  {| mapCache := mapCache st;
     extensionState :=
       {| currentLoadedMap := currentLoadedMap (extensionState st);
          availableMaps := availableMaps (extensionState st);
          isMapLoaded := isMapLoaded (extensionState st);
          lastError := Some e |} |}.

Definition setAvailableMaps (maps : JsVal) (st : Store) : Store :=
  {| mapCache := mapCache st;
     extensionState :=
       {| currentLoadedMap := currentLoadedMap (extensionState st);
          availableMaps := maps;
          isMapLoaded := isMapLoaded (extensionState st);
          lastError := lastError (extensionState st) |} |}.

Definition setCache (c : MapCache) (st : Store) : Store :=
  {| mapCache := c; extensionState := extensionState st |}.

(** ** Document loading *)

(** The steps of [loadMapData] between the cache miss and the cache
    update: path check, fetch, validation. *)
Definition fetchValidated (fetch : Network) (mapName : JsVal) : Completion JsVal :=
  _ <- validateAssetPath mapName ;;
  let mapPath := extensionFolderPath ++ "/" ++ ToString mapName in
  data <- fetchJsonWithTimeout fetch mapPath false
            ("Timeout loading map: " ++ ToString mapName) ;;
  let validation := validateMapData data in
  if negb (valid validation)
  then Throw (Error ("Validation error: " ++ String.concat "; " (errors validation)))
  else Return data.

(** The cache management of [loadMapData]: at capacity the first key of
    the map is deleted, then the document is set. *)
Definition cacheInsert (cfg : MapSettings) (key : string) (data : JsVal)
    (c : MapCache) : MapCache :=
  let c :=
    if (maxMapCache cfg <=? List.length c)%nat then
      match firstKey c with
      | Some k => cacheDelete k c
      | None => c
      end
    else c in
  cacheSet key data c.

Definition loadMapData (cfg : MapSettings) (fetch : Network) (mapName : JsVal)
    (st : Store) : Completion JsVal * Store :=
  let cached :=
    match mapName with
    | JStr key => cacheGet key (mapCache st)
    | _ => None
    end in
  match cached with
  | Some data => (Return data, st)
  | None =>
      match fetchValidated fetch mapName with
      | Return data =>
          (Return data, setCache (cacheInsert cfg (ToString mapName) data (mapCache st)) st)
      | Throw error => (Throw error, setLastError error st)
      end
  end.

(** [mapCache.clear()], the cache part of the refresh button's handler. *)
Definition clearCache (st : Store) : Store := setCache [] st.

(** ** Listing discovery *)

Definition tryLoadMapsFromIndex (fetch : Network) : Completion JsVal :=
  tryCatch
    (match fetch (extensionFolderPath ++ "/index.json") with
     | Rejected fetchError => Throw fetchError
     | Response ok _ _ body =>
         if negb ok then Return (JArr [])
         else
           match body with
           | BodyRejected _ => Return (JArr [])
           | BodyJson index =>
               if isArray index then Return index
               else
                 maps <- readProp index "maps" ;;
                 Return (if truthy maps then maps else JArr [])
           end
     end)
    (fun _ => Return (JArr [])).

(** [x.length > 0]: the length of an array or of a string, and for an
    object its property [length] converted to a number, which can throw. *)
Definition lengthPositive (x : JsVal) : Completion bool :=
  match x with
  | JArr items => Return (match items with [] => false | _ => true end)
  | JStr s => Return (negb (String.eqb s ""))
  | JObj _ =>
      length <- ToNumberOrThrow (getProp x "length") ;;
      Return (PrimFloat.ltb 0 length)
  | JNum _ | JBool _ => Return false
  | JUndefined | JNull =>
      Throw (TypeError "Cannot read properties of undefined (reading 'length')")
  end.

(** The [try] block chooses the list; it is stored and returned. The
    [catch] block stores and returns [[defaultMap]]. *)
Definition discoverAvailableMaps (cfg : MapSettings) (fetch : Network) (st : Store)
  : Completion JsVal * Store :=
  match (indexedMaps <- tryLoadMapsFromIndex fetch ;;
         positive <- lengthPositive indexedMaps ;;
         Return (if positive then indexedMaps else JArr [JStr (defaultMap cfg)])) with
  | Return maps => (Return maps, setAvailableMaps maps st)
  | Throw _ =>
      (Return (JArr [JStr (defaultMap cfg)]),
       setAvailableMaps (JArr [JStr (defaultMap cfg)]) st)
  end.

(** ** Map selection *)

(** The callback of [availableMaps.find] in [findMapByName], on the
    lower-cased entry. *)
Definition nameMatches (search mapLower : string) : bool :=
  String.eqb mapLower search
  || endsWith ("/" ++ search ++ ".json") mapLower
  || String.eqb mapLower (search ++ ".json")
  || endsWith ("/" ++ search) mapLower
  || String.eqb mapLower search.

(** [Array.prototype.find] with that callback; [mapPath.toLowerCase()]
    throws on an entry that is not a string. *)
Fixpoint findMatch (search : string) (entries : list JsVal)
  : Completion (option string) :=
  match entries with
  | [] => Return None
  | JStr mapPath :: rest =>
      if nameMatches search (toLowerCase mapPath) then Return (Some mapPath)
      else findMatch search rest
  | _ :: _ => Throw (TypeError "mapPath.toLowerCase is not a function")
  end.

(** [x.length === 0] for a value [x] that is neither [null] nor [undefined]. *)
Definition lengthIsZero (x : JsVal) : bool :=
  match x with
  | JArr items => match items with [] => true | _ => false end
  | JStr s => String.eqb s ""
  | JObj _ =>
      match getProp x "length" with
      | JNum f => PrimFloat.eqb f 0
      | _ => false
      end
  | _ => false
  end.

Definition findMapByName (st : Store) (searchTerm : string)
  : Completion (option string) :=
  let maps := availableMaps (extensionState st) in
  if negb (truthy maps) || lengthIsZero maps then Return None
  else
    let search := toLowerCase searchTerm in
    match maps with
    | JArr entries =>
        found <- findMatch search entries ;;
        (* [found || null] *)
        Return (match found with
                | Some mapPath => if String.eqb mapPath "" then None else Some mapPath
                | None => None
                end)
    | _ => Throw (TypeError "extensionState.availableMaps.find is not a function")
    end.

(** The result is [None] for the [null] of the first line. *)
Definition resolveMapPath (st : Store) (input : string)
  : Completion (option string) :=
  if String.eqb input "" then Return None
  else
    let trimmed := trim input in
    found <- findMapByName st trimmed ;;
    match found with
    | Some mapPath => Return (Some mapPath)
    | None =>
        let mapPath := trimmed in
        let mapPath :=
          if negb (endsWith ".json" (toLowerCase mapPath))
          then mapPath ++ ".json" else mapPath in
        Return (Some mapPath)
    end.

(** ** Hover fill *)

Definition hexValue (c : ascii) : Z :=
  let n := Z.of_nat (nat_of_ascii c) in
  if isLowerAZ c then n - 87
  else if isUpperAZ c then n - 55
  else n - 48.

(** The value of the longest prefix of hexadecimal digits of [s], read
    after the digits counted in [acc]; [seen] tells whether a digit has
    been read. *)
Fixpoint hexPrefix (s : string) (seen : bool) (acc : Z) : option Z :=
  match s with
  | String c rest =>
      if isHexDigit c then hexPrefix rest true (16 * acc + hexValue c)
      else if seen then Some acc else None
  | EmptyString => if seen then Some acc else None
  end.

(** [parseInt(s, 16)]: leading white space, a sign, a [0x] prefix, then
    digits; [None] is [NaN]. The value is exact up to 13 digits; the hover
    handler passes at most two characters. *)
Definition parseInt16 (s : string) : option Z :=
  let s := trimStart s in
  let '(negative, s) :=
    match s with
    | String "-" rest => (true, rest)
    | String "+" rest => (false, rest)
    | _ => (false, s)
    end in
  let s :=
    match s with
    | String "0" (String "x" rest) => rest
    | String "0" (String "X" rest) => rest
    | _ => s
    end in
  match hexPrefix s false 0 with
  | Some n => Some (if negative then - n else n)%Z
  | None => None
  end.

(** A colour channel in a template literal. *)
Definition showChannel (n : option Z) : string :=
  match n with
  | None => "NaN"
  | Some z => NilEmpty.string_of_int (Z.to_int z)
  end.

(** The three channels [handleMouseOver] reads from
    [this.dataset.originalColor]. *)
Definition hoverRGB (hex : string) : option Z * option Z * option Z :=
  if (String.length hex =? 4)%nat then
    (parseInt16 (substring 1 1 hex ++ substring 1 1 hex),
     parseInt16 (substring 2 1 hex ++ substring 2 1 hex),
     parseInt16 (substring 3 1 hex ++ substring 3 1 hex))
  else
    (parseInt16 (substring 1 2 hex),
     parseInt16 (substring 3 2 hex),
     parseInt16 (substring 5 2 hex)).

(** The value [handleMouseOver] assigns to [this.style.fill]. *)
Definition handleMouseOver (cfg : MapSettings) (hex : string) : string :=
  let '(R, G, B) := hoverRGB hex in
  "rgba(" ++ showChannel R ++ ", " ++ showChannel G ++ ", " ++ showChannel B
          ++ ", " ++ NumberToString (hoverOpacity cfg) ++ ")".

End Core.

(** ** Media overlays

    The module keeps one element per media kind in a module-level variable
    ([mapAudioElement], [mapImageElement], [mapVideoElement]) and one close
    button for the image and one for the video. The variable and the DOM
    share the node, so a node is one record here. Of the DOM the functions
    ask two questions about a node, [document.body.contains(node)] and
    [container.contains(node)] for the map window's container; each node
    carries the two answers. These functions are written for a page with
    a body; the stop functions are given once more, further down, for a
    page that has lost it. Size and position styling ([resizeVideoToSvg],
    [sizePct]) is left out: no overlay state depends on it. The DOM calls
    made inside the [try] blocks ([pause], [load], [removeAttribute],
    assignments) do not throw. *)

Record AudioElement : Type := {
  audioSrc : option string;
  audioPaused : bool;
  audioCurrentTime : float;
  audioInBody : bool
}.

Record ImageElement : Type := {
  imgSrc : option string;
  imgDisplay : string;
  imgInBody : bool;
  imgInWindow : bool
}.

Record VideoElement : Type := {
  vidSrc : option string;
  vidPaused : bool;
  vidDisplay : string;
  vidMuted : bool;
  vidLoop : bool;
  vidAutoplay : bool;
  vidInBody : bool;
  vidInWindow : bool
}.

Record CloseButton : Type := {
  btnDisplay : string;
  btnInBody : bool;
  btnInWindow : bool
}.

Record World : Type := {
  mapAudioElement : option AudioElement;
  mapImageElement : option ImageElement;
  mapImageCloseButton : option CloseButton;
  mapVideoElement : option VideoElement;
  mapVideoCloseButton : option CloseButton;
  (** [#map] is in the document *)
  mapWindowOpen : bool;
  (** the browser lets [play()] start *)
  playbackAllowed : bool;
  (** [window._mapVideoResizeListener] *)
  resizeListenerInstalled : bool;
  (** what [toastr] has shown, oldest first *)
  notifications : list string
}.

Definition initialWorld : World :=
  {| mapAudioElement := None; mapImageElement := None; mapImageCloseButton := None;
     mapVideoElement := None; mapVideoCloseButton := None;
     mapWindowOpen := false; playbackAllowed := true;
     resizeListenerInstalled := false; notifications := [] |}.

Definition withAudio (a : option AudioElement) (w : World) : World :=
  {| mapAudioElement := a; mapImageElement := mapImageElement w;
     mapImageCloseButton := mapImageCloseButton w;
     mapVideoElement := mapVideoElement w;
     mapVideoCloseButton := mapVideoCloseButton w;
     mapWindowOpen := mapWindowOpen w; playbackAllowed := playbackAllowed w;
     resizeListenerInstalled := resizeListenerInstalled w;
     notifications := notifications w |}.

Definition withImage (i : option ImageElement) (w : World) : World :=
  {| mapAudioElement := mapAudioElement w; mapImageElement := i;
     mapImageCloseButton := mapImageCloseButton w;
     mapVideoElement := mapVideoElement w;
     mapVideoCloseButton := mapVideoCloseButton w;
     mapWindowOpen := mapWindowOpen w; playbackAllowed := playbackAllowed w;
     resizeListenerInstalled := resizeListenerInstalled w;
     notifications := notifications w |}.

Definition withImageButton (b : option CloseButton) (w : World) : World :=
  {| mapAudioElement := mapAudioElement w; mapImageElement := mapImageElement w;
     mapImageCloseButton := b;
     mapVideoElement := mapVideoElement w;
     mapVideoCloseButton := mapVideoCloseButton w;
     mapWindowOpen := mapWindowOpen w; playbackAllowed := playbackAllowed w;
     resizeListenerInstalled := resizeListenerInstalled w;
     notifications := notifications w |}.

Definition withVideo (v : option VideoElement) (w : World) : World :=
  {| mapAudioElement := mapAudioElement w; mapImageElement := mapImageElement w;
     mapImageCloseButton := mapImageCloseButton w;
     mapVideoElement := v;
     mapVideoCloseButton := mapVideoCloseButton w;
     mapWindowOpen := mapWindowOpen w; playbackAllowed := playbackAllowed w;
     resizeListenerInstalled := resizeListenerInstalled w;
     notifications := notifications w |}.

Definition withVideoButton (b : option CloseButton) (w : World) : World :=
  {| mapAudioElement := mapAudioElement w; mapImageElement := mapImageElement w;
     mapImageCloseButton := mapImageCloseButton w;
     mapVideoElement := mapVideoElement w;
     mapVideoCloseButton := b;
     mapWindowOpen := mapWindowOpen w; playbackAllowed := playbackAllowed w;
     resizeListenerInstalled := resizeListenerInstalled w;
     notifications := notifications w |}.

Definition withResizeListener (w : World) : World :=
  {| mapAudioElement := mapAudioElement w; mapImageElement := mapImageElement w;
     mapImageCloseButton := mapImageCloseButton w;
     mapVideoElement := mapVideoElement w;
     mapVideoCloseButton := mapVideoCloseButton w;
     mapWindowOpen := mapWindowOpen w; playbackAllowed := playbackAllowed w;
     resizeListenerInstalled := true;
     notifications := notifications w |}.

(** [toastr.error], [toastr.warning] *)
Definition notify (msg : string) (w : World) : World :=
  {| mapAudioElement := mapAudioElement w; mapImageElement := mapImageElement w;
     mapImageCloseButton := mapImageCloseButton w;
     mapVideoElement := mapVideoElement w;
     mapVideoCloseButton := mapVideoCloseButton w;
     mapWindowOpen := mapWindowOpen w; playbackAllowed := playbackAllowed w;
     resizeListenerInstalled := resizeListenerInstalled w;
     notifications := push (notifications w) msg |}.

Definition setDisplay (d : string) (b : CloseButton) : CloseButton :=
  {| btnDisplay := d; btnInBody := btnInBody b; btnInWindow := btnInWindow b |}.

(** [container.appendChild(button)] *)
Definition appendButton (b : CloseButton) : CloseButton :=
  {| btnDisplay := btnDisplay b; btnInBody := true; btnInWindow := true |}.

(** The path a media function builds from its argument: folder prefix and
    default extension added when missing. *)
Definition mediaPath (folder : string) (extensions : list string)
    (defaultExtension : string) (name : string) : string :=
  let relativePath := trim name in
  let relativePath :=
    if negb (startsWith folder (toLowerCase relativePath))
    then folder ++ relativePath else relativePath in
  let lower := toLowerCase relativePath in
  let hasExt := existsb (fun ext => endsWith ext lower) extensions in
  if negb hasExt then relativePath ++ defaultExtension else relativePath.

(** [name.trim()] and what follows it up to [validateAssetPath]; the
    result is the element's new [src]. *)
Definition mediaSource (folder : string) (extensions : list string)
    (defaultExtension : string) (name : JsVal) : Completion string :=
  match name with
  | JStr s =>
      let relativePath := mediaPath folder extensions defaultExtension s in
      _ <- validateAssetPath (JStr relativePath) ;;
      Return (extensionFolderPath ++ "/" ++ relativePath)
  | _ => Throw (TypeError "trim is not a function")
  end.

(** *** Audio *)

Definition newAudio : AudioElement :=
  {| audioSrc := None; audioPaused := true; audioCurrentTime := 0%float;
     audioInBody := true |}.

Definition getOrCreateMapAudioElement (w : World) : World :=
  match mapAudioElement w with
  | Some a => if audioInBody a then w else withAudio (Some newAudio) w
  | None => withAudio (Some newAudio) w
  end.

Definition stopCurrentMapAudio (w : World) : World :=
  match mapAudioElement w with
  | None => w
  | Some a =>
      if negb (audioInBody a) then w
      else
        (* pause(); currentTime = 0 *)
        withAudio (Some {| audioSrc := audioSrc a; audioPaused := true;
                           audioCurrentTime := 0%float;
                           audioInBody := audioInBody a |}) w
  end.

Definition audioExtensions : list string := [".mp3"; ".ogg"; ".wav"; ".m4a"; ".webm"].

Definition playMapSound (soundFileName : JsVal) (w : World) : World :=
  if negb (truthy soundFileName) then w
  else
    match mediaSource "sounds/" audioExtensions ".mp3" soundFileName with
    | Throw error => notify ("Audio error: " ++ errMessage error) w
    | Return audioSrc' =>
        let w := getOrCreateMapAudioElement w in
        let w := stopCurrentMapAudio w in
        match mapAudioElement w with
        | None => w
        | Some a =>
            (* audio.src = audioSrc; audio.currentTime = 0; audio.play() *)
            let w := withAudio (Some {| audioSrc := Some audioSrc';
                                        audioPaused := negb (playbackAllowed w);
                                        audioCurrentTime := 0%float;
                                        audioInBody := audioInBody a |}) w in
            if playbackAllowed w then w
            else notify "Could not start map sound playback" w
        end
    end.

(** *** Image *)

Definition newImage : ImageElement :=
  {| imgSrc := None; imgDisplay := "none"; imgInBody := true; imgInWindow := true |}.

Definition newButton : CloseButton :=
  {| btnDisplay := ""; btnInBody := false; btnInWindow := false |}.

(** The result tells whether an element is returned ([null] without a
    container); the element itself is [mapImageElement] of the new world. *)
Definition getOrCreateMapImageElement (w : World) : bool * World :=
  if negb (mapWindowOpen w) then (false, w)
  else
    let reuse :=
      match mapImageElement w with
      | Some img => imgInWindow img
      | None => false
      end in
    if reuse then
      match mapImageCloseButton w with
      | Some b =>
          if negb (btnInWindow b)
          then (true, withImageButton (Some (appendButton b)) w)
          else (true, w)
      | None => (true, w)
      end
    else
      let w := withImage (Some newImage) w in
      let b := match mapImageCloseButton w with
               | Some b => b
               | None => newButton
               end in
      (true, withImageButton (Some (setDisplay "none" (appendButton b))) w).

Definition stopCurrentMapImage (w : World) : World :=
  let w :=
    match mapImageElement w with
    | Some img =>
        if imgInBody img
        then withImage (Some {| imgSrc := None; imgDisplay := "none";
                                imgInBody := imgInBody img;
                                imgInWindow := imgInWindow img |}) w
        else w
    | None => w
    end in
  match mapImageCloseButton w with
  | Some b => if btnInBody b then withImageButton (Some (setDisplay "none" b)) w else w
  | None => w
  end.

Definition imageExtensions : list string := [".png"; ".jpg"; ".jpeg"; ".webp"; ".gif"].

Definition showMapImage (imageName : JsVal) (w : World) : World :=
  if negb (truthy imageName) then w
  else
    match mediaSource "images/" imageExtensions ".png" imageName with
    | Throw error => notify ("Image error: " ++ errMessage error) w
    | Return imgSrc' =>
        let '(found, w) := getOrCreateMapImageElement w in
        if negb found then notify "Map window not open" w
        else
          let w := stopCurrentMapImage w in
          match mapImageElement w with
          | None => w
          | Some img =>
              let w := withImage (Some {| imgSrc := Some imgSrc'; imgDisplay := "block";
                                          imgInBody := imgInBody img;
                                          imgInWindow := imgInWindow img |}) w in
              match mapImageCloseButton w with
              | Some b =>
                  if btnInWindow b
                  then withImageButton (Some (setDisplay "block" b)) w
                  else w
              | None => w
              end
          end
    end.

(** *** Video *)

Definition newVideo : VideoElement :=
  {| vidSrc := None; vidPaused := true; vidDisplay := "";
     vidMuted := false; vidLoop := false; vidAutoplay := false;
     vidInBody := true; vidInWindow := true |}.

Definition getOrCreateMapVideoElement (w : World) : bool * World :=
  if negb (mapWindowOpen w) then (false, w)
  else
    let reuse :=
      match mapVideoElement w with
      | Some video => vidInWindow video
      | None => false
      end in
    if reuse then
      match mapVideoCloseButton w with
      | Some b =>
          if negb (btnInWindow b)
          then (true, withVideoButton (Some (appendButton b)) w)
          else (true, w)
      | None => (true, w)
      end
    else
      let w := withVideo (Some newVideo) w in
      let b := match mapVideoCloseButton w with
               | Some b => b
               | None => newButton
               end in
      (true, withVideoButton (Some (appendButton b)) w).

(** [pause(); removeAttribute('src'); load()] *)
Definition unloadVideo (video : VideoElement) : VideoElement :=
  {| vidSrc := None; vidPaused := true; vidDisplay := vidDisplay video;
     vidMuted := vidMuted video; vidLoop := vidLoop video;
     vidAutoplay := vidAutoplay video;
     vidInBody := vidInBody video; vidInWindow := vidInWindow video |}.

Definition setVideoDisplay (d : string) (video : VideoElement) : VideoElement :=
  {| vidSrc := vidSrc video; vidPaused := vidPaused video; vidDisplay := d;
     vidMuted := vidMuted video; vidLoop := vidLoop video;
     vidAutoplay := vidAutoplay video;
     vidInBody := vidInBody video; vidInWindow := vidInWindow video |}.

Definition stopCurrentMapVideo (w : World) : World :=
  let w :=
    match mapVideoElement w with
    | Some video =>
        if negb (vidInBody video) then withVideo None w
        else withVideo (Some (setVideoDisplay "none" (unloadVideo video))) w
    | None => w
    end in
  match mapVideoCloseButton w with
  | Some b => if btnInBody b then withVideoButton (Some (setDisplay "none" b)) w else w
  | None => w
  end.

Definition videoExtensions : list string := [".mp4"; ".webm"; ".ogg"; ".m4v"].

(** The options of [playMapVideo] as the function reads them: [!!opts.muted],
    [!!opts.loop], [opts.autoplay !== false]. *)
Record VideoOptions : Type := { optMuted : bool; optLoop : bool; optAutoplay : bool }.

Definition playMapVideo (movieName : JsVal) (opts : VideoOptions) (w : World) : World :=
  if negb (truthy movieName) then w
  else
    match mediaSource "movies/" videoExtensions ".mp4" movieName with
    | Throw error => notify ("Video error: " ++ errMessage error) w
    | Return videoSrc' =>
        let '(found, w) := getOrCreateMapVideoElement w in
        if negb found then notify "Map window not open" w
        else
          match mapVideoElement w with
          | None => w
          | Some video =>
              let video :=
                match vidSrc video with
                | Some _ => unloadVideo video
                | None => video
                end in
              let w :=
                match mapVideoCloseButton w with
                | Some b => withVideoButton (Some (setDisplay "block" b)) w
                | None => w
                end in
              let starts := optAutoplay opts && playbackAllowed w in
              let w := withVideo
                         (Some {| vidSrc := Some videoSrc';
                                  vidPaused := negb starts;
                                  vidDisplay := "block";
                                  vidMuted := optMuted opts; vidLoop := optLoop opts;
                                  vidAutoplay := optAutoplay opts;
                                  vidInBody := vidInBody video;
                                  vidInWindow := vidInWindow video |}) w in
              withResizeListener w
          end
    end.

(** *** The overlay state of a kind

    The module has no state variable for an overlay; its state is read off
    the kind's element. A resource is active when the module's variable
    holds an element that is still in the document and that element plays
    (audio), or carries a source or is shown (image), or plays, carries a
    source or is shown (video). An element that left the document is no
    resource of the module any more: the stop functions skip it, the
    getters replace it. *)

Inductive MediaKind : Type := Audio | Image | Video.

Inductive OverlayState : Type := Idle | Active.

Definition isSome {A} (o : option A) : bool :=
  match o with Some _ => true | None => false end.

Definition shown (display : string) : bool := negb (String.eqb display "none").

Definition resourceActive (kind : MediaKind) (w : World) : bool :=
  match kind with
  | Audio =>
      match mapAudioElement w with
      | Some a => audioInBody a && negb (audioPaused a)
      | None => false
      end
  | Image =>
      match mapImageElement w with
      | Some img => imgInBody img && (isSome (imgSrc img) || shown (imgDisplay img))
      | None => false
      end
  | Video =>
      match mapVideoElement w with
      | Some video =>
          vidInBody video
          && (negb (vidPaused video) || isSome (vidSrc video) || shown (vidDisplay video))
      | None => false
      end
  end.

Definition overlayState (kind : MediaKind) (w : World) : OverlayState :=
  if resourceActive kind w then Active else Idle.

(** The close control of a kind is on screen: audio has none. *)
Definition closeControlVisible (kind : MediaKind) (w : World) : bool :=
  let visible (b : option CloseButton) :=
    match b with
    | Some b => btnInBody b && shown (btnDisplay b)
    | None => false
    end in
  match kind with
  | Audio => false
  | Image => visible (mapImageCloseButton w)
  | Video => visible (mapVideoCloseButton w)
  end.

Definition stop (kind : MediaKind) (w : World) : World :=
  match kind with
  | Audio => stopCurrentMapAudio w
  | Image => stopCurrentMapImage w
  | Video => stopCurrentMapVideo w
  end.

(** *** A page without a body

    [document.body] is [null] in a document whose body element has been
    taken out. The image and video stops test [document.body] before they
    call [document.body.contains], inside their [try] block;
    [stopCurrentMapAudio] makes the call without a test and outside its
    [try] block, where reading [contains] of [null] throws. Below are the
    three stop functions with that read written out: [body] tells whether
    [document.body] exists, and nothing is contained in a body that does not
    exist. *)

Definition stopCurrentMapAudioIn (body : bool) (w : World) : Completion World :=
  match mapAudioElement w with
  | None => Return w
  | Some a =>
      if negb body
      then Throw (TypeError "Cannot read properties of null (reading 'contains')")
      else if negb (audioInBody a) then Return w
      else
        Return (withAudio (Some {| audioSrc := audioSrc a; audioPaused := true;
                                   audioCurrentTime := 0%float;
                                   audioInBody := audioInBody a |}) w)
  end.

Definition stopCurrentMapImageIn (body : bool) (w : World) : Completion World :=
  let w :=
    match mapImageElement w with
    | Some img =>
        if body && imgInBody img
        then withImage (Some {| imgSrc := None; imgDisplay := "none";
                                imgInBody := imgInBody img;
                                imgInWindow := imgInWindow img |}) w
        else w
    | None => w
    end in
  Return
    match mapImageCloseButton w with
    | Some b =>
        if body && btnInBody b then withImageButton (Some (setDisplay "none" b)) w else w
    | None => w
    end.

Definition stopCurrentMapVideoIn (body : bool) (w : World) : Completion World :=
  let w :=
    match mapVideoElement w with
    | Some video =>
        if negb body || negb (vidInBody video) then withVideo None w
        else withVideo (Some (setVideoDisplay "none" (unloadVideo video))) w
    | None => w
    end in
  Return
    match mapVideoCloseButton w with
    | Some b =>
        if body && btnInBody b then withVideoButton (Some (setDisplay "none" b)) w else w
    | None => w
    end.

Definition stopIn (body : bool) (kind : MediaKind) (w : World) : Completion World :=
  match kind with
  | Audio => stopCurrentMapAudioIn body w
  | Image => stopCurrentMapImageIn body w
  | Video => stopCurrentMapVideoIn body w
  end.

(** ** The conditions of the specification, in its own words

    These follow the text of the specification and are compared with the
    functions above. *)

Definition Contains (pat s : string) : Prop := exists a b, s = a ++ pat ++ b.

Definition StartsWith (pat s : string) : Prop := exists rest, s = pat ++ rest.

Definition EndsWith (suf s : string) : Prop := exists front, s = front ++ suf.

Definition Between (lo hi c : ascii) : Prop :=
  nat_of_ascii lo <= nat_of_ascii c /\ nat_of_ascii c <= nat_of_ascii hi.

(** [^[A-Za-z]:] *)
Definition DriveLetterPrefix (s : string) : Prop :=
  exists c rest, s = String c (String ":" rest)
                 /\ (Between "A" "Z" c \/ Between "a" "z" c).

(** The paths [PathResolver.validate] is said to refuse. *)
Definition RefusedPath (p : JsVal) : Prop :=
  match p with
  | JStr s =>
      s = "" \/ Contains ".." s \/ StartsWith "/" s \/ StartsWith backslash s
      \/ Contains (backslash ++ backslash) s \/ DriveLetterPrefix s
  | _ => True
  end.

(** A runtime to evaluate the functions on the examples below. The examples
    render one number, the hover opacity 0.3, and convert no string to a
    number; elsewhere the two functions are placeholders. *)
Definition exampleRuntime : Runtime :=
  {| StringToNumber := fun _ => PrimFloat.nan;
     NumberToString := fun f =>
       if PrimFloat.eqb f 0x1.3333333333333p-2 then "0.3"
       else if PrimFloat.eqb f 0 then "0"
       else "NaN" |}.

Section Conditions.
Context `{Runtime}.

(** Width and height coerce to finite numbers that are not [<= 0]. *)
Definition dimensionsValid (bg : JsVal) : bool :=
  let width := ToNumber (optProp bg "width") in
  let height := ToNumber (optProp bg "height") in
  isFinite width && isFinite height
  && negb (PrimFloat.leb width 0) && negb (PrimFloat.leb height 0).

Definition isNonEmptyString (v : JsVal) : bool :=
  truthy v && String.eqb (typeof v) "string".

(** A shape with every required field: [validateShape] adds no error. *)
Definition shapeComplete (shape : JsVal) : bool :=
  truthy shape && String.eqb (typeof shape) "object"
  && truthy (getProp shape "id")
  && isNonEmptyString (getProp shape "path")
  && isNonEmptyString (getProp shape "script")
  && truthy (getProp shape "color") && isValidColor (getProp shape "color").

(** A shape that lacks [color] and nothing else. *)
Definition missingOnlyColor (shape : JsVal) : bool :=
  truthy shape && String.eqb (typeof shape) "object"
  && truthy (getProp shape "id")
  && isNonEmptyString (getProp shape "path")
  && isNonEmptyString (getProp shape "script")
  && match getProp shape "color" with JUndefined => true | _ => false end.

End Conditions.

(** A document without [backgroundImage.file] whose only shape lacks [color]. *)
Definition docMissingFileAndColor : JsVal :=
  JObj [("backgroundImage", JObj [("width", JNum 800%float); ("height", JNum 600%float)]);
        ("shapes", JArr [JObj [("id", JStr "zone"); ("path", JStr "M0 0 L9 9 Z");
                               ("script", JStr "/echo hello")]])].

Section LoaderConditions.
Context `{Runtime}.

(** Every cached document passes [validateMapData]. *)
Definition cacheValidated (c : MapCache) : Prop :=
  Forall (fun kv => valid (validateMapData (snd kv)) = true) c.

(** The stores the module can be in: it starts with an empty cache, and the
    cache is touched by [loadMapData] and by the refresh handler's
    [mapCache.clear()] only; listing discovery changes the rest of the state. *)
Inductive Reachable (cfg : MapSettings) : Store -> Prop :=
| reach_initial : Reachable cfg initialStore
| reach_load (fetch : Network) (mapName : JsVal) (st : Store) :
    Reachable cfg st -> Reachable cfg (snd (loadMapData cfg fetch mapName st))
| reach_clear (st : Store) :
    Reachable cfg st -> Reachable cfg (clearCache st)
| reach_discover (fetch : Network) (st : Store) :
    Reachable cfg st -> Reachable cfg (snd (discoverAvailableMaps cfg fetch st)).

(** [loadMapData] called for each name in turn. *)
Definition loadAll (cfg : MapSettings) (fetch : Network) (names : list string)
    (st : Store) : Store :=
  fold_left (fun st name => snd (loadMapData cfg fetch (JStr name) st)) names st.

(** The cache entries of the names of a list, each with its document. *)
Definition entriesOf (docs : string -> JsVal) (names : list string) : MapCache :=
  map (fun name => (name, docs name)) names.

End LoaderConditions.

(** A valid document, a network that serves it under every address, and
    eleven document names. *)
Definition docCity : JsVal :=
  JObj [("backgroundImage",
         JObj [("file", JStr "images/city.png");
               ("width", JNum 800%float); ("height", JNum 600%float)]);
        ("shapes", JArr [JObj [("id", JStr "harbor"); ("path", JStr "M0 0 L9 9 Z");
                               ("color", JStr "#F00"); ("script", JStr "/echo harbor")]])].

Definition cityNetwork : Network :=
  fun _ => Response true 200 "OK" (BodyJson docCity).

Definition elevenNames : list string :=
  ["m0.json"; "m1.json"; "m2.json"; "m3.json"; "m4.json"; "m5.json";
   "m6.json"; "m7.json"; "m8.json"; "m9.json"; "m10.json"].

Section ListingConditions.
Context `{Runtime}.

(** What a decoded [index.json] offers as listing: the document itself
    when it is an array, the member [maps] of an object. *)
Inductive Offers : JsVal -> JsVal -> Prop :=
| offers_array (items : list JsVal) : Offers (JArr items) (JArr items)
| offers_maps (fields : list (string * JsVal)) :
    Offers (JObj fields) (getProp (JObj fields) "maps").

(** A listing with something in it: a non-empty array, and what else has a
    positive [length], a non-empty text or an object whose [length] converts
    to a positive number. *)
Inductive NonEmptyListing : JsVal -> Prop :=
| nonempty_array (first : JsVal) (rest : list JsVal) :
    NonEmptyListing (JArr (first :: rest))
| nonempty_text (c : ascii) (s : string) : NonEmptyListing (JStr (String c s))
| nonempty_object (fields : list (string * JsVal)) :
    hasPrimitive (getProp (JObj fields) "length") = true ->
    PrimFloat.ltb 0 (ToNumber (getProp (JObj fields) "length")) = true ->
    NonEmptyListing (JObj fields).

(** The outcomes of the listing fetch that count as a failure: the timeout
    and any other rejection of [fetch], a response that is not ok, a body
    that does not decode, and a decoded body that offers no listing with
    something in it: a value that is neither array nor object, the empty
    array, an object without [maps] or with an empty one. *)
Inductive ListingFailure : FetchOutcome -> Prop :=
| listing_timeout : ListingFailure (Rejected AbortError)
| listing_rejected (e : JsError) : ListingFailure (Rejected e)
| listing_http (status : nat) (statusText : string) (body : Body) :
    ListingFailure (Response false status statusText body)
| listing_malformed (status : nat) (statusText : string) (e : JsError) :
    ListingFailure (Response true status statusText (BodyRejected e))
| listing_absent (status : nat) (statusText : string) (index : JsVal) :
    (forall listing, Offers index listing -> ~ NonEmptyListing listing) ->
    ListingFailure (Response true status statusText (BodyJson index)).

End ListingConditions.



(** The part of a path after its last slash. *)
Fixpoint fileName (path : string) : string :=
  match path with
  | EmptyString => EmptyString
  | String _ rest => if includes "/" path then fileName rest else path
  end.

(** The match the specification describes: the term equals, letter case
    apart, the entry, or the entry's file name, or that file name less a
    trailing [.json]. *)
Definition SpecMatch (term entry : string) : Prop :=
  toLowerCase term = toLowerCase entry
  \/ toLowerCase term = toLowerCase (fileName entry)
  \/ toLowerCase term ++ ".json" = toLowerCase (fileName entry).

(** The match [findMapByName] makes, letter case apart: the entry is the
    term or the term with [.json], or ends with a slash and one of the two. *)
Definition Matches (term entry : string) : Prop :=
  toLowerCase entry = toLowerCase term
  \/ toLowerCase entry = toLowerCase term ++ ".json"
  \/ EndsWith ("/" ++ toLowerCase term) (toLowerCase entry)
  \/ EndsWith ("/" ++ toLowerCase term ++ ".json") (toLowerCase entry).

(** A store whose list of known maps is [maps]. *)
Definition storeWithMaps (maps : list string) : Store :=
  setAvailableMaps (JArr (map JStr maps)) initialStore.

Definition twoCities : list string := ["a/city.json"; "b/city.json"].

Definition knownMaps : list string := ["SillyTavern.json"; "maps/city.json"].

(** The six-digit form of a three-digit colour: each digit doubled. *)
Definition doubleDigits (hex : string) : string :=
  match hex with
  | String h (String a (String b (String c EmptyString))) =>
      String h (String a (String a (String b (String b (String c (String c EmptyString))))))
  | _ => hex
  end.

(** The world after [playMapSound("rain")] in a fresh page. *)
Definition rainPlaying : World := playMapSound (JStr "rain") initialWorld.


(** ** Further functions of the module *)

(** [resolveAssetPath]: the path is checked first, so [startsWith] is only
    reached on a string. *)
Definition resolveAssetPath (filePath : JsVal) : Completion string :=
  _ <- validateAssetPath filePath ;;
  match filePath with
  | JStr s =>
      if startsWith "scripts/" s then Return s
      else Return (extensionFolderPath ++ "/" ++ s)
  | _ => Throw (TypeError "filePath.startsWith is not a function")
  end.

(** [s.slice(0, -n)] *)
Definition sliceOffEnd (n : nat) (s : string) : string :=
  substring 0 (String.length s - n) s.

(** [getMapLabel]: [mapPath.split('/').pop()] is the part after the last
    slash. *)
Definition getMapLabel (mapPath : string) : string :=
  if String.eqb mapPath "" then "Unknown"
  else
    let filename := if includes "/" mapPath then fileName mapPath else mapPath in
    if endsWith ".json" (toLowerCase filename) then sliceOffEnd 5 filename
    else filename.

(** [s || null] for a string [s] *)
Definition orNull (s : string) : option string :=
  if String.eqb s "" then None else Some s.

Section Arguments.
Context `{Runtime}.

(** [Array.prototype.join]: [undefined] and [null] elements give the empty
    string. *)
Definition join (separator : string) (items : list JsVal) : string :=
  String.concat separator
    (map (fun x => match x with
                   | JUndefined | JNull => ""
                   | _ => ToString x
                   end) items).

(** [normalizeMapInput]; [None] is [null]. *)
Definition normalizeMapInput (input : JsVal) : option string :=
  if truthy input && String.eqb (typeof input) "object"
     && ((match getProp input "type" with
          | JStr t => String.eqb t "click"
          | _ => false
          end)
         || truthy (getProp input "originalEvent"))
  then None
  else
    match input with
    | JArr items => orNull (trim (join " " items))
    | JStr s => orNull (trim s)
    | _ => None
    end.


End Arguments.

(** The media part of the map window's close handler:
    [stopCurrentMapAudio(); stopCurrentMapImage(); stopCurrentMapVideo?.()]. *)
Definition stopAllMedia (w : World) : World :=
  stopCurrentMapVideo (stopCurrentMapImage (stopCurrentMapAudio w)).

(** The same three calls in a page whose body may be missing: they sit in
    the handler's [try] block, so a call that throws ends the block and the
    calls after it are not made. *)
Definition stopAllMediaIn (body : bool) (w : World) : Completion World :=
  w <- stopCurrentMapAudioIn body w ;;
  w <- stopCurrentMapImageIn body w ;;
  stopCurrentMapVideoIn body w.

(** *** Conditions used in the statements below *)

(** A colour as the data model describes it: [#] and three or six
    hexadecimal digits. *)
Definition HexDigit (c : ascii) : Prop :=
  Between "0" "9" c \/ Between "A" "F" c \/ Between "a" "f" c.

Definition HexColor (s : string) : Prop :=
  exists digits,
    s = String "#" digits
    /\ (String.length digits = 3 \/ String.length digits = 6)
    /\ (forall c, In c (list_ascii_of_string digits) -> HexDigit c).

Section DocumentConditions.
Context `{Runtime}.

(** A document that passes every check of [validateMapData]: an object
    whose background has a string [file] and valid dimensions, and whose
    [shapes] is a non-empty array of complete shapes. *)
Definition documentComplete (data : JsVal) : bool :=
  truthy data && String.eqb (typeof data) "object"
  && truthy (getProp data "backgroundImage")
  && String.eqb (typeof (getProp (getProp data "backgroundImage") "file")) "string"
  && dimensionsValid (getProp data "backgroundImage")
  && match getProp data "shapes" with
     | JArr (shape :: rest) => forallb shapeComplete (shape :: rest)
     | _ => false
     end.

End DocumentConditions.

(** Every character of a string is white space. *)
Fixpoint allWhiteSpace (s : string) : bool :=
  match s with
  | EmptyString => true
  | String c rest => isWhiteSpace c && allWhiteSpace rest
  end.

(** A world in which a node inside the map window's container is inside
    [document.body], as it is while the window is part of the page. *)
Definition windowInBody (w : World) : bool :=
  (match mapImageElement w with
   | Some img => implb (imgInWindow img) (imgInBody img)
   | None => true
   end)
  && (match mapImageCloseButton w with
      | Some b => implb (btnInWindow b) (btnInBody b)
      | None => true
      end)
  && (match mapVideoElement w with
      | Some video => implb (vidInWindow video) (vidInBody video)
      | None => true
      end)
  && (match mapVideoCloseButton w with
      | Some b => implb (btnInWindow b) (btnInBody b)
      | None => true
      end).

(** An element in the module's variable comes with its close button, as
    the getters create them together. *)
Definition controlsPresent (w : World) : bool :=
  implb (isSome (mapImageElement w)) (isSome (mapImageCloseButton w))
  && implb (isSome (mapVideoElement w)) (isSome (mapVideoCloseButton w)).

Definition overlaysCoherent (w : World) : bool :=
  windowInBody w && controlsPresent w.

(** A fresh page in which the map window has been opened. *)
Definition windowOpened : World :=
  {| mapAudioElement := None; mapImageElement := None; mapImageCloseButton := None;
     mapVideoElement := None; mapVideoCloseButton := None;
     mapWindowOpen := true; playbackAllowed := true;
     resizeListenerInstalled := false; notifications := [] |}.

(** ** The interactive surface

    [#svg-container] and what the module puts into it: the background image
    and one path per shape. A path carries its attributes, its inline
    [style.fill], its [dataset], the three handler references stored on it
    and the listeners attached to it. [removedPaths] lists the path nodes
    [clearMap] has taken out of the container, as it left them.
    [extensionState.currentMapElement] is kept here with the surface it
    points to. The global [parseInt] is a function of the runtime. *)

Class Parser : Type := { parseInt : JsVal -> float }.

(** A runtime for the surface examples: it renders the numbers of
    [docCity] and the hover opacity, and converts no string. *)
Definition pageRuntime : Runtime :=
  {| StringToNumber := fun _ => PrimFloat.nan;
     NumberToString := fun f =>
       if PrimFloat.eqb f 0x1.3333333333333p-2 then "0.3"
       else if PrimFloat.eqb f 800 then "800"
       else if PrimFloat.eqb f 600 then "600"
       else "NaN" |}.

(** A parser for the examples: exact on the whole numbers they use. *)
Definition exampleParser : Parser :=
  {| parseInt := fun v => match v with JNum f => f | _ => PrimFloat.nan end |}.

Record PathNode : Type := {
  pathD : string;
  pathId : string;
  pathFill : string;
  pathClass : string;
  pathStyleFill : option string;
  pathScript : string;
  pathOriginalColor : string;
  pathTitle : option string;
  boundClick : bool;
  boundMouseOver : bool;
  boundMouseOut : bool;
  listensClick : bool;
  listensMouseOver : bool;
  listensMouseOut : bool
}.

Record ImageNode : Type := {
  imageHref : string;
  imageWidth : string;
  imageHeight : string
}.

Record Surface : Type := {
  svgContainer : bool;
  viewBox : option string;
  backgroundNode : option ImageNode;
  pathNodes : list PathNode;
  removedPaths : list PathNode;
  currentMapElement : bool;
  surfaceReports : list string
}.

Definition emptySurface : Surface :=
  {| svgContainer := true; viewBox := None; backgroundNode := None; pathNodes := [];
     removedPaths := []; currentMapElement := false; surfaceReports := [] |}.

Definition setMapLoaded (loaded : bool) (st : Store) : Store :=
  {| mapCache := mapCache st;
     extensionState :=
       {| currentLoadedMap := currentLoadedMap (extensionState st);
          availableMaps := availableMaps (extensionState st);
          isMapLoaded := loaded;
          lastError := lastError (extensionState st) |} |}.

(** The fill a path is drawn with: the inline style wins over the
    attribute. *)
Definition renderedFill (node : PathNode) : string :=
  match pathStyleFill node with
  | Some fill => fill
  | None => pathFill node
  end.

Definition setStyleFill (fill : string) (node : PathNode) : PathNode :=
  {| pathD := pathD node; pathId := pathId node; pathFill := pathFill node;
     pathClass := pathClass node; pathStyleFill := Some fill;
     pathScript := pathScript node; pathOriginalColor := pathOriginalColor node;
     pathTitle := pathTitle node;
     boundClick := boundClick node; boundMouseOver := boundMouseOver node;
     boundMouseOut := boundMouseOut node;
     listensClick := listensClick node; listensMouseOver := listensMouseOver node;
     listensMouseOut := listensMouseOut node |}.

(** [handleMouseOut] on the path it is bound to. *)
Definition handleMouseOut (node : PathNode) : PathNode := setStyleFill "transparent" node.

(** The callback of [paths.forEach] in [clearMap]: each listener whose
    reference is stored on the path is removed, then the references are
    deleted. *)
Definition releaseHandlers (node : PathNode) : PathNode :=
  {| pathD := pathD node; pathId := pathId node; pathFill := pathFill node;
     pathClass := pathClass node; pathStyleFill := pathStyleFill node;
     pathScript := pathScript node; pathOriginalColor := pathOriginalColor node;
     pathTitle := pathTitle node;
     boundClick := false; boundMouseOver := false; boundMouseOut := false;
     listensClick := if boundClick node then false else listensClick node;
     listensMouseOver := if boundMouseOver node then false else listensMouseOver node;
     listensMouseOut := if boundMouseOut node then false else listensMouseOut node |}.

Definition clearMap (state : Store * Surface) : Store * Surface :=
  let '(st, surface) := state in
  let surface :=
    if svgContainer surface then
      {| svgContainer := true; viewBox := viewBox surface; backgroundNode := None;
         pathNodes := [];
         removedPaths := (removedPaths surface
                          ++ map releaseHandlers (pathNodes surface))%list;
         currentMapElement := false; surfaceReports := surfaceReports surface |}
    else
      {| svgContainer := false; viewBox := viewBox surface;
         backgroundNode := backgroundNode surface; pathNodes := pathNodes surface;
         removedPaths := removedPaths surface;
         currentMapElement := false; surfaceReports := surfaceReports surface |} in
  (setMapLoaded false st, surface).

Definition reportSurface (msg : string) (surface : Surface) : Surface :=
  {| svgContainer := svgContainer surface; viewBox := viewBox surface;
     backgroundNode := backgroundNode surface; pathNodes := pathNodes surface;
     removedPaths := removedPaths surface;
     currentMapElement := currentMapElement surface;
     surfaceReports := push (surfaceReports surface) msg |}.

Section SurfaceFunctions.
Context `{Runtime} `{Parser}.

(** [handleMouseOver] on the path it is bound to. *)
Definition hoverIn (cfg : MapSettings) (node : PathNode) : PathNode :=
  setStyleFill (handleMouseOver cfg (pathOriginalColor node)) node.

(** [setAttribute], the assignments to [dataset] and [textContent] take
    text: each converts the value it is given, and throws when that has no
    primitive value. Reading a field of a shape that is [null] throws. *)
Definition createInteractivePath (enableTooltips : bool) (shape : JsVal)
  : Completion PathNode :=
  path <- readProp shape "path" ;;
  d <- ToStringOrThrow path ;;
  idValue <- readProp shape "id" ;;
  id <- ToStringOrThrow idValue ;;
  scriptValue <- readProp shape "script" ;;
  script <- ToStringOrThrow scriptValue ;;
  color <- readProp shape "color" ;;
  originalColor <- ToStringOrThrow color ;;
  tooltip <- readProp shape "tooltip" ;;
  title <- (if enableTooltips && truthy tooltip
            then text <- ToStringOrThrow tooltip ;; Return (Some text)
            else Return None) ;;
  Return
    {| pathD := d;
       pathId := id;
       pathFill := "transparent";
       pathClass := "svg-path";
       pathStyleFill := None;
       pathScript := script;
       pathOriginalColor := originalColor;
       pathTitle := title;
       boundClick := true; boundMouseOver := true; boundMouseOut := true;
       listensClick := true; listensMouseOver := true; listensMouseOut := true |}.

(** [svgData.shapes.forEach(shape => fragment.appendChild(...))] *)
Fixpoint createPaths (enableTooltips : bool) (shapes : list JsVal)
  : Completion (list PathNode) :=
  match shapes with
  | [] => Return []
  | shape :: rest =>
      node <- createInteractivePath enableTooltips shape ;;
      nodes <- createPaths enableTooltips rest ;;
      Return (node :: nodes)
  end.

(** The background image element of [initMap], up to [appendChild]. *)
Definition backgroundImageOf (svgData : JsVal) : Completion ImageNode :=
  bg <- readProp svgData "backgroundImage" ;;
  file <- readProp bg "file" ;;
  imagePath <- resolveAssetPath file ;;
  width <- ToStringOrThrow (getProp bg "width") ;;
  height <- ToStringOrThrow (getProp bg "height") ;;
  Return {| imageHref := imagePath; imageWidth := width; imageHeight := height |}.

(** The [viewBox] [initMap] sets, if any. [parseInt] is reached once
    [setAttribute] has converted the same two values. *)
Definition viewBoxOf (svgData : JsVal) : option string :=
  let bg := getProp svgData "backgroundImage" in
  let width := parseInt (getProp bg "width") in
  let height := parseInt (getProp bg "height") in
  if negb (PrimFloat.is_nan width) && negb (PrimFloat.is_nan height)
     && PrimFloat.ltb 0 width && PrimFloat.ltb 0 height
  then Some ("0 0 " ++ NumberToString width ++ " " ++ NumberToString height)
  else None.

Definition initMap (enableTooltips : bool) (svgData : JsVal)
    (state : Store * Surface) : Store * Surface :=
  let '(st, surface) := state in
  if negb (svgContainer surface)
  then (st, reportSurface "Map container not found" surface)
  else
    let '(st, surface) := clearMap (st, surface) in
    let failed (surface : Surface) :=
      (setMapLoaded false st, reportSurface "Map initialization error" surface) in
    match backgroundImageOf svgData with
    | Throw _ => failed surface
    | Return image =>
        let surface :=
          {| svgContainer := true;
             viewBox := match viewBoxOf svgData with
                        | Some box => Some box
                        | None => viewBox surface
                        end;
             backgroundNode := Some image; pathNodes := [];
             removedPaths := removedPaths surface;
             currentMapElement := currentMapElement surface;
             surfaceReports := surfaceReports surface |} in
        match (match getProp svgData "shapes" with
               | JArr shapes => createPaths enableTooltips shapes
               | _ => Throw (TypeError "svgData.shapes.forEach is not a function")
               end) with
        | Throw _ => failed surface
        | Return nodes =>
            (setMapLoaded true st,
             {| svgContainer := true; viewBox := viewBox surface;
                backgroundNode := backgroundNode surface; pathNodes := nodes;
                removedPaths := removedPaths surface;
                currentMapElement := true;
                surfaceReports := surfaceReports surface |})
        end
    end.

End SurfaceFunctions.

(** A shape [createInteractivePath] can draw: its fields can be read, and
    each value written into the path has a primitive value. *)
Definition shapeDrawable (enableTooltips : bool) (shape : JsVal) : bool :=
  match shape with
  | JUndefined | JNull => false
  | _ =>
      hasPrimitive (getProp shape "path") && hasPrimitive (getProp shape "id")
      && hasPrimitive (getProp shape "script") && hasPrimitive (getProp shape "color")
      && (negb (enableTooltips && truthy (getProp shape "tooltip"))
          || hasPrimitive (getProp shape "tooltip"))
  end.

(** A shape whose [id] is an object with a property [toString]. *)
Definition shapeWithObjectId : JsVal :=
  JObj [("id", JObj [("toString", JNum 1%float)]); ("path", JStr "M0 0 L9 9 Z");
        ("color", JStr "#F00"); ("script", JStr "/echo harbor")].

(** No listener is left on the path. *)
Definition silent (node : PathNode) : bool :=
  negb (listensClick node) && negb (listensMouseOver node)
  && negb (listensMouseOut node).

(** Every listener on the path has its reference stored on the path. *)
Definition tracked (node : PathNode) : bool :=
  implb (listensClick node) (boundClick node)
  && implb (listensMouseOver node) (boundMouseOver node)
  && implb (listensMouseOut node) (boundMouseOut node).

(** The surfaces the module builds: a fresh one, and what [initMap] and
    [clearMap] make of one. *)
Inductive Rendered `{Runtime} `{Parser} : Store * Surface -> Prop :=
| rendered_fresh (st : Store) : Rendered (st, emptySurface)
| rendered_init (enableTooltips : bool) (svgData : JsVal) (state : Store * Surface) :
    Rendered state -> Rendered (initMap enableTooltips svgData state)
| rendered_clear (state : Store * Surface) :
    Rendered state -> Rendered (clearMap state).

(** * Properties *)

(** ** The functions on small inputs *)

Example trim_spaces : trim "  maps/city  " = "maps/city".
Proof. reflexivity. Qed.

Example toLowerCase_mixed : toLowerCase "Maps/City.JSON" = "maps/city.json".
Proof. reflexivity. Qed.

Example validateAssetPath_relative :
  validateAssetPath (JStr "maps/city.json") = Return true.
Proof. reflexivity. Qed.

Example validateAssetPath_traversal :
  validateAssetPath (JStr "../secret.json")
  = Throw (Error "Invalid file path: ../secret.json").
Proof. reflexivity. Qed.

Example validateAssetPath_drive :
  validateAssetPath (JStr "C:/maps/city.json")
  = Throw (Error "Absolute paths forbidden: C:/maps/city.json").
Proof. reflexivity. Qed.

Example validateAssetPath_number :
  validateAssetPath (JNum 5%float) = Throw (Error "Path must be a string").
Proof. reflexivity. Qed.

Example mediaPath_sound :
  mediaPath "sounds/" audioExtensions ".mp3" " Rain " = "sounds/Rain.mp3".
Proof. reflexivity. Qed.

Example mediaPath_keeps_extension :
  mediaPath "movies/" videoExtensions ".mp4" "Movies/intro.WEBM" = "Movies/intro.WEBM".
Proof. reflexivity. Qed.

Example parseInt16_ff : parseInt16 "ff" = Some 255%Z.
Proof. reflexivity. Qed.

Example parseInt16_no_digit : parseInt16 "zz" = None.
Proof. reflexivity. Qed.

Example validateMapData_docCity :
  @validateMapData exampleRuntime docCity = {| valid := true; errors := [] |}.
Proof. vm_compute. reflexivity. Qed.

Example loadMapData_timeout :
  fst (@loadMapData exampleRuntime mapSettings (fun _ => Rejected AbortError)
         (JStr "city.json") initialStore)
  = Throw (Error "Timeout loading map: city.json").
Proof. vm_compute. reflexivity. Qed.

Example loadMapData_not_found :
  fst (@loadMapData exampleRuntime mapSettings
         (fun _ => Response false 404 "Not Found" (BodyRejected (Error "")))
         (JStr "nonexistent.json") initialStore)
  = Throw (Error "HTTP 404: Not Found").
Proof. vm_compute. reflexivity. Qed.

Example discoverAvailableMaps_timeout :
  fst (@discoverAvailableMaps exampleRuntime mapSettings (fun _ => Rejected AbortError)
         initialStore)
  = Return (JArr [JStr "SillyTavern.json"]).
Proof. vm_compute. reflexivity. Qed.

Example discoverAvailableMaps_listing :
  fst (@discoverAvailableMaps exampleRuntime mapSettings
         (fun _ => Response true 200 "OK"
                     (BodyJson (JObj [("maps", JArr [JStr "maps/city.json"])])))
         initialStore)
  = Return (JArr [JStr "maps/city.json"]).
Proof. vm_compute. reflexivity. Qed.

Example discoverAvailableMaps_empty_maps :
  fst (@discoverAvailableMaps exampleRuntime mapSettings
         (fun _ => Response true 200 "OK" (BodyJson (JObj [("maps", JArr [])])))
         initialStore)
  = Return (JArr [JStr "SillyTavern.json"]).
Proof. vm_compute. reflexivity. Qed.

(** The conversion of [length] throws, and the [catch] block answers. *)
Example discoverAvailableMaps_length_throws :
  fst (@discoverAvailableMaps exampleRuntime mapSettings
         (fun _ => Response true 200 "OK"
                     (BodyJson (JObj [("maps",
                                       JObj [("length",
                                              JObj [("toString", JNum 1%float)])])])))
         initialStore)
  = Return (JArr [JStr "SillyTavern.json"]).
Proof. vm_compute. reflexivity. Qed.

Example ListingFailure_empty_maps :
  @ListingFailure exampleRuntime
    (Response true 200 "OK" (BodyJson (JObj [("maps", JArr [])]))).
Proof.
  apply listing_absent. intros listing Hoffers Hlisting.
  inversion Hoffers; subst. inversion Hlisting.
Qed.

Example stopCurrentMapAudio_with_body :
  stopIn true Audio rainPlaying = Return (stop Audio rainPlaying)
  /\ option_map audioPaused (mapAudioElement (stop Audio rainPlaying)) = Some true.
Proof. split; reflexivity. Qed.

Example showMapImage_without_window :
  notifications (showMapImage (JStr "portrait") initialWorld) = ["Map window not open"].
Proof. reflexivity. Qed.

Example playMapSound_traversal :
  notifications (playMapSound (JStr "../x") initialWorld)
  = ["Audio error: Invalid file path: sounds/../x.mp3"].
Proof. reflexivity. Qed.

(** ** Strings *)

Lemma startsWith_iff (pat s : string) : startsWith pat s = true <-> StartsWith pat s.
Proof.
  unfold startsWith, StartsWith. revert s.
  induction pat as [|c pat IH]; intros s; simpl.
  - split; [intros _; now exists s | intros _; now destruct s].
  - destruct s as [|d s]; simpl.
    + split; [discriminate | intros [r Hr]; discriminate].
    + destruct (ascii_dec c d) as [->|Hne].
      * rewrite IH. split; intros [r Hr]; exists r; congruence.
      * split; [discriminate | intros [r Hr]; congruence].
Qed.

Lemma includes_iff (pat s : string) : includes pat s = true <-> Contains pat s.
Proof.
  unfold Contains.
  induction s as [|d s IH]; cbn [includes]; rewrite orb_true_iff, startsWith_iff.
  - split.
    + intros [[r Hr]|Hf]; [|discriminate]. exists "", r. exact Hr.
    + intros (a & b & Hab). left.
      destruct a; simpl in Hab; [now exists b|discriminate].
  - rewrite IH. split.
    + intros [[r Hr]|(a & b & Hab)].
      * exists "", r. exact Hr.
      * exists (String d a), b. simpl. now rewrite Hab.
    + intros (a & b & Hab). destruct a as [|e a]; simpl in Hab.
      * left. now exists b.
      * right. exists a, b. congruence.
Qed.

Lemma endsWith_iff (suf s : string) : endsWith suf s = true <-> EndsWith suf s.
Proof.
  unfold EndsWith.
  induction s as [|d s IH]; cbn [endsWith]; rewrite orb_true_iff, String.eqb_eq.
  - split.
    + intros [<-|Hf]; [now exists ""|discriminate].
    + intros [front Hf]. left.
      destruct front; simpl in Hf; [exact Hf|discriminate].
  - rewrite IH. split.
    + intros [<-|[front Hf]]; [now exists ""|].
      exists (String d front). simpl. now rewrite Hf.
    + intros [front Hf]. destruct front as [|e front]; simpl in Hf.
      * now left.
      * right. exists front. congruence.
Qed.

Lemma isLetter_iff (c : ascii) :
  isLetter c = true <-> (Between "A" "Z" c \/ Between "a" "z" c).
Proof.
  unfold isLetter, isLowerAZ, isUpperAZ, Between.
  change (nat_of_ascii "A") with 65. change (nat_of_ascii "Z") with 90.
  change (nat_of_ascii "a") with 97. change (nat_of_ascii "z") with 122.
  rewrite orb_true_iff, !andb_true_iff, !Nat.leb_le. tauto.
Qed.

Lemma isDrivePath_iff (s : string) : isDrivePath s = true <-> DriveLetterPrefix s.
Proof.
  unfold DriveLetterPrefix.
  destruct s as [|c [|d rest]]; simpl.
  - split; [discriminate | intros (c & r & Hs & _); discriminate].
  - split; [discriminate | intros (c' & r & Hs & _); discriminate].
  - destruct (ascii_dec d ":") as [->|Hne].
    + rewrite isLetter_iff. split.
      * intros Hc. now exists c, rest.
      * intros (c' & r & Hs & Hc). now inversion Hs; subst.
    + split.
      * intros Hc. exfalso.
        destruct d as [[] [] [] [] [] [] [] []]; try discriminate. now apply Hne.
      * intros (c' & r & Hs & _). inversion Hs; subst. now contradiction Hne.
Qed.

(** ** Path validation *)

Lemma validateAssetPath_cases (p : JsVal) :
  validateAssetPath p = Return true \/ throws (validateAssetPath p).
Proof.
  unfold validateAssetPath, throws. destruct p; eauto.
  repeat match goal with |- context [if ?b then _ else _] => destruct b end; eauto.
Qed.

Lemma isThrow_iff {A} (c : Completion A) : isThrow c = true <-> throws c.
Proof.
  unfold throws. destruct c; simpl; split; try discriminate; eauto.
  intros [e' He]. discriminate.
Qed.

Lemma validateAssetPath_string (s : string) :
  isThrow (validateAssetPath (JStr s)) =
  String.eqb s "" || includes ".." s || startsWith "/" s || startsWith backslash s
  || includes (backslash ++ backslash) s || isDrivePath s.
Proof.
  unfold validateAssetPath, truthy.
  destruct (String.eqb s ""), (includes ".." s), (startsWith "/" s),
    (startsWith backslash s), (includes (backslash ++ backslash) s),
    (isDrivePath s); reflexivity.
Qed.

Lemma validateAssetPath_throws_iff (p : JsVal) :
  throws (validateAssetPath p) <-> RefusedPath p.
Proof.
  rewrite <- isThrow_iff.
  destruct p as [| | b | f | s | l | l];
    try (split; [intros _; exact I | reflexivity]).
  rewrite validateAssetPath_string. unfold RefusedPath.
  rewrite !orb_true_iff, String.eqb_eq, !includes_iff, !startsWith_iff,
    isDrivePath_iff.
  tauto.
Qed.

(** C1. [validateAssetPath(p)] throws exactly when [p] is not a string, is
    empty, contains [..], starts with [/] or with a backslash, contains a
    doubled backslash or starts with a drive letter and a colon; on every
    other input it returns [true]. *)
Theorem validateAssetPath_refuses_exactly (p : JsVal) :
  (throws (validateAssetPath p) <-> RefusedPath p)
  /\ (validateAssetPath p = Return true <-> ~ RefusedPath p).
Proof.
  split; [apply validateAssetPath_throws_iff|].
  rewrite <- validateAssetPath_throws_iff.
  destruct (validateAssetPath_cases p) as [Hok|[e He]].
  - rewrite Hok. split; [intros _ [e He]; discriminate | reflexivity].
  - rewrite He. split; [discriminate | intros Hn; exfalso; apply Hn; now exists e].
Qed.

(** ** Document validation *)

Section Validation.
Context `{Runtime}.

Lemma validateShape_complete (shape : JsVal) (i : nat) (errs : list string) :
  shapeComplete shape = true -> validateShape shape i errs = errs.
Proof.
  unfold shapeComplete, isNonEmptyString, validateShape.
  rewrite !andb_true_iff.
  intros [[[[[[Ht Ho] Hid] [Hp Hps]] [Hs Hss]] Hc] Hv].
  now rewrite Ht, Ho, Hid, Hp, Hps, Hs, Hss, Hc, Hv.
Qed.

Lemma validateShape_missing_color (shape : JsVal) (i : nat) (errs : list string) :
  missingOnlyColor shape = true ->
  validateShape shape i errs =
  push (push errs (shapePrefix i ++ ": missing required fields (id, path, color, script)"))
       (shapePrefix i ++ ".color: invalid color " ++ dquote ++ "undefined" ++ dquote).
Proof.
  unfold missingOnlyColor, isNonEmptyString, validateShape.
  rewrite !andb_true_iff.
  intros [[[[[Ht Ho] Hid] [Hp Hps]] [Hs Hss]] Hc].
  destruct (getProp shape "color") eqn:Ec; try discriminate.
  rewrite Ht, Ho, Hid, Hp, Hps, Hs, Hss. cbn [negb orb truthy].
  reflexivity.
Qed.

Lemma validateShapesFrom_app (a b : list JsVal) (i : nat) (errs : list string) :
  validateShapesFrom (a ++ b) i errs =
  validateShapesFrom b (i + List.length a) (validateShapesFrom a i errs).
Proof.
  revert i errs. induction a as [|x a IH]; intros i errs; simpl.
  - now rewrite Nat.add_0_r.
  - rewrite IH. f_equal. lia.
Qed.

Lemma validateShapesFrom_complete (shapes : list JsVal) (i : nat) (errs : list string) :
  forallb shapeComplete shapes = true -> validateShapesFrom shapes i errs = errs.
Proof.
  revert i errs. induction shapes as [|x l IH]; intros i errs; simpl; [reflexivity|].
  rewrite andb_true_iff. intros [Hx Hl].
  now rewrite validateShape_complete, IH.
Qed.

(** C4, as amended. A document that lacks [backgroundImage.file], has valid
    dimensions, and whose shapes are complete except for one, at index
    [length before], that lacks only [color], is invalid with exactly three
    errors, in this order: the one naming [backgroundImage.file], the
    missing-fields error of that shape, and the invalid-color error of that
    shape, both carrying its index. *)
Theorem validateMapData_missing_file_and_color
    (data shape : JsVal) (before after : list JsVal) :
  let bg := getProp data "backgroundImage" in
  truthy bg = true ->
  getProp bg "file" = JUndefined ->
  dimensionsValid bg = true ->
  getProp data "shapes" = JArr (before ++ shape :: after) ->
  forallb shapeComplete before = true ->
  forallb shapeComplete after = true ->
  missingOnlyColor shape = true ->
  validateMapData data =
  {| valid := false;
     errors :=
       [ "backgroundImage.file: required and must be a string";
         shapePrefix (List.length before)
           ++ ": missing required fields (id, path, color, script)";
         shapePrefix (List.length before)
           ++ ".color: invalid color " ++ dquote ++ "undefined" ++ dquote ] |}.
Proof.
  intros bg Hbg Hfile Hdim Hshapes Hbefore Hafter Hshape.
  destruct data as [| | b | f | s | l | fields]; try discriminate Hshapes.
  unfold validateMapData. cbn [truthy typeof negb orb String.eqb].
  fold bg. rewrite Hbg, Hfile, Hshapes.
  unfold dimensionsValid in Hdim. rewrite !andb_true_iff, !negb_true_iff in Hdim.
  destruct Hdim as [[[Hw Hh] Hw0] Hh0].
  rewrite Hw, Hh, Hw0, Hh0.
  cbn [negb orb typeof String.eqb Ascii.eqb Bool.eqb andb].
  assert (Hrun : forall errs,
    validateShapesFrom (before ++ shape :: after) 0 errs =
    push (push errs (shapePrefix (List.length before)
                       ++ ": missing required fields (id, path, color, script)"))
         (shapePrefix (List.length before)
            ++ ".color: invalid color " ++ dquote ++ "undefined" ++ dquote)).
  { intros errs. rewrite validateShapesFrom_app. cbn [validateShapesFrom].
    rewrite (validateShapesFrom_complete before) by assumption.
    rewrite validateShape_missing_color by assumption.
    now rewrite validateShapesFrom_complete by assumption. }
  destruct (before ++ shape :: after)%list as [|x rest] eqn:E.
  - now destruct before.
  - rewrite Hrun. reflexivity.
Qed.

End Validation.

(** C4: the document [docMissingFileAndColor] meets the conditions of the
    claim and gets three errors, not two. *)
Lemma validateMapData_three_errors :
  getProp (getProp docMissingFileAndColor "backgroundImage") "file" = JUndefined
  /\ @dimensionsValid exampleRuntime (getProp docMissingFileAndColor "backgroundImage") = true
  /\ (exists shape, getProp docMissingFileAndColor "shapes" = JArr [shape]
                    /\ missingOnlyColor shape = true)
  /\ List.length (errors (@validateMapData exampleRuntime docMissingFileAndColor)) = 3
  /\ List.length (errors (@validateMapData exampleRuntime docMissingFileAndColor)) <> 2.
Proof.
  split; [reflexivity|]. split; [vm_compute; reflexivity|].
  split; [eexists; split; [reflexivity | vm_compute; reflexivity]|].
  split; [vm_compute; reflexivity | vm_compute; discriminate].
Qed.

Lemma validateMapData_missing_file_and_color_witness :
  @validateMapData exampleRuntime docMissingFileAndColor =
  {| valid := false;
     errors :=
       [ "backgroundImage.file: required and must be a string";
         "Shape[0]: missing required fields (id, path, color, script)";
         "Shape[0].color: invalid color " ++ dquote ++ "undefined" ++ dquote ] |}.
Proof.
  apply (@validateMapData_missing_file_and_color exampleRuntime
           docMissingFileAndColor
           (JObj [("id", JStr "zone"); ("path", JStr "M0 0 L9 9 Z");
                  ("script", JStr "/echo hello")]) [] []);
    vm_compute; reflexivity.
Defined.

(** ** The document cache *)

(** Listing discovery leaves the cache alone. *)
Lemma discoverAvailableMaps_cache `{Runtime} (cfg : MapSettings) (fetch : Network)
    (st : Store) :
  mapCache (snd (discoverAvailableMaps cfg fetch st)) = mapCache st.
Proof.
  unfold discoverAvailableMaps.
  match goal with |- context [match ?c with Return _ => _ | Throw _ => _ end] =>
    destruct c end; reflexivity.
Qed.

Section Loader.
Context `{Runtime}.
Variable cfg : MapSettings.

Lemma cacheGet_In (key : string) (c : MapCache) (data : JsVal) :
  cacheGet key c = Some data -> In (key, data) c.
Proof.
  unfold cacheGet. destruct (find _ c) as [[k v]|] eqn:E; [|discriminate].
  intros [= <-]. apply find_some in E. destruct E as [Hin Hk].
  simpl in Hk. apply String.eqb_eq in Hk. now subst.
Qed.

Lemma cacheValidated_delete (key : string) (c : MapCache) :
  cacheValidated c -> cacheValidated (cacheDelete key c).
Proof.
  unfold cacheValidated, cacheDelete. rewrite !Forall_forall.
  intros Hc kv Hin. apply filter_In in Hin. now apply Hc.
Qed.

Lemma cacheValidated_set (key : string) (data : JsVal) (c : MapCache) :
  valid (validateMapData data) = true ->
  cacheValidated c -> cacheValidated (cacheSet key data c).
Proof.
  unfold cacheValidated. intros Hd Hc.
  induction c as [|[k v] c IH]; simpl.
  - now constructor.
  - inversion Hc; subst. destruct (String.eqb k key); constructor; auto.
Qed.

Lemma cacheValidated_insert (key : string) (data : JsVal) (c : MapCache) :
  valid (validateMapData data) = true ->
  cacheValidated c -> cacheValidated (cacheInsert cfg key data c).
Proof.
  intros Hd Hc. unfold cacheInsert. apply cacheValidated_set; [exact Hd|].
  destruct (maxMapCache cfg <=? List.length c)%nat; [|exact Hc].
  destruct (firstKey c); [now apply cacheValidated_delete | exact Hc].
Qed.

(** [fetchValidated] returns a document exactly when the path is accepted,
    the response is fine, its body decodes and the document validates. *)
Lemma fetchValidated_Return (fetch : Network) (mapName data : JsVal) :
  fetchValidated fetch mapName = Return data <->
  validateAssetPath mapName = Return true
  /\ (exists status statusText,
        fetch (extensionFolderPath ++ "/" ++ ToString mapName)
        = Response true status statusText (BodyJson data))
  /\ valid (validateMapData data) = true.
Proof.
  unfold fetchValidated, fetchJsonWithTimeout.
  destruct (validateAssetPath_cases mapName) as [Hok|[e He]].
  2:{ rewrite He. cbn [bind]. split; [discriminate | intros [Hf _]; discriminate]. }
  rewrite Hok. cbn [bind].
  destruct (fetch _) as [e|ok status statusText [value|e]]; cbn [tryCatch bind].
  - split.
    + destruct (String.eqb (errName e) "AbortError"); discriminate.
    + intros (_ & (st & tx & Hf) & _). discriminate.
  - destruct ok; cbn [negb tryCatch bind].
    + destruct (valid (validateMapData value)) eqn:Ev; cbn [negb].
      * split.
        -- intros [= <-]. repeat split; eauto.
        -- intros (_ & (st & tx & Hf) & _). now inversion Hf.
      * split; [discriminate|].
        intros (_ & (st & tx & Hf) & Hv). inversion Hf; subst. congruence.
    + split.
      * destruct (String.eqb _ "AbortError"); discriminate.
      * intros (_ & (st & tx & Hf) & _). discriminate.
  - destruct ok; cbn [negb tryCatch bind].
    + split.
      * destruct (String.eqb _ "AbortError"); discriminate.
      * intros (_ & (st & tx & Hf) & _). discriminate.
    + split.
      * destruct (String.eqb _ "AbortError"); discriminate.
      * intros (_ & (st & tx & Hf) & _). discriminate.
Qed.

Lemma loadMapData_preserves (fetch : Network) (mapName : JsVal) (st : Store) :
  cacheValidated (mapCache st) ->
  cacheValidated (mapCache (snd (loadMapData cfg fetch mapName st))).
Proof.
  intros Hc. unfold loadMapData.
  destruct (match mapName with JStr key => cacheGet key (mapCache st) | _ => None end);
    [exact Hc|].
  destruct (fetchValidated fetch mapName) as [data|e] eqn:E; [|exact Hc].
  apply fetchValidated_Return in E. destruct E as (_ & _ & Hv).
  now apply cacheValidated_insert.
Qed.

Lemma loadMapData_failure_keeps_cache (fetch : Network) (mapName : JsVal) (st : Store) :
  throws (fst (loadMapData cfg fetch mapName st)) ->
  mapCache (snd (loadMapData cfg fetch mapName st)) = mapCache st.
Proof.
  unfold loadMapData.
  destruct (match mapName with JStr key => cacheGet key (mapCache st) | _ => None end);
    [reflexivity|].
  destruct (fetchValidated fetch mapName) as [data|e]; [|reflexivity].
  intros [e He]. discriminate.
Qed.

Lemma Reachable_cacheValidated (st : Store) :
  Reachable cfg st -> cacheValidated (mapCache st).
Proof.
  induction 1 as [| fetch mapName st _ IH | st _ IH | fetch st _ IH].
  - constructor.
  - now apply loadMapData_preserves.
  - constructor.
  - rewrite discoverAvailableMaps_cache. exact IH.
Qed.

(** C2. In every store the module can reach, each cached document passes
    [validateMapData]; whatever [loadMapData] is then called with, a call
    that throws leaves the cache as it was, a fetched document that fails
    validation makes the call throw, a call that misses the cache throws
    unless the path is accepted, the response is ok, its body decodes and
    the document validates, and the cache after the call still holds
    validated documents only. *)
Theorem cache_holds_validated_documents (st : Store) :
  Reachable cfg st ->
  cacheValidated (mapCache st)
  /\ (forall fetch mapName,
        throws (fst (loadMapData cfg fetch mapName st)) ->
        mapCache (snd (loadMapData cfg fetch mapName st)) = mapCache st)
  /\ (forall fetch key data status statusText,
        cacheHas key (mapCache st) = false ->
        fetch (extensionFolderPath ++ "/" ++ key)
        = Response true status statusText (BodyJson data) ->
        valid (validateMapData data) = false ->
        throws (fst (loadMapData cfg fetch (JStr key) st))
        /\ mapCache (snd (loadMapData cfg fetch (JStr key) st)) = mapCache st)
  /\ (forall fetch key,
        cacheHas key (mapCache st) = false ->
        (throws (fst (loadMapData cfg fetch (JStr key) st)) <->
         ~ (exists data,
              validateAssetPath (JStr key) = Return true
              /\ (exists status statusText,
                    fetch (extensionFolderPath ++ "/" ++ key)
                    = Response true status statusText (BodyJson data))
              /\ valid (validateMapData data) = true)))
  /\ (forall fetch mapName,
        cacheValidated (mapCache (snd (loadMapData cfg fetch mapName st)))).
Proof.
  intros Hreach.
  pose proof (Reachable_cacheValidated st Hreach) as Hc.
  split; [exact Hc|].
  split; [intros fetch mapName; apply loadMapData_failure_keeps_cache|].
  split; [|split; [|intros fetch mapName; now apply loadMapData_preserves]].
  2:{ intros fetch key Hmiss. unfold loadMapData. unfold cacheHas in Hmiss.
      destruct (cacheGet key (mapCache st)); [discriminate|].
      destruct (fetchValidated fetch (JStr key)) as [d|e] eqn:E; cbn [fst].
      - split; [intros [e He]; discriminate|].
        intros Hn. exfalso. apply Hn. exists d. now apply fetchValidated_Return in E.
      - split; [|intros _; now exists e].
        intros _ [d Hd]. apply (fetchValidated_Return fetch (JStr key) d) in Hd.
        congruence. }
  intros fetch key data status statusText Hmiss Hfetch Hinvalid.
  assert (Hthrows : throws (fst (loadMapData cfg fetch (JStr key) st))).
  { unfold loadMapData. unfold cacheHas in Hmiss.
    destruct (cacheGet key (mapCache st)); [discriminate|].
    destruct (fetchValidated fetch (JStr key)) as [d|e] eqn:E.
    - apply fetchValidated_Return in E.
      destruct E as (_ & (s1 & s2 & Hf) & Hv).
      cbn [ToString] in Hf. rewrite Hfetch in Hf. inversion Hf; subst. congruence.
    - now exists e. }
  split; [exact Hthrows | now apply loadMapData_failure_keeps_cache].
Qed.

End Loader.

Lemma cache_holds_validated_documents_witness :
  mapCache (snd (@loadMapData exampleRuntime mapSettings cityNetwork
                   (JStr "city.json") initialStore)) = [("city.json", docCity)]
  /\ @cacheValidated exampleRuntime
       (mapCache (snd (@loadMapData exampleRuntime mapSettings cityNetwork
                         (JStr "city.json") initialStore))).
Proof.
  split; [vm_compute; reflexivity|].
  apply (@cache_holds_validated_documents exampleRuntime mapSettings
           (snd (@loadMapData exampleRuntime mapSettings cityNetwork
                   (JStr "city.json") initialStore))).
  apply reach_load. apply reach_initial.
Defined.

(** ** Eviction order *)

Section Eviction.
Context `{Runtime}.
Variable cfg : MapSettings.

Lemma cacheGet_None_iff (key : string) (c : MapCache) :
  cacheGet key c = None <-> ~ In key (cacheKeys c).
Proof.
  unfold cacheGet, cacheKeys.
  induction c as [|[k v] c IH]; simpl.
  - tauto.
  - destruct (String.eqb k key) eqn:E.
    + apply String.eqb_eq in E. split; [discriminate | intros Hn; tauto].
    + apply String.eqb_neq in E. rewrite IH. tauto.
Qed.

Lemma cacheHas_false_iff (key : string) (c : MapCache) :
  cacheHas key c = false <-> ~ In key (cacheKeys c).
Proof.
  rewrite <- cacheGet_None_iff. unfold cacheHas.
  destruct (cacheGet key c); split; congruence.
Qed.

Lemma cacheSet_fresh (key : string) (data : JsVal) (c : MapCache) :
  ~ In key (cacheKeys c) -> cacheSet key data c = (c ++ [(key, data)])%list.
Proof.
  induction c as [|[k v] c IH]; simpl; intros Hn; [reflexivity|].
  destruct (String.eqb k key) eqn:E.
  - apply String.eqb_eq in E. tauto.
  - rewrite IH; tauto.
Qed.

Lemma cacheDelete_absent (key : string) (c : MapCache) :
  ~ In key (cacheKeys c) -> cacheDelete key c = c.
Proof.
  induction c as [|[k v] c IH]; simpl; intros Hn; [reflexivity|].
  destruct (String.eqb k key) eqn:E.
  - apply String.eqb_eq in E. tauto.
  - simpl. rewrite IH; tauto.
Qed.

Lemma cacheDelete_first (k : string) (v : JsVal) (rest : MapCache) :
  NoDup (cacheKeys ((k, v) :: rest)) -> cacheDelete k ((k, v) :: rest) = rest.
Proof.
  simpl. intros Hnd. inversion Hnd; subst.
  rewrite String.eqb_refl. simpl. now apply cacheDelete_absent.
Qed.

(** One insertion: at capacity the oldest entry goes, and nothing else. *)
Lemma cacheInsert_fifo (key : string) (data : JsVal) (c : MapCache) :
  NoDup (cacheKeys c) -> ~ In key (cacheKeys c) ->
  cacheInsert cfg key data c =
  ((if (maxMapCache cfg <=? List.length c)%nat then tl c else c) ++ [(key, data)])%list.
Proof.
  intros Hnd Hfresh. unfold cacheInsert.
  destruct (maxMapCache cfg <=? List.length c)%nat.
  - destruct c as [|[k v] rest]; cbn [firstKey].
    + reflexivity.
    + rewrite cacheDelete_first by assumption. cbn [tl].
      apply cacheSet_fresh. simpl in Hfresh. tauto.
  - now apply cacheSet_fresh.
Qed.

Lemma loadMapData_miss (fetch : Network) (key : string) (data : JsVal) (st : Store) :
  cacheHas key (mapCache st) = false ->
  fetchValidated fetch (JStr key) = Return data ->
  loadMapData cfg fetch (JStr key) st
  = (Return data, setCache (cacheInsert cfg key data (mapCache st)) st).
Proof.
  unfold loadMapData, cacheHas. intros Hmiss Hfetch.
  destruct (cacheGet key (mapCache st)); [discriminate|].
  now rewrite Hfetch.
Qed.

Lemma cacheKeys_entriesOf (docs : string -> JsVal) (names : list string) :
  cacheKeys (entriesOf docs names) = names.
Proof.
  unfold cacheKeys, entriesOf. rewrite map_map. simpl. apply map_id.
Qed.

Lemma cacheGet_entriesOf (docs : string -> JsVal) (names : list string) (name : string) :
  In name names -> cacheGet name (entriesOf docs names) = Some (docs name).
Proof.
  unfold cacheGet, entriesOf.
  induction names as [|n names IH]; simpl; [tauto|].
  destruct (String.eqb n name) eqn:E.
  - apply String.eqb_eq in E. now subst.
  - apply String.eqb_neq in E. intros [Heq|Hin]; [contradiction | now apply IH].
Qed.

Lemma tl_skipn {A} (k : nat) (l : list A) : tl (skipn k l) = skipn (S k) l.
Proof.
  revert l. induction k as [|k IH]; intros [|x l]; try reflexivity.
  exact (IH l).
Qed.

Lemma tl_map {A B} (f : A -> B) (l : list A) : tl (map f l) = map f (tl l).
Proof. now destruct l. Qed.

Lemma NoDup_skipn {A} (k : nat) (l : list A) : NoDup l -> NoDup (skipn k l).
Proof.
  revert l. induction k as [|k IH]; intros [|x l] Hnd; simpl; auto.
  inversion Hnd; auto.
Qed.

Lemma In_skipn {A} (k : nat) (l : list A) (x : A) : In x (skipn k l) -> In x l.
Proof.
  revert l. induction k as [|k IH]; intros [|y l]; simpl; auto.
Qed.

(** After loading the names of a duplicate-free list into an empty cache,
    every load succeeding, the cache holds the last [maxMapCache] of them,
    in order. *)
Lemma loadAll_keeps_latest (fetch : Network) (docs : string -> JsVal)
    (names : list string) (st : Store) :
  1 <= maxMapCache cfg ->
  mapCache st = [] ->
  NoDup names ->
  (forall name, In name names -> fetchValidated fetch (JStr name) = Return (docs name)) ->
  mapCache (loadAll cfg fetch names st)
  = entriesOf docs (skipn (List.length names - maxMapCache cfg) names).
Proof.
  intros Hmax Hempty. unfold loadAll.
  induction names as [|name names IH] using rev_ind; intros Hnd Hdocs.
  - simpl. now rewrite Hempty.
  - rewrite fold_left_app. cbn [fold_left].
    apply NoDup_remove in Hnd. rewrite app_nil_r in Hnd. destruct Hnd as [Hnd Hfresh].
    specialize (IH Hnd (fun n Hn => Hdocs n (in_or_app _ _ _ (or_introl Hn)))).
    set (st' := fold_left _ names st) in *.
    set (k := List.length names - maxMapCache cfg) in *.
    assert (Hkeys : cacheKeys (mapCache st') = skipn k names)
      by (rewrite IH; apply cacheKeys_entriesOf).
    assert (Hmiss : ~ In name (cacheKeys (mapCache st')))
      by (rewrite Hkeys; intros Hin; apply Hfresh; eapply In_skipn; eauto).
    rewrite (loadMapData_miss fetch name (docs name)).
    2:{ now apply cacheHas_false_iff. }
    2:{ apply Hdocs. apply in_or_app. right. now left. }
    cbn [snd setCache mapCache].
    rewrite cacheInsert_fifo; [| rewrite Hkeys; now apply NoDup_skipn | exact Hmiss].
    rewrite IH. unfold entriesOf. rewrite length_map, length_skipn, length_app.
    cbn [List.length]. subst k.
    destruct (maxMapCache cfg <=? List.length names - (List.length names - maxMapCache cfg))%nat
      eqn:E.
    + apply Nat.leb_le in E.
      replace (List.length names + 1 - maxMapCache cfg)
        with (S (List.length names - maxMapCache cfg)) by lia.
      rewrite tl_map, tl_skipn, skipn_app.
      replace (S (List.length names - maxMapCache cfg) - List.length names) with 0 by lia.
      now rewrite map_app.
    + apply Nat.leb_gt in E.
      replace (List.length names + 1 - maxMapCache cfg) with 0 by lia.
      replace (List.length names - maxMapCache cfg) with 0 by lia.
      cbn [skipn]. now rewrite map_app.
Qed.

Lemma cacheSet_length (key : string) (data : JsVal) (c : MapCache) :
  List.length (cacheSet key data c) <= S (List.length c).
Proof.
  induction c as [|[k v] c IH]; simpl; [lia|].
  destruct (String.eqb k key); simpl; lia.
Qed.

Lemma cacheDelete_length (key : string) (c : MapCache) :
  List.length (cacheDelete key c) <= List.length c.
Proof. apply filter_length_le. Qed.

Lemma cacheInsert_bound (key : string) (data : JsVal) (c : MapCache) :
  1 <= maxMapCache cfg ->
  List.length c <= maxMapCache cfg ->
  List.length (cacheInsert cfg key data c) <= maxMapCache cfg.
Proof.
  intros Hmax Hlen. unfold cacheInsert.
  destruct (maxMapCache cfg <=? List.length c)%nat eqn:E.
  - apply Nat.leb_le in E. destruct c as [|[k v] rest]; cbn [firstKey].
    + simpl. lia.
    + unfold cacheDelete. cbn [filter fst]. rewrite String.eqb_refl. cbn [negb].
      pose proof (cacheSet_length key data (cacheDelete k rest)) as H1.
      pose proof (cacheDelete_length k rest) as H2.
      unfold cacheDelete in H1, H2. cbn [List.length] in Hlen. lia.
  - apply Nat.leb_gt in E. pose proof (cacheSet_length key data c). lia.
Qed.

Lemma cacheKeys_set (key : string) (data : JsVal) (c : MapCache) :
  cacheKeys (cacheSet key data c)
  = if cacheHas key c then cacheKeys c else (cacheKeys c ++ [key])%list.
Proof.
  unfold cacheHas, cacheGet.
  induction c as [|[k v] c IH]; simpl; [reflexivity|].
  destruct (String.eqb k key) eqn:E; simpl; [reflexivity|].
  rewrite IH. now destruct (find _ c).
Qed.

Lemma cacheKeys_delete (key : string) (c : MapCache) :
  cacheKeys (cacheDelete key c)
  = filter (fun k => negb (String.eqb k key)) (cacheKeys c).
Proof.
  unfold cacheKeys, cacheDelete.
  induction c as [|[k v] c IH]; simpl; [reflexivity|].
  destruct (String.eqb k key); simpl; now rewrite IH.
Qed.

Lemma cacheInsert_NoDup (key : string) (data : JsVal) (c : MapCache) :
  NoDup (cacheKeys c) -> NoDup (cacheKeys (cacheInsert cfg key data c)).
Proof.
  intros Hnd. unfold cacheInsert.
  set (c' := if (maxMapCache cfg <=? List.length c)%nat then _ else c).
  assert (Hc' : NoDup (cacheKeys c')).
  { subst c'. destruct (maxMapCache cfg <=? List.length c)%nat; [|exact Hnd].
    destruct (firstKey c); [|exact Hnd].
    rewrite cacheKeys_delete. now apply NoDup_filter. }
  rewrite cacheKeys_set. destruct (cacheHas key c') eqn:E; [exact Hc'|].
  apply cacheHas_false_iff in E.
  apply NoDup_app; [exact Hc' | repeat constructor; simpl; tauto |].
  intros x Hx [<-|[]]. contradiction.
Qed.

(** The keys of a reachable cache are distinct, as those of a [Map] are. *)
Lemma Reachable_keys_NoDup (st : Store) :
  Reachable cfg st -> NoDup (cacheKeys (mapCache st)).
Proof.
  induction 1 as [| fetch mapName st _ IH | st _ IH | fetch st _ IH].
  - constructor.
  - unfold loadMapData.
    destruct (match mapName with JStr key => cacheGet key (mapCache st) | _ => None end);
      [exact IH|].
    destruct (fetchValidated fetch mapName); [|exact IH].
    now apply cacheInsert_NoDup.
  - constructor.
  - rewrite discoverAvailableMaps_cache. exact IH.
Qed.

(** The fixed bound: a reachable cache never holds more than
    [maxMapCache] entries. *)
Lemma Reachable_bound (st : Store) :
  1 <= maxMapCache cfg -> Reachable cfg st ->
  List.length (mapCache st) <= maxMapCache cfg.
Proof.
  intros Hmax. induction 1 as [| fetch mapName st _ IH | st _ IH | fetch st _ IH].
  - simpl. lia.
  - unfold loadMapData.
    destruct (match mapName with JStr key => cacheGet key (mapCache st) | _ => None end);
      [exact IH|].
    destruct (fetchValidated fetch mapName); [|exact IH].
    now apply cacheInsert_bound.
  - simpl. lia.
  - rewrite discoverAvailableMaps_cache. exact IH.
Qed.

(** C3. With a capacity of at least one, loading [maxMapCache + 1]
    documents under distinct names into an empty cache, each load a miss
    that succeeds, leaves exactly [maxMapCache] entries: the first name is
    gone and the later names are all there, in insertion order, each with its
    document. And a successful load into a cache at capacity drops the
    oldest entry, nothing else, and puts the new entry last; no reachable
    cache exceeds the capacity. *)
Theorem cache_eviction_fifo (fetch : Network) (docs : string -> JsVal)
    (names : list string) (st : Store) :
  1 <= maxMapCache cfg ->
  mapCache st = [] ->
  NoDup names ->
  List.length names = maxMapCache cfg + 1 ->
  (forall name, In name names -> fetchValidated fetch (JStr name) = Return (docs name)) ->
  let final := mapCache (loadAll cfg fetch names st) in
  List.length final = maxMapCache cfg
  /\ cacheKeys final = tl names
  /\ cacheHas (hd "" names) final = false
  /\ (forall name, In name (tl names) -> cacheGet name final = Some (docs name))
  /\ (forall st' key data,
        NoDup (cacheKeys (mapCache st')) ->
        cacheHas key (mapCache st') = false ->
        fetchValidated fetch (JStr key) = Return data ->
        maxMapCache cfg <= List.length (mapCache st') ->
        mapCache (snd (loadMapData cfg fetch (JStr key) st'))
        = (tl (mapCache st') ++ [(key, data)])%list)
  /\ (forall st', Reachable cfg st' -> List.length (mapCache st') <= maxMapCache cfg).
Proof.
  intros Hmax Hempty Hnd Hlen Hdocs final.
  assert (Hfinal : final = entriesOf docs (tl names)).
  { subst final. rewrite (loadAll_keeps_latest fetch docs) by assumption.
    replace (List.length names - maxMapCache cfg) with 1 by lia.
    now destruct names. }
  rewrite Hfinal. split; [|split; [|split; [|split; [|split]]]].
  6:{ intros st'. now apply Reachable_bound. }
  - unfold entriesOf. rewrite length_map. destruct names; simpl in *; lia.
  - apply cacheKeys_entriesOf.
  - apply cacheHas_false_iff. rewrite cacheKeys_entriesOf.
    destruct names as [|first rest]; simpl; [tauto|]. now inversion Hnd.
  - intros name Hin. now apply cacheGet_entriesOf.
  - intros st' key data Hkeys Hmiss Hfetch Hfull.
    rewrite (loadMapData_miss fetch key data) by assumption.
    cbn [snd setCache mapCache].
    rewrite cacheInsert_fifo; [| exact Hkeys | now apply cacheHas_false_iff].
    apply Nat.leb_le in Hfull. now rewrite Hfull.
Qed.

End Eviction.

Lemma cache_eviction_fifo_witness :
  cacheKeys (mapCache (@loadAll exampleRuntime mapSettings cityNetwork elevenNames
                         initialStore))
  = ["m1.json"; "m2.json"; "m3.json"; "m4.json"; "m5.json";
     "m6.json"; "m7.json"; "m8.json"; "m9.json"; "m10.json"].
Proof.
  refine (proj1 (proj2 (@cache_eviction_fifo exampleRuntime mapSettings cityNetwork
                          (fun _ => docCity) elevenNames initialStore _ _ _ _ _))).
  - vm_compute. lia.
  - reflexivity.
  - repeat (constructor; [simpl; intuition discriminate|]). constructor.
  - reflexivity.
  - intros name Hin. simpl in Hin.
    repeat (destruct Hin as [<-|Hin]; [vm_compute; reflexivity|]). contradiction.
Defined.

(** ** Listing discovery *)

Section Discovery.
Context `{Runtime}.
Variable cfg : MapSettings.

Lemma tryLoadMapsFromIndex_returns (fetch : Network) :
  exists maps, tryLoadMapsFromIndex fetch = Return maps.
Proof.
  unfold tryLoadMapsFromIndex.
  destruct (fetch _) as [e|[] status statusText [index|e]]; cbn [negb tryCatch]; eauto.
  destruct (isArray index); cbn [tryCatch]; eauto.
  destruct index; cbn [readProp bind tryCatch]; eauto.
Qed.

Lemma discoverAvailableMaps_stores (fetch : Network) (st : Store) :
  exists maps,
    fst (discoverAvailableMaps cfg fetch st) = Return maps
    /\ availableMaps (extensionState (snd (discoverAvailableMaps cfg fetch st))) = maps
    /\ lengthPositive maps = Return true.
Proof.
  unfold discoverAvailableMaps.
  destruct (tryLoadMapsFromIndex fetch) as [indexedMaps|e]; cbn [bind fst snd];
    [|now eexists].
  destruct (lengthPositive indexedMaps) as [[|]|e] eqn:E; cbn [bind fst snd];
    now eexists.
Qed.


Lemma discoverAvailableMaps_offered (fetch : Network) (st : Store)
    (status : nat) (statusText : string) (index listing : JsVal) :
  fetch (extensionFolderPath ++ "/index.json")
  = Response true status statusText (BodyJson index) ->
  Offers index listing -> NonEmptyListing listing ->
  fst (discoverAvailableMaps cfg fetch st) = Return listing.
Proof.
  intros Hf Hoffers Hlisting.
  unfold discoverAvailableMaps, tryLoadMapsFromIndex. rewrite Hf. cbn [negb].
  destruct Hoffers as [items|fields].
  - inversion Hlisting; subst. reflexivity.
  - cbn [isArray readProp bind tryCatch].
    destruct Hlisting as [first rest|c s|inner Hp Hl].
    + reflexivity.
    + reflexivity.
    + cbn [truthy tryCatch bind lengthPositive]. unfold ToNumberOrThrow.
      rewrite Hp. cbn [bind]. now rewrite Hl.
Qed.




End Discovery.


(** ** Map selection *)

Section Resolver.

Lemma nameMatches_iff (term entry : string) :
  nameMatches (toLowerCase term) (toLowerCase entry) = true <-> Matches term entry.
Proof.
  unfold nameMatches, Matches.
  rewrite !orb_true_iff, !String.eqb_eq, !endsWith_iff. tauto.
Qed.

Lemma nameMatches_false_iff (term entry : string) :
  nameMatches (toLowerCase term) (toLowerCase entry) = false <-> ~ Matches term entry.
Proof.
  rewrite <- nameMatches_iff. now destruct (nameMatches _ _).
Qed.

Lemma findMatch_first (search : string) (before after : list string) (entry : string) :
  nameMatches search (toLowerCase entry) = true ->
  (forall x, In x before -> nameMatches search (toLowerCase x) = false) ->
  findMatch search (map JStr (before ++ entry :: after)%list) = Return (Some entry).
Proof.
  intros He. induction before as [|x before IH]; intros Hbefore; simpl.
  - now rewrite He.
  - rewrite (Hbefore x) by now left. apply IH. intros y Hy. apply Hbefore. now right.
Qed.

Lemma findMatch_none (search : string) (maps : list string) :
  (forall x, In x maps -> nameMatches search (toLowerCase x) = false) ->
  findMatch search (map JStr maps) = Return None.
Proof.
  induction maps as [|x maps IH]; intros Hall; simpl; [reflexivity|].
  rewrite (Hall x) by now left. apply IH. intros y Hy. apply Hall. now right.
Qed.

Lemma toLowerCase_app (a b : string) :
  toLowerCase (a ++ b) = toLowerCase a ++ toLowerCase b.
Proof.
  induction a as [|c a IH]; simpl; [reflexivity | now rewrite IH].
Qed.

Lemma fileName_length (path : string) :
  String.length (fileName path) <= String.length path.
Proof.
  induction path as [|c path IH]; cbn [fileName]; [lia|].
  destruct (includes "/" (String c path)); cbn [String.length]; lia.
Qed.

Lemma fileName_split (path : string) :
  fileName path = path \/ exists dir, path = dir ++ "/" ++ fileName path.
Proof.
  induction path as [|c path IH]; [now left|].
  cbn [fileName]. destruct (includes "/" (String c path)) eqn:E; [|now left].
  right. destruct IH as [Heq|[dir Hdir]].
  - rewrite Heq. cbn [includes] in E. apply orb_true_iff in E. destruct E as [E|E].
    + apply startsWith_iff in E. destruct E as [r Hr]. simpl in Hr.
      inversion Hr; subst. now exists "".
    + destruct path as [|d path]; [discriminate|].
      cbn [fileName] in Heq. rewrite E in Heq.
      exfalso. pose proof (fileName_length path) as Hlen.
      rewrite Heq in Hlen. cbn [String.length] in Hlen. lia.
  - exists (String c dir).
    change (String c path = String c (dir ++ "/" ++ fileName path)).
    now rewrite <- Hdir.
Qed.

Lemma SpecMatch_Matches (term entry : string) : SpecMatch term entry -> Matches term entry.
Proof.
  unfold SpecMatch, Matches. intros Hs.
  destruct (fileName_split entry) as [Heq|[dir Hdir]].
  - rewrite Heq in Hs. intuition congruence.
  - destruct Hs as [Hs|[Hs|Hs]]; [now left| |].
    + right. right. left. exists (toLowerCase dir).
      rewrite Hdir at 1. rewrite !toLowerCase_app. now rewrite Hs.
    + right. right. right. exists (toLowerCase dir).
      rewrite Hdir at 1. rewrite !toLowerCase_app. now rewrite Hs.
Qed.

(** C7, as amended. For a non-empty term and a list of known maps,
    [resolveMapPath] trims the term and returns the first entry of the list,
    in list order, that matches it letter case apart (the entry is the term
    or the term with [.json], or ends with a slash followed by one of the
    two), when that entry is not the empty string; every entry the
    specification describes as a match is one. With no matching entry it
    returns the trimmed term, with [.json] appended unless the term ends
    with it letter case apart. *)
Theorem resolveMapPath_first_match (st : Store) (maps : list string) (term : string) :
  availableMaps (extensionState st) = JArr (map JStr maps) ->
  term <> "" ->
  (forall before entry after,
      maps = (before ++ entry :: after)%list ->
      Matches (trim term) entry ->
      (forall x, In x before -> ~ Matches (trim term) x) ->
      entry <> "" ->
      resolveMapPath st term = Return (Some entry))
  /\ ((forall entry, In entry maps -> ~ Matches (trim term) entry) ->
      resolveMapPath st term =
      Return (Some (if endsWith ".json" (toLowerCase (trim term))
                    then trim term else trim term ++ ".json")))
  /\ (forall entry, SpecMatch (trim term) entry -> Matches (trim term) entry).
Proof.
  intros Hmaps Hterm.
  assert (Hne : String.eqb term "" = false) by now apply String.eqb_neq.
  split; [|split].
  - intros before entry after -> Hmatch Hbefore Hentry.
    unfold resolveMapPath, findMapByName. rewrite Hne, Hmaps.
    assert (Hnz : lengthIsZero (JArr (map JStr (before ++ entry :: after)%list)) = false)
      by now destruct before.
    rewrite Hnz. cbn [truthy negb orb].
    rewrite findMatch_first.
    + cbn [bind]. apply String.eqb_neq in Hentry. now rewrite Hentry.
    + now apply nameMatches_iff.
    + intros x Hx. apply nameMatches_false_iff. now apply Hbefore.
  - intros Hnone.
    unfold resolveMapPath, findMapByName. rewrite Hne, Hmaps.
    cbn [truthy negb orb].
    destruct (lengthIsZero (JArr (map JStr maps))).
    + cbn [bind]. now destruct (endsWith ".json" (toLowerCase (trim term))).
    + rewrite findMatch_none.
      * cbn [bind]. now destruct (endsWith ".json" (toLowerCase (trim term))).
      * intros x Hx. apply nameMatches_false_iff. now apply Hnone.
  - intros entry. apply SpecMatch_Matches.
Qed.

End Resolver.

(** C7: against the list [a/city.json; b/city.json] the term [city] equals
    the file name of the second entry less [.json], and [resolveMapPath]
    returns the first entry, not that one. *)
Lemma resolveMapPath_not_every_match :
  In "b/city.json" twoCities
  /\ SpecMatch "city" "b/city.json"
  /\ resolveMapPath (storeWithMaps twoCities) "city" = Return (Some "a/city.json")
  /\ resolveMapPath (storeWithMaps twoCities) "city" <> Return (Some "b/city.json").
Proof.
  split; [right; now left|].
  split; [right; right; reflexivity|].
  split; [vm_compute; reflexivity | vm_compute; discriminate].
Qed.

Lemma resolveMapPath_first_match_witness :
  resolveMapPath (storeWithMaps knownMaps) "city" = Return (Some "maps/city.json")
  /\ resolveMapPath (storeWithMaps knownMaps) "nonexistent"
     = Return (Some "nonexistent.json").
Proof.
  pose proof (resolveMapPath_first_match (storeWithMaps knownMaps) knownMaps "city"
                eq_refl ltac:(discriminate)) as [Hfirst _].
  pose proof (resolveMapPath_first_match (storeWithMaps knownMaps) knownMaps "nonexistent"
                eq_refl ltac:(discriminate)) as [_ [Hnone _]].
  split.
  - apply (Hfirst ["SillyTavern.json"] "maps/city.json" []); [reflexivity | | | discriminate].
    + right. right. right. exists "maps". reflexivity.
    + intros x [<-|[]] Hm. apply nameMatches_iff in Hm. vm_compute in Hm. discriminate.
  - apply Hnone. intros entry Hin Hm. apply nameMatches_iff in Hm.
    destruct Hin as [<-|[<-|[]]]; vm_compute in Hm; discriminate.
Defined.

(** ** Hover fill *)

Section Hover.
Context `{Runtime}.
Variable cfg : MapSettings.

Lemma parseInt16_doubled (d : ascii) :
  isHexDigit d = true ->
  parseInt16 (String d (String d EmptyString)) = Some (17 * hexValue d)%Z.
Proof.
  destruct d as [[] [] [] [] [] [] [] []]; intros Hd;
    first [discriminate Hd | reflexivity].
Qed.

Lemma hexValue_range (d : ascii) :
  isHexDigit d = true -> (0 <= 17 * hexValue d <= 255)%Z.
Proof.
  destruct d as [[] [] [] [] [] [] [] []]; intros Hd;
    first [discriminate Hd | vm_compute; split; discriminate].
Qed.

Lemma three_digit_color (hex : string) :
  isValidColor (JStr hex) = true -> String.length hex = 4 ->
  exists a b c,
    hex = String "#" (String a (String b (String c EmptyString)))
    /\ isHexDigit a = true /\ isHexDigit b = true /\ isHexDigit c = true.
Proof.
  unfold isValidColor. cbn [ToString].
  destruct hex as [|h [|a [|b [|c [|e rest]]]]]; try discriminate.
  intros Hv _.
  destruct (ascii_dec h "#") as [->|Hh].
  - cbn [allHex] in Hv. rewrite !andb_true_iff in Hv.
    destruct Hv as [(Ha & Hb & Hc & _) _]. now exists a, b, c.
  - exfalso. destruct h as [[] [] [] [] [] [] [] []]; try discriminate Hv. now apply Hh.
Qed.

(** C9. For a three-digit colour, the hover-in handler reads the same
    three channels, each 17 times the digit's value and so between 0 and
    255, as for the six-digit colour that doubles each digit, and sets the
    same fill: [rgba(R, G, B, o)] with [o] the configured hover opacity. *)
Theorem handleMouseOver_three_digits (hex : string) :
  isValidColor (JStr hex) = true ->
  String.length hex = 4 ->
  isValidColor (JStr (doubleDigits hex)) = true
  /\ hoverRGB hex = hoverRGB (doubleDigits hex)
  /\ handleMouseOver cfg hex = handleMouseOver cfg (doubleDigits hex)
  /\ (exists R G B,
        hoverRGB hex = (Some R, Some G, Some B)
        /\ (0 <= R <= 255)%Z /\ (0 <= G <= 255)%Z /\ (0 <= B <= 255)%Z
        /\ handleMouseOver cfg hex =
           "rgba(" ++ showChannel (Some R) ++ ", " ++ showChannel (Some G) ++ ", "
                   ++ showChannel (Some B) ++ ", "
                   ++ NumberToString (hoverOpacity cfg) ++ ")").
Proof.
  intros Hvalid Hlen.
  destruct (three_digit_color hex Hvalid Hlen) as (a & b & c & -> & Ha & Hb & Hc).
  assert (Hrgb : hoverRGB (String "#" (String a (String b (String c EmptyString))))
                 = (Some (17 * hexValue a)%Z, Some (17 * hexValue b)%Z,
                    Some (17 * hexValue c)%Z)).
  { unfold hoverRGB. cbn [String.length Nat.eqb substring append].
    now rewrite !parseInt16_doubled. }
  assert (Hrgb6 : hoverRGB (doubleDigits
                              (String "#" (String a (String b (String c EmptyString)))))
                  = (Some (17 * hexValue a)%Z, Some (17 * hexValue b)%Z,
                     Some (17 * hexValue c)%Z)).
  { unfold hoverRGB. cbn [doubleDigits String.length Nat.eqb substring].
    now rewrite !parseInt16_doubled. }
  split; [|split; [|split]].
  - unfold isValidColor. cbn [ToString doubleDigits allHex String.length].
    now rewrite Ha, Hb, Hc.
  - now rewrite Hrgb, Hrgb6.
  - unfold handleMouseOver. now rewrite Hrgb, Hrgb6.
  - exists (17 * hexValue a)%Z, (17 * hexValue b)%Z, (17 * hexValue c)%Z.
    split; [exact Hrgb|].
    repeat split; try (now apply hexValue_range).
    unfold handleMouseOver. now rewrite Hrgb.
Qed.

End Hover.

Lemma handleMouseOver_three_digits_witness :
  @handleMouseOver exampleRuntime mapSettings "#F00"
  = @handleMouseOver exampleRuntime mapSettings "#FF0000"
  /\ @handleMouseOver exampleRuntime mapSettings "#F00" = "rgba(255, 0, 0, 0.3)".
Proof.
  split.
  - apply (@handleMouseOver_three_digits exampleRuntime mapSettings "#F00");
      vm_compute; reflexivity.
  - vm_compute. reflexivity.
Defined.

(** ** Media overlays *)

Section Media.

Ltac break_world w :=
  destruct w as [a i ib v vb open allowed listener notes];
  destruct a as [[asrc apaused atime [|]]|];
  destruct i as [[isrc idisplay [|] iwin]|];
  destruct ib as [[bdisplay [|] bwin]|];
  destruct v as [[vsrc vpaused vdisplay vmuted vloop vauto [|] vwin]|];
  destruct vb as [[cdisplay [|] cwin]|].


Lemma stop_idle (kind : MediaKind) (w : World) :
  overlayState kind (stop kind w) = Idle.
Proof. destruct kind; break_world w; reflexivity. Qed.

Lemma stop_hides_control (kind : MediaKind) (w : World) :
  closeControlVisible kind (stop kind w) = false.
Proof. destruct kind; break_world w; reflexivity. Qed.




(** C5, as amended. When a resource of a kind is active, [stop] leaves the
    kind idle with its close control off screen: the audio element is paused
    and rewound to time 0 and keeps its source; the image element loses its
    source and is hidden; the video element is paused, loses its source and
    is hidden. *)
Theorem stop_releases (kind : MediaKind) (w : World) :
  overlayState kind w = Active ->
  overlayState kind (stop kind w) = Idle
  /\ closeControlVisible kind (stop kind w) = false
  /\ match kind with
     | Audio =>
         exists a, mapAudioElement w = Some a
           /\ mapAudioElement (stop Audio w)
              = Some {| audioSrc := audioSrc a; audioPaused := true;
                        audioCurrentTime := 0%float; audioInBody := true |}
     | Image =>
         exists img, mapImageElement w = Some img
           /\ mapImageElement (stop Image w)
              = Some {| imgSrc := None; imgDisplay := "none";
                        imgInBody := true; imgInWindow := imgInWindow img |}
     | Video =>
         exists video, mapVideoElement w = Some video
           /\ mapVideoElement (stop Video w)
              = Some {| vidSrc := None; vidPaused := true; vidDisplay := "none";
                        vidMuted := vidMuted video; vidLoop := vidLoop video;
                        vidAutoplay := vidAutoplay video;
                        vidInBody := true; vidInWindow := vidInWindow video |}
     end.
Proof.
  intros Hactive.
  split; [apply stop_idle|]. split; [apply stop_hides_control|].
  destruct kind; break_world w; try discriminate Hactive;
    eexists; split; reflexivity.
Qed.

(** C10. Called with a falsy name ([undefined], [null], the empty string,
    [0], [NaN], [false]), each of [playMapSound], [showMapImage] and
    [playMapVideo] returns at once: the world, and with it the overlay state
    and whatever is playing, is what it was, and nothing is reported. *)
Theorem play_ignores_falsy_name (name : JsVal) (opts : VideoOptions) (w : World) :
  truthy name = false ->
  playMapSound name w = w
  /\ showMapImage name w = w
  /\ playMapVideo name opts w = w.
Proof.
  intros Hfalsy. unfold playMapSound, showMapImage, playMapVideo.
  now rewrite Hfalsy.
Qed.

End Media.

(** C5: after [playMapSound("rain")] the audio overlay is active, and
    [stop] leaves the element's source in place. *)
Lemma stop_audio_keeps_source :
  overlayState Audio rainPlaying = Active
  /\ option_map audioSrc (mapAudioElement (stop Audio rainPlaying))
     = Some (Some (extensionFolderPath ++ "/sounds/rain.mp3"))
  /\ option_map audioSrc (mapAudioElement (stop Audio rainPlaying)) <> Some None.
Proof.
  split; [vm_compute; reflexivity|].
  split; [vm_compute; reflexivity | vm_compute; discriminate].
Qed.

Lemma stop_releases_witness :
  overlayState Audio (stop Audio rainPlaying) = Idle
  /\ closeControlVisible Audio (stop Audio rainPlaying) = false.
Proof.
  pose proof (stop_releases Audio rainPlaying) as Hstop.
  split; apply Hstop; vm_compute; reflexivity.
Defined.

Lemma play_ignores_falsy_name_witness :
  playMapSound (JStr "") rainPlaying = rainPlaying
  /\ showMapImage JUndefined rainPlaying = rainPlaying
  /\ playMapVideo JNull {| optMuted := false; optLoop := false; optAutoplay := true |}
       rainPlaying = rainPlaying.
Proof.
  split; [|split].
  - apply (play_ignores_falsy_name (JStr "")
             {| optMuted := false; optLoop := false; optAutoplay := true |} rainPlaying).
    reflexivity.
  - apply (play_ignores_falsy_name JUndefined
             {| optMuted := false; optLoop := false; optAutoplay := true |} rainPlaying).
    reflexivity.
  - apply (play_ignores_falsy_name JNull
             {| optMuted := false; optLoop := false; optAutoplay := true |} rainPlaying).
    reflexivity.
Defined.

(** * Further properties *)

(** ** Trimming *)

Lemma trimEnd_idempotent (s : string) : trimEnd (trimEnd s) = trimEnd s.
Proof.
  induction s as [|c s IH]; [reflexivity|].
  cbn [trimEnd]. destruct (trimEnd s) as [|d kept] eqn:E.
  - destruct (isWhiteSpace c) eqn:Ec; [reflexivity|].
    cbn [trimEnd]. now rewrite Ec.
  - cbn [trimEnd]. cbn [trimEnd] in IH. now rewrite IH.
Qed.

Lemma trimStart_fixed (c : ascii) (s : string) :
  isWhiteSpace c = false -> trimStart (String c s) = String c s.
Proof. intros Hc. cbn [trimStart]. now rewrite Hc. Qed.

Lemma trimEnd_head (c : ascii) (s : string) :
  isWhiteSpace c = false -> exists kept, trimEnd (String c s) = String c kept.
Proof.
  intros Hc. cbn [trimEnd]. destruct (trimEnd s); [rewrite Hc|]; eauto.
Qed.

Lemma trimStart_head (s : string) :
  trimStart s = ""
  \/ exists c rest, trimStart s = String c rest /\ isWhiteSpace c = false.
Proof.
  induction s as [|c s IH]; [now left|].
  cbn [trimStart]. destruct (isWhiteSpace c) eqn:Ec; [exact IH|].
  right. now exists c, s.
Qed.

Lemma trim_idempotent (s : string) : trim (trim s) = trim s.
Proof.
  unfold trim. destruct (trimStart_head s) as [E|(c & rest & E & Hc)]; rewrite E.
  - reflexivity.
  - destruct (trimEnd_head c rest Hc) as [kept Hk]. rewrite Hk.
    rewrite trimStart_fixed by assumption. rewrite <- Hk. apply trimEnd_idempotent.
Qed.

Lemma trimStart_allWhiteSpace (s : string) :
  trimStart s = "" <-> allWhiteSpace s = true.
Proof.
  induction s as [|c s IH]; cbn [trimStart allWhiteSpace]; [tauto|].
  destruct (isWhiteSpace c); cbn [andb]; [exact IH|].
  split; discriminate.
Qed.

Lemma trimEnd_empty (s : string) : trimEnd s = "" <-> allWhiteSpace s = true.
Proof.
  induction s as [|c s IH]; cbn [trimEnd allWhiteSpace]; [tauto|].
  destruct (trimEnd s) as [|d kept].
  - destruct (isWhiteSpace c); cbn [andb]; [|split; discriminate].
    destruct IH as [IH _]. split; [intros _; now apply IH | reflexivity].
  - split; [discriminate|]. rewrite andb_true_iff. intros [_ Hs].
    apply IH in Hs. discriminate.
Qed.

Lemma trim_empty_iff (s : string) : trim s = "" <-> allWhiteSpace s = true.
Proof.
  unfold trim. rewrite trimEnd_empty. split.
  - intros Hw. induction s as [|c s IH]; [reflexivity|].
    cbn [trimStart] in Hw. cbn [allWhiteSpace].
    destruct (isWhiteSpace c) eqn:Ec; cbn [andb]; [now apply IH|].
    cbn [allWhiteSpace] in Hw. now rewrite Ec in Hw.
  - intros Hw. apply trimStart_allWhiteSpace in Hw. now rewrite Hw.
Qed.

Lemma isWhiteSpace_lowerChar (c : ascii) : isWhiteSpace (lowerChar c) = isWhiteSpace c.
Proof. destruct c as [[] [] [] [] [] [] [] []]; reflexivity. Qed.

(** ** Input normalization *)

Section ArgumentProperties.
Context `{Runtime}.

Lemma orNull_trim (s r : string) :
  orNull (trim s) = Some r -> r <> "" /\ trim r = r /\ r = trim s.
Proof.
  unfold orNull. destruct (String.eqb (trim s) "") eqn:E; [discriminate|].
  intros [= <-]. apply String.eqb_neq in E.
  split; [exact E|]. split; [apply trim_idempotent | reflexivity].
Qed.

(** X1. What [normalizeMapInput] returns is never the empty string and
    carries no white space at either end: it is the trimmed string, or the
    trimmed join of the array; a string of white space only gives [null], and
    so does an object whose [type] is [click] or that has a truthy
    [originalEvent], whatever else it holds. *)
Theorem normalizeMapInput_normal (input : JsVal) :
  match normalizeMapInput input with
  | Some name =>
      name <> "" /\ trim name = name
      /\ ((exists s, input = JStr s /\ name = trim s)
          \/ (exists items, input = JArr items /\ name = trim (join " " items)))
  | None => True
  end
  /\ (forall s, normalizeMapInput (JStr s) = None <-> allWhiteSpace s = true)
  /\ (forall fields,
        getProp (JObj fields) "type" = JStr "click"
        \/ truthy (getProp (JObj fields) "originalEvent") = true ->
        normalizeMapInput (JObj fields) = None).
Proof.
  split; [|split].
  - destruct (normalizeMapInput input) as [name|] eqn:E; [|exact I].
    unfold normalizeMapInput in E.
    destruct (truthy input && String.eqb (typeof input) "object" && _); [discriminate|].
    destruct input as [| | b | f | s | items | fields]; try discriminate E;
      apply orNull_trim in E; destruct E as (Hne & Htrim & Heq);
      (split; [exact Hne|]; split; [exact Htrim|]); [left | right]; eauto.
  - intros s. unfold normalizeMapInput. cbn [truthy typeof andb String.eqb Ascii.eqb].
    rewrite andb_false_r. cbn [andb]. unfold orNull. rewrite <- trim_empty_iff.
    destruct (String.eqb (trim s) "") eqn:E.
    + apply String.eqb_eq in E. tauto.
    + apply String.eqb_neq in E. split; [discriminate | contradiction].
  - intros fields Hclick. unfold normalizeMapInput.
    cbn [truthy typeof andb]. rewrite String.eqb_refl. cbn [andb].
    destruct Hclick as [Ht|Ho].
    + now rewrite Ht.
    + rewrite Ho. now rewrite orb_true_r.
Qed.


End ArgumentProperties.

(** ** Validation, characterized *)

Section ValidationComplete.
Context `{Runtime}.

Lemma isHexDigit_iff (c : ascii) : isHexDigit c = true <-> HexDigit c.
Proof.
  unfold isHexDigit, HexDigit, Between.
  change (nat_of_ascii "0") with 48. change (nat_of_ascii "9") with 57.
  change (nat_of_ascii "A") with 65. change (nat_of_ascii "F") with 70.
  change (nat_of_ascii "a") with 97. change (nat_of_ascii "f") with 102.
  rewrite !orb_true_iff, !andb_true_iff, !Nat.leb_le. tauto.
Qed.

Lemma allHex_iff (s : string) :
  allHex s = true <-> forall c, In c (list_ascii_of_string s) -> HexDigit c.
Proof.
  induction s as [|d s IH]; cbn [allHex list_ascii_of_string].
  - split; [intros _ c [] | reflexivity].
  - rewrite andb_true_iff, IH, isHexDigit_iff. split.
    + intros [Hd Hs] c [<-|Hc]; auto.
    + intros Hall. split; [apply Hall; now left | intros c Hc; apply Hall; now right].
Qed.

Lemma isValidColor_string (s : string) : isValidColor (JStr s) = true <-> HexColor s.
Proof.
  unfold isValidColor, HexColor. cbn [ToString].
  destruct s as [|h digits].
  - split; [discriminate | intros (d & Hd & _); discriminate].
  - destruct (ascii_dec h "#") as [->|Hh].
    + rewrite andb_true_iff, orb_true_iff, !Nat.eqb_eq, allHex_iff. split.
      * intros [Hall Hlen]. exists digits. tauto.
      * intros (d & [= <-] & Hlen & Hall). tauto.
    + split.
      * intros Hv. exfalso.
        destruct h as [[] [] [] [] [] [] [] []]; try discriminate Hv. now apply Hh.
      * intros (d & Heq & _). inversion Heq. contradiction.
Qed.

(** X3. [isValidColor] accepts a string exactly when it is [#] followed by
    three or by six hexadecimal digits, and an array that holds one string
    like that string. Of the values that are no strings it refuses
    [undefined], [null], the booleans and the objects without a property
    [toString] of their own; on an object with such a property the call
    throws a [TypeError]. Whenever the call returns, [isValidColor] is what
    it returns. *)
Theorem isValidColor_iff (s : string) :
  (isValidColor (JStr s) = true <-> HexColor s)
  /\ isValidColorOrThrow (JStr s) = Return (isValidColor (JStr s))
  /\ isValidColorOrThrow (JArr [JStr s]) = Return (isValidColor (JStr s))
  /\ isValidColorOrThrow JUndefined = Return false
  /\ isValidColorOrThrow JNull = Return false
  /\ (forall b, isValidColorOrThrow (JBool b) = Return false)
  /\ (forall fields,
        hasOwn "toString" fields = false ->
        isValidColorOrThrow (JObj fields) = Return false)
  /\ (forall fields,
        hasOwn "toString" fields = true ->
        exists e, isValidColorOrThrow (JObj fields) = Throw e
                  /\ errName e = "TypeError")
  /\ (forall color b, isValidColorOrThrow color = Return b -> isValidColor color = b).
Proof.
  split; [apply isValidColor_string|].
  split; [reflexivity|].
  split; [unfold isValidColorOrThrow, ToStringOrThrow; cbn; now destruct s|].
  split; [reflexivity|]. split; [reflexivity|].
  split; [now intros []|].
  split.
  { intros fields Hown. unfold isValidColorOrThrow, ToStringOrThrow.
    cbn [hasPrimitive]. now rewrite Hown. }
  split.
  { intros fields Hown. unfold isValidColorOrThrow, ToStringOrThrow.
    cbn [hasPrimitive]. rewrite Hown. eexists. split; reflexivity. }
  intros color b. unfold isValidColorOrThrow, ToStringOrThrow.
  destruct (hasPrimitive color); cbn [bind]; [|discriminate].
  now intros [= <-].
Qed.

Lemma validateShape_app (shape : JsVal) (i : nat) (errs : list string) :
  validateShape shape i errs = (errs ++ validateShape shape i [])%list.
Proof.
  unfold validateShape, push.
  repeat match goal with
         | |- context [if ?b then _ else _] => destruct b
         end;
    cbn [app]; rewrite <- ?app_assoc, ?app_nil_r; reflexivity.
Qed.

Lemma validateShape_nil_iff (shape : JsVal) (i : nat) :
  validateShape shape i [] = [] <-> shapeComplete shape = true.
Proof.
  unfold validateShape, shapeComplete, isNonEmptyString. cbv zeta.
  generalize (shapePrefix i ++ ": must be an object"),
    (shapePrefix i ++ ": missing required fields (id, path, color, script)"),
    (shapePrefix i ++ ".script: must be a string"),
    (shapePrefix i ++ ".path: must be a string"),
    (shapePrefix i ++ ".color: invalid color " ++ dquote
       ++ ToString (getProp shape "color") ++ dquote).
  intros m0 m1 m2 m3 m4. unfold push.
  destruct (truthy shape), (String.eqb (typeof shape) "object"),
    (truthy (getProp shape "id")), (truthy (getProp shape "path")),
    (truthy (getProp shape "color")), (truthy (getProp shape "script")),
    (String.eqb (typeof (getProp shape "script")) "string"),
    (String.eqb (typeof (getProp shape "path")) "string"),
    (isValidColor (getProp shape "color"));
    cbn [negb orb andb app]; split; intros Hx; try reflexivity; discriminate Hx.
Qed.

Lemma validateShape_at_most_four (shape : JsVal) (i : nat) :
  List.length (validateShape shape i []) <= 4.
Proof.
  unfold validateShape, push.
  repeat match goal with
         | |- context [if ?b then _ else _] => destruct b
         end; cbn [app List.length]; lia.
Qed.

Lemma validateShapesFrom_app_errs (shapes : list JsVal) (i : nat) (errs : list string) :
  validateShapesFrom shapes i errs = (errs ++ validateShapesFrom shapes i [])%list.
Proof.
  revert i errs. induction shapes as [|shape rest IH]; intros i errs; cbn [validateShapesFrom].
  - now rewrite app_nil_r.
  - rewrite IH, (IH (S i) (validateShape shape i [])), validateShape_app.
    now rewrite app_assoc.
Qed.

Lemma validateShapesFrom_nil_iff (shapes : list JsVal) (i : nat) :
  validateShapesFrom shapes i [] = [] <-> forallb shapeComplete shapes = true.
Proof.
  revert i. induction shapes as [|shape rest IH]; intros i;
    cbn [validateShapesFrom forallb]; [tauto|].
  rewrite validateShapesFrom_app_errs, andb_true_iff, <- (IH (S i)),
    <- (validateShape_nil_iff shape i).
  split.
  - intros Happ. now apply app_eq_nil in Happ.
  - intros [-> ->]. reflexivity.
Qed.

Lemma validateShapesFrom_length (shapes : list JsVal) (i : nat) :
  List.length (validateShapesFrom shapes i []) <= 4 * List.length shapes.
Proof.
  revert i. induction shapes as [|shape rest IH]; intros i;
    cbn [validateShapesFrom List.length]; [lia|].
  rewrite validateShapesFrom_app_errs, length_app.
  pose proof (validateShape_at_most_four shape i). specialize (IH (S i)). lia.
Qed.

Lemma nil_test {A} (l : list A) :
  match l with [] => true | _ :: _ => false end = true <-> l = [].
Proof. destruct l; split; try reflexivity; discriminate. Qed.

Lemma valid_iff_no_errors (data : JsVal) :
  valid (validateMapData data) = true <-> errors (validateMapData data) = [].
Proof.
  unfold validateMapData.
  destruct (negb (truthy data) || negb (String.eqb (typeof data) "object"));
    cbn [valid errors]; [split; discriminate|].
  apply nil_test.
Qed.

Lemma validateMapData_valid_complete (data : JsVal) :
  valid (validateMapData data) = documentComplete data.
Proof.
  unfold validateMapData, documentComplete, dimensionsValid. cbv zeta.
  destruct (truthy data); [|reflexivity].
  destruct (String.eqb (typeof data) "object"); [|reflexivity].
  cbn [negb orb andb valid].
  generalize "backgroundImage.file: required and must be a string",
    "backgroundImage.width/height: must be positive numbers",
    "shapes: must be non-empty array".
  intros m0 m1 m2. unfold push.
  destruct (truthy (getProp data "backgroundImage")),
    (String.eqb (typeof (getProp (getProp data "backgroundImage") "file")) "string"),
    (isFinite (ToNumber (optProp (getProp data "backgroundImage") "width"))),
    (isFinite (ToNumber (optProp (getProp data "backgroundImage") "height"))),
    (PrimFloat.leb (ToNumber (optProp (getProp data "backgroundImage") "width")) 0),
    (PrimFloat.leb (ToNumber (optProp (getProp data "backgroundImage") "height")) 0);
    cbn [negb orb andb app];
    destruct (getProp data "shapes") as [| | b | f | s | [|shape rest] | fields];
    try reflexivity;
    try (rewrite validateShapesFrom_app_errs; reflexivity).
  cbn [app]. apply eq_iff_eq_true.
  now rewrite nil_test, validateShapesFrom_nil_iff.
Qed.

(** X4. [validateMapData] accepts exactly the complete documents: an
    object whose [backgroundImage] has a string [file] (the empty string
    included) and a width and height that coerce to finite numbers above
    zero, and whose [shapes] is a non-empty array in which every shape is
    an object with truthy [id], non-empty string [path] and [script], and a
    valid [color]. It reports valid exactly when it reports no error, and a
    value that is no object gets the single error of the first check. *)
Theorem validateMapData_accepts_exactly (data : JsVal) :
  valid (validateMapData data) = documentComplete data
  /\ (valid (validateMapData data) = true <-> errors (validateMapData data) = [])
  /\ (truthy data = false \/ typeof data <> "object" ->
      validateMapData data
      = {| valid := false; errors := ["Map data must be an object"] |}).
Proof.
  split; [apply validateMapData_valid_complete|split; [apply valid_iff_no_errors|]].
  - intros Hno. unfold validateMapData.
    destruct Hno as [Ht|Ht].
    + now rewrite Ht.
    + apply String.eqb_neq in Ht. rewrite Ht. now rewrite orb_true_r.
Qed.

End ValidationComplete.

(** ** Asset paths *)

Lemma includes_dotdot_slash (a b : string) :
  includes ".." (a ++ "/" ++ b) = includes ".." a || includes ".." b.
Proof.
  induction a as [|c a IH].
  - reflexivity.
  - change (String c a ++ "/" ++ b) with (String c (a ++ "/" ++ b)).
    cbn [includes]. rewrite IH, orb_assoc. f_equal. f_equal.
    destruct a as [|d a]; unfold startsWith; cbn [append prefix].
    + destruct (ascii_dec "." c); [|reflexivity].
      now destruct (ascii_dec "." "/").
    + destruct (ascii_dec "." c); [|reflexivity].
      destruct (ascii_dec "." d); [|reflexivity].
      now destruct a.
Qed.

Lemma validateAssetPath_Return (p : JsVal) (b : bool) :
  validateAssetPath p = Return b ->
  b = true /\ exists s, p = JStr s /\ s <> "" /\ includes ".." s = false.
Proof.
  unfold validateAssetPath. destruct p as [| | x | f | s | l | l]; try discriminate.
  cbn [truthy]. destruct (String.eqb s "") eqn:Es; [discriminate|]. cbn [negb].
  destruct (includes ".." s) eqn:Ed; [discriminate|]. cbn [orb].
  destruct (_ || _ || _); [discriminate|].
  destruct (isDrivePath s); [discriminate|].
  intros [= <-]. split; [reflexivity|]. exists s.
  apply String.eqb_neq in Es. auto.
Qed.

(** X5. [resolveAssetPath] throws exactly on the paths
    [validateAssetPath] refuses. A path it returns never contains [..]: it is
    the given path itself when that starts with [scripts/], and the given
    path under the extension's folder otherwise. *)
Theorem resolveAssetPath_safe (filePath : JsVal) :
  (throws (resolveAssetPath filePath) <-> RefusedPath filePath)
  /\ (forall resolved,
        resolveAssetPath filePath = Return resolved ->
        ~ Contains ".." resolved
        /\ exists s, filePath = JStr s
             /\ resolved = if startsWith "scripts/" s then s
                           else extensionFolderPath ++ "/" ++ s).
Proof.
  unfold resolveAssetPath. split.
  - rewrite <- validateAssetPath_throws_iff.
    destruct (validateAssetPath filePath) as [b|e] eqn:E; cbn [bind].
    + apply validateAssetPath_Return in E. destruct E as (_ & s & -> & _ & _).
      split; intros [e He]; [|discriminate].
      destruct (startsWith "scripts/" s); discriminate.
    + split; intros _; now exists e.
  - intros resolved.
    destruct (validateAssetPath filePath) as [b|e] eqn:E; cbn [bind]; [|discriminate].
    apply validateAssetPath_Return in E. destruct E as (_ & s & -> & _ & Hdots).
    intros Hres. split; [|exists s; split; [reflexivity|]].
    + rewrite <- includes_iff.
      destruct (startsWith "scripts/" s).
      * assert (Hr : resolved = s) by congruence. congruence.
      * assert (Hr : resolved = extensionFolderPath ++ "/" ++ s) by congruence.
        rewrite Hr, includes_dotdot_slash, Hdots. now vm_compute.
    + destruct (startsWith "scripts/" s); congruence.
Qed.

Lemma resolveAssetPath_refused (filePath : JsVal) :
  RefusedPath filePath -> throws (resolveAssetPath filePath).
Proof.
  intros Hr. apply validateAssetPath_throws_iff in Hr. destruct Hr as [e He].
  exists e. unfold resolveAssetPath. now rewrite He.
Qed.

(** ** Fetching *)

(** X6. [fetchJsonWithTimeout] never lets an [AbortError] out: a fetch
    rejected by the timer becomes an [Error] carrying the timeout message,
    any other rejection is passed on as it is, a decoded body is returned,
    a response that is not ok gives [null] or the HTTP error as the caller
    chose, and a body whose decoding rejects, the timer's abort included,
    is reported as a JSON parse error. *)
Theorem fetchJsonWithTimeout_outcomes (fetch : Network) (url : string)
    (treatNotOkAsEmpty : bool) (timeoutMessage : string) :
  let result := fetchJsonWithTimeout fetch url treatNotOkAsEmpty timeoutMessage in
  (forall e, result = Throw e -> errName e <> "AbortError")
  /\ (forall e, fetch url = Rejected e ->
        result = if String.eqb (errName e) "AbortError"
                 then Throw (Error timeoutMessage) else Throw e)
  /\ (forall status statusText data,
        fetch url = Response true status statusText (BodyJson data) ->
        result = Return data)
  /\ (forall status statusText body,
        fetch url = Response false status statusText body ->
        result = if treatNotOkAsEmpty then Return JNull
                 else Throw (Error ("HTTP " ++ showNat status ++ ": " ++ statusText)))
  /\ (forall status statusText e,
        fetch url = Response true status statusText (BodyRejected e) ->
        result = Throw (Error ("JSON parse error: " ++ errMessage e))).
Proof.
  intros result. subst result. unfold fetchJsonWithTimeout.
  split; [|split; [|split; [|split]]].
  - intros e.
    destruct (fetch url) as [e0|[] status statusText [data|e0]]; cbn [tryCatch negb].
    + destruct (String.eqb (errName e0) "AbortError") eqn:E.
      * intros [= <-]. discriminate.
      * intros [= <-]. now apply String.eqb_neq.
    + discriminate.
    + intros [= <-]. discriminate.
    + destruct treatNotOkAsEmpty; cbn [tryCatch]; [discriminate|].
      intros [= <-]. discriminate.
    + destruct treatNotOkAsEmpty; cbn [tryCatch]; [discriminate|].
      intros [= <-]. discriminate.
  - intros e ->. reflexivity.
  - intros status statusText data ->. reflexivity.
  - intros status statusText body ->. cbn [negb].
    now destruct treatNotOkAsEmpty.
  - intros status statusText e ->. reflexivity.
Qed.

(** ** Loading, further *)

Section LoaderFurther.
Context `{Runtime}.
Variable cfg : MapSettings.

Lemma cacheGet_set_same (key : string) (data : JsVal) (c : MapCache) :
  cacheGet key (cacheSet key data c) = Some data.
Proof.
  unfold cacheGet. induction c as [|[k v] c IH]; cbn [cacheSet find fst snd].
  - now rewrite String.eqb_refl.
  - destruct (String.eqb k key) eqn:E; cbn [find fst snd]; rewrite E; [reflexivity|].
    exact IH.
Qed.

Lemma fetchValidated_string (fetch : Network) (mapName data : JsVal) :
  fetchValidated fetch mapName = Return data ->
  exists key, mapName = JStr key /\ validateAssetPath (JStr key) = Return true.
Proof.
  intros Hf. apply fetchValidated_Return in Hf. destruct Hf as (Hp & _ & _).
  destruct (validateAssetPath_Return _ _ Hp) as (_ & key & -> & _ & _).
  now exists key.
Qed.

(** X7. A document that [loadMapData] returned is served from the cache
    from then on: the same call again returns the same document whatever
    the network does, and leaves the store as it is. *)
Theorem loadMapData_then_cached (fetch : Network) (mapName data : JsVal) (st : Store) :
  fst (loadMapData cfg fetch mapName st) = Return data ->
  forall fetch',
    loadMapData cfg fetch' mapName (snd (loadMapData cfg fetch mapName st))
    = (Return data, snd (loadMapData cfg fetch mapName st)).
Proof.
  intros Hret fetch'.
  assert (Hfirst :
    (match mapName with JStr key => cacheGet key (mapCache st) | _ => None end = Some data
     /\ loadMapData cfg fetch mapName st = (Return data, st))
    \/ exists key, mapName = JStr key
         /\ loadMapData cfg fetch mapName st
            = (Return data, setCache (cacheInsert cfg key data (mapCache st)) st)).
  { unfold loadMapData in Hret |- *.
    destruct (match mapName with JStr key => cacheGet key (mapCache st) | _ => None end)
      as [cached|] eqn:Ehit; cbn [fst] in Hret.
    - left. split; congruence.
    - destruct (fetchValidated fetch mapName) as [d|e] eqn:Ef; cbn [fst] in Hret;
        [|discriminate].
      destruct (fetchValidated_string _ _ _ Ef) as (key & -> & _).
      right. exists key. split; [reflexivity|]. cbn [ToString]. congruence. }
  destruct Hfirst as [[Hhit Hfirst]|(key & -> & Hfirst)]; rewrite Hfirst; cbn [snd].
  - unfold loadMapData. now rewrite Hhit.
  - unfold loadMapData. cbn [setCache mapCache]. unfold cacheInsert.
    now rewrite cacheGet_set_same.
Qed.

(** X8. What [loadMapData] does to the rest of the state: a call that
    throws records the thrown error in [lastError] and changes nothing
    else; a call that returns leaves [extensionState], an earlier
    [lastError] included, as it was; a cache hit changes nothing at all and
    does not depend on the network. *)
Theorem loadMapData_state (fetch : Network) (mapName : JsVal) (st : Store) :
  (forall e, fst (loadMapData cfg fetch mapName st) = Throw e ->
             snd (loadMapData cfg fetch mapName st) = setLastError e st)
  /\ (forall data, fst (loadMapData cfg fetch mapName st) = Return data ->
                   extensionState (snd (loadMapData cfg fetch mapName st))
                   = extensionState st)
  /\ (forall key data, mapName = JStr key -> cacheGet key (mapCache st) = Some data ->
                       forall fetch', loadMapData cfg fetch' mapName st = (Return data, st)).
Proof.
  split; [|split].
  - intros e. unfold loadMapData.
    destruct (match mapName with JStr key => cacheGet key (mapCache st) | _ => None end);
      cbn [fst snd]; [discriminate|].
    destruct (fetchValidated fetch mapName); cbn [fst snd]; [discriminate|].
    now intros [= ->].
  - intros data. unfold loadMapData.
    destruct (match mapName with JStr key => cacheGet key (mapCache st) | _ => None end);
      cbn [fst snd]; [reflexivity|].
    destruct (fetchValidated fetch mapName); cbn [fst snd]; [reflexivity|discriminate].
  - intros key data -> Hhit fetch'. unfold loadMapData. now rewrite Hhit.
Qed.

(** Every key of a reachable cache is a path [validateAssetPath] accepts. *)
Lemma Reachable_keys_accepted (st : Store) :
  Reachable cfg st ->
  forall key, In key (cacheKeys (mapCache st)) -> validateAssetPath (JStr key) = Return true.
Proof.
  induction 1 as [| fetch mapName st _ IH | st _ IH | fetch st _ IH]; intros key Hkey.
  - destruct Hkey.
  - unfold loadMapData in Hkey.
    destruct (match mapName with JStr k => cacheGet k (mapCache st) | _ => None end);
      cbn [snd] in Hkey; [now apply IH|].
    destruct (fetchValidated fetch mapName) as [d|e] eqn:Ef; cbn [snd] in Hkey;
      [|now apply IH].
    destruct (fetchValidated_string _ _ _ Ef) as (k & -> & Hk).
    cbn [ToString setCache mapCache] in Hkey. unfold cacheInsert in Hkey.
    rewrite cacheKeys_set in Hkey.
    assert (Hsub : forall c',
      (forall x, In x (cacheKeys c') -> In x (cacheKeys (mapCache st))) ->
      In key (if cacheHas k c' then cacheKeys c' else (cacheKeys c' ++ [k])%list) ->
      validateAssetPath (JStr key) = Return true).
    { intros c' Hc' Hin. destruct (cacheHas k c'); [now apply IH, Hc'|].
      apply in_app_or in Hin. destruct Hin as [Hin|[<-|[]]]; [now apply IH, Hc' | exact Hk]. }
    destruct (maxMapCache cfg <=? List.length (mapCache st))%nat;
      [|now apply (Hsub _ (fun x Hx => Hx))].
    destruct (firstKey (mapCache st)); [|now apply (Hsub _ (fun x Hx => Hx))].
    apply (Hsub (cacheDelete s (mapCache st))); [|exact Hkey].
    intros x Hx. rewrite cacheKeys_delete in Hx. now apply filter_In in Hx.
  - destruct Hkey.
  - rewrite discoverAvailableMaps_cache in Hkey. now apply IH.
Qed.

(** X9. In a reachable store every cache key is a safe path, and a name
    [validateAssetPath] refuses is turned down before the network is asked:
    [loadMapData] throws the validation error and records it, with the same
    outcome under every network. *)
Theorem loadMapData_refuses_before_fetch (mapName : JsVal) (st : Store) :
  Reachable cfg st ->
  RefusedPath mapName ->
  (forall key, In key (cacheKeys (mapCache st)) ->
               validateAssetPath (JStr key) = Return true)
  /\ exists e,
       validateAssetPath mapName = Throw e
       /\ forall fetch, loadMapData cfg fetch mapName st = (Throw e, setLastError e st).
Proof.
  intros Hreach Hrefused.
  split; [now apply Reachable_keys_accepted|].
  apply validateAssetPath_throws_iff in Hrefused. destruct Hrefused as [e He].
  exists e. split; [exact He|]. intros fetch. unfold loadMapData.
  assert (Hmiss : match mapName with
                  | JStr key => cacheGet key (mapCache st)
                  | _ => None
                  end = None).
  { destruct mapName as [| | b | f | key | l | l]; try reflexivity.
    apply cacheGet_None_iff. intros Hin.
    apply (Reachable_keys_accepted st Hreach) in Hin. congruence. }
  rewrite Hmiss. unfold fetchValidated. now rewrite He.
Qed.

End LoaderFurther.

Lemma loadMapData_then_cached_witness :
  @loadMapData exampleRuntime mapSettings (fun _ => Rejected AbortError) (JStr "city.json")
    (snd (@loadMapData exampleRuntime mapSettings cityNetwork (JStr "city.json")
            initialStore))
  = (Return docCity,
     snd (@loadMapData exampleRuntime mapSettings cityNetwork (JStr "city.json")
            initialStore)).
Proof.
  apply (@loadMapData_then_cached exampleRuntime mapSettings cityNetwork
           (JStr "city.json") docCity initialStore).
  vm_compute. reflexivity.
Defined.

Lemma loadMapData_refuses_before_fetch_witness :
  exists e,
    validateAssetPath (JStr "../secret.json") = Throw e
    /\ forall fetch,
         @loadMapData exampleRuntime mapSettings fetch (JStr "../secret.json") initialStore
         = (Throw e, setLastError e initialStore).
Proof.
  apply (@loadMapData_refuses_before_fetch exampleRuntime mapSettings
           (JStr "../secret.json") initialStore).
  - apply reach_initial.
  - right. left. exists "", "/secret.json". reflexivity.
Defined.

(** ** Listing discovery, further *)

Section DiscoveryFurther.
Context `{Runtime}.
Variable cfg : MapSettings.

(** X10. A listing that is a non-empty array, bare or under [maps], is
    returned and stored in [extensionState.availableMaps] as it is, entries
    unchecked. Whatever the fetch does, the value returned is the value
    stored, it has a positive [length], and the call touches nothing but
    [availableMaps]: the cache, the current map, the loaded flag and the
    last error stay. *)
Theorem discoverAvailableMaps_effects (fetch : Network) (st : Store) :
  let result := discoverAvailableMaps cfg fetch st in
  (forall status statusText first rest,
      fetch (extensionFolderPath ++ "/index.json")
      = Response true status statusText (BodyJson (JArr (first :: rest))) ->
      fst result = Return (JArr (first :: rest))
      /\ availableMaps (extensionState (snd result)) = JArr (first :: rest))
  /\ (forall status statusText fields first rest,
        fetch (extensionFolderPath ++ "/index.json")
        = Response true status statusText (BodyJson (JObj fields)) ->
        getProp (JObj fields) "maps" = JArr (first :: rest) ->
        fst result = Return (JArr (first :: rest))
        /\ availableMaps (extensionState (snd result)) = JArr (first :: rest))
  /\ (exists maps,
        fst result = Return maps
        /\ availableMaps (extensionState (snd result)) = maps
        /\ lengthPositive maps = Return true)
  /\ mapCache (snd result) = mapCache st
  /\ currentLoadedMap (extensionState (snd result)) = currentLoadedMap (extensionState st)
  /\ isMapLoaded (extensionState (snd result)) = isMapLoaded (extensionState st)
  /\ lastError (extensionState (snd result)) = lastError (extensionState st).
Proof.
  intros result. subst result.
  pose proof (discoverAvailableMaps_stores cfg fetch st) as (maps & Hr & Hs & Hp).
  split; [|split; [|split]].
  - intros status statusText first rest Hf.
    pose proof (discoverAvailableMaps_offered cfg fetch st _ _ _ _ Hf
                  (offers_array _) (nonempty_array first rest)) as Hl.
    split; [exact Hl | congruence].
  - intros status statusText fields first rest Hf Hmaps.
    pose proof (offers_maps fields) as Ho. rewrite Hmaps in Ho.
    pose proof (discoverAvailableMaps_offered cfg fetch st _ _ _ _ Hf
                  Ho (nonempty_array first rest)) as Hl.
    split; [exact Hl | congruence].
  - now exists maps.
  - unfold discoverAvailableMaps.
    match goal with |- context [match ?c with Return _ => _ | Throw _ => _ end] =>
      destruct c end; repeat split; reflexivity.
Qed.

End DiscoveryFurther.

(** ** Map selection, further *)

Section ResolverFurther.

Lemma findMatch_strings (search : string) (maps : list string) :
  findMatch search (map JStr maps) = Return None
  \/ exists entry,
       findMatch search (map JStr maps) = Return (Some entry)
       /\ In entry maps /\ nameMatches search (toLowerCase entry) = true.
Proof.
  induction maps as [|x maps IH]; cbn [map findMatch]; [now left|].
  destruct (nameMatches search (toLowerCase x)) eqn:E.
  - right. exists x. repeat split; [now left | exact E].
  - destruct IH as [IH|(entry & IH & Hin & Hm)]; [now left|].
    right. exists entry. repeat split; [exact IH | now right | exact Hm].
Qed.

Lemma findMatch_some_match (search : string) (maps : list string) (x : string) :
  In x maps -> nameMatches search (toLowerCase x) = true ->
  exists entry,
    findMatch search (map JStr maps) = Return (Some entry)
    /\ In entry maps /\ nameMatches search (toLowerCase entry) = true.
Proof.
  intros Hin Hx.
  destruct (findMatch_strings search maps) as [Hnone|Hsome]; [|exact Hsome].
  exfalso. induction maps as [|y maps IH]; [destruct Hin|].
  cbn [map findMatch] in Hnone.
  destruct (nameMatches search (toLowerCase y)) eqn:E; [discriminate|].
  destruct Hin as [->|Hin]; [congruence | now apply IH].
Qed.

Lemma toLowerCase_empty (s : string) : toLowerCase s = "" -> s = "".
Proof. destruct s; [reflexivity | discriminate]. Qed.

Lemma Matches_nonempty (term entry : string) :
  term <> "" -> Matches term entry -> entry <> "".
Proof.
  intros Hterm Hm ->. unfold Matches in Hm. cbn [toLowerCase] in Hm.
  destruct Hm as [Hm|[Hm|[[front Hm]|[front Hm]]]].
  - symmetry in Hm. now apply toLowerCase_empty in Hm.
  - destruct (toLowerCase term); discriminate.
  - destruct front; discriminate.
  - destruct front; discriminate.
Qed.

(** X11. With a list of known maps that holds strings only, [resolveMapPath]
    neither throws nor returns [null] for a non-empty term: it returns a
    non-empty name that is an entry of the list or ends with [.json], letter
    case apart. *)
Theorem resolveMapPath_total (st : Store) (maps : list string) (term : string) :
  availableMaps (extensionState st) = JArr (map JStr maps) ->
  term <> "" ->
  exists path,
    resolveMapPath st term = Return (Some path)
    /\ path <> ""
    /\ (In path maps \/ endsWith ".json" (toLowerCase path) = true).
Proof.
  intros Hmaps Hterm. apply String.eqb_neq in Hterm.
  unfold resolveMapPath, findMapByName. rewrite Hterm, Hmaps.
  cbn [truthy negb orb].
  assert (Hfallback : exists path,
    Return (Some (if negb (endsWith ".json" (toLowerCase (trim term)))
                  then trim term ++ ".json" else trim term))
    = Return (A:=option string) (Some path)
    /\ path <> ""
    /\ (In path maps \/ endsWith ".json" (toLowerCase path) = true)).
  { destruct (endsWith ".json" (toLowerCase (trim term))) eqn:E; cbn [negb];
      eexists; (split; [reflexivity|]); split.
    - intros Hempty. rewrite Hempty in E. discriminate.
    - now right.
    - destruct (trim term); discriminate.
    - right. rewrite toLowerCase_app. apply endsWith_iff. now eexists. }
  destruct (lengthIsZero (JArr (map JStr maps))); [exact Hfallback|].
  destruct (findMatch_strings (toLowerCase (trim term)) maps)
    as [Hnone|(entry & Hsome & Hin & Hm)].
  - rewrite Hnone. exact Hfallback.
  - rewrite Hsome. cbn [bind].
    destruct (String.eqb entry "") eqn:Ee; [exact Hfallback|].
    exists entry. apply String.eqb_neq in Ee. auto.
Qed.

(** X12. An entry of the known-maps list that is no string makes
    [resolveMapPath] throw a [TypeError] as soon as the search reaches it,
    that is when no string entry before it matches the term. *)
Theorem resolveMapPath_non_string_entry (st : Store) (before : list string)
    (bad : JsVal) (after : list JsVal) (term : string) :
  availableMaps (extensionState st) = JArr (map JStr before ++ bad :: after)%list ->
  (forall s, bad <> JStr s) ->
  (forall x, In x before -> ~ Matches (trim term) x) ->
  term <> "" ->
  exists e, resolveMapPath st term = Throw e /\ errName e = "TypeError".
Proof.
  intros Hmaps Hbad Hbefore Hterm. apply String.eqb_neq in Hterm.
  unfold resolveMapPath, findMapByName. rewrite Hterm, Hmaps.
  assert (Hnz : lengthIsZero (JArr (map JStr before ++ bad :: after)%list) = false)
    by now destruct before.
  rewrite Hnz. cbn [truthy negb orb].
  assert (Hfind : exists e,
    findMatch (toLowerCase (trim term)) (map JStr before ++ bad :: after)%list = Throw e
    /\ errName e = "TypeError").
  { clear Hmaps Hnz.
    induction before as [|x before IH]; cbn [map app findMatch].
    - destruct bad; try (eexists; split; reflexivity). now contradiction (Hbad s).
    - assert (Hx : nameMatches (toLowerCase (trim term)) (toLowerCase x) = false)
        by (apply nameMatches_false_iff, Hbefore; now left).
      rewrite Hx. apply IH. intros y Hy. apply Hbefore. now right. }
  destruct Hfind as (e & -> & He). now exists e.
Qed.

End ResolverFurther.

Lemma resolveMapPath_total_witness :
  exists path,
    resolveMapPath (storeWithMaps knownMaps) "  Castle " = Return (Some path)
    /\ path <> ""
    /\ (In path knownMaps \/ endsWith ".json" (toLowerCase path) = true).
Proof.
  apply (resolveMapPath_total (storeWithMaps knownMaps) knownMaps "  Castle ").
  - reflexivity.
  - discriminate.
Defined.

Lemma resolveMapPath_non_string_entry_witness :
  exists e,
    resolveMapPath
      (setAvailableMaps (JArr [JStr "maps/city.json"; JNull; JStr "maps/port.json"])
         initialStore) "port"
    = Throw e /\ errName e = "TypeError".
Proof.
  apply (resolveMapPath_non_string_entry
           (setAvailableMaps (JArr [JStr "maps/city.json"; JNull; JStr "maps/port.json"])
              initialStore)
           ["maps/city.json"] JNull [JStr "maps/port.json"] "port").
  - reflexivity.
  - discriminate.
  - intros x [<-|[]] Hm. apply nameMatches_iff in Hm. vm_compute in Hm. discriminate.
  - discriminate.
Defined.

(** ** Map labels *)

Section Labels.

Lemma prefix_empty (s : string) : String.prefix "" s = true.
Proof. now destruct s. Qed.

Lemma startsWith_char (c d : ascii) (s : string) :
  startsWith (String c "") (String d s) = Ascii.eqb c d.
Proof.
  unfold startsWith. cbn [prefix]. rewrite prefix_empty.
  destruct (ascii_dec c d) as [->|Hne].
  - now rewrite Ascii.eqb_refl.
  - symmetry. now apply Ascii.eqb_neq.
Qed.

Lemma includes_char_app (c : ascii) (a b : string) :
  includes (String c "") (a ++ b) = includes (String c "") a || includes (String c "") b.
Proof.
  induction a as [|d a IH]; [reflexivity|].
  change (String d a ++ b) with (String d (a ++ b)).
  cbn [includes]. now rewrite IH, !startsWith_char, orb_assoc.
Qed.

Lemma fileName_without_slash (path : string) :
  includes "/" path = false -> fileName path = path.
Proof.
  intros Hp. destruct path as [|c path]; [reflexivity|].
  cbn [fileName]. now rewrite Hp.
Qed.

Lemma fileName_after_slash (dir file : string) :
  includes "/" file = false -> fileName (dir ++ "/" ++ file) = file.
Proof.
  intros Hfile. induction dir as [|c dir IH].
  - change ("" ++ "/" ++ file) with (String "/" file).
    cbn [fileName includes]. rewrite startsWith_char. cbn [Ascii.eqb Bool.eqb orb].
    now apply fileName_without_slash.
  - change (String c dir ++ "/" ++ file) with (String c (dir ++ "/" ++ file)).
    cbn [fileName].
    assert (Hs : includes "/" (String c (dir ++ "/" ++ file)) = true).
    { apply includes_iff. exists (String c dir), file. reflexivity. }
    now rewrite Hs.
Qed.

Lemma fileName_has_no_slash (path : string) : includes "/" (fileName path) = false.
Proof.
  induction path as [|c path IH]; [reflexivity|].
  cbn [fileName]. destruct (includes "/" (String c path)) eqn:E; [exact IH | exact E].
Qed.

Lemma substring_prefix (n : nat) (s : string) :
  exists rest, s = substring 0 n s ++ rest.
Proof.
  revert s. induction n as [|n IH]; intros s.
  - exists s. now destruct s.
  - destruct s as [|c s]; [now exists ""|].
    destruct (IH s) as [rest Hrest]. exists rest. cbn [substring append]. now f_equal.
Qed.

Lemma substring_app_left (a b : string) : substring 0 (String.length a) (a ++ b) = a.
Proof.
  induction a as [|c a IH]; cbn [String.length append substring].
  - now destruct b.
  - now rewrite IH.
Qed.

Lemma length_append (a b : string) :
  String.length (a ++ b) = String.length a + String.length b.
Proof. induction a as [|c a IH]; cbn [append String.length]; [reflexivity | now rewrite IH]. Qed.

Lemma string_app_assoc (a b c : string) : (a ++ b) ++ c = a ++ b ++ c.
Proof. induction a as [|x a IH]; cbn [append]; [reflexivity | now rewrite IH]. Qed.

Lemma toLowerCase_length (s : string) : String.length (toLowerCase s) = String.length s.
Proof. induction s as [|c s IH]; cbn [toLowerCase String.length]; [reflexivity | now rewrite IH]. Qed.

Lemma lowerChar_slash (c : ascii) : Ascii.eqb "/" (lowerChar c) = Ascii.eqb "/" c.
Proof. destruct c as [[] [] [] [] [] [] [] []]; reflexivity. Qed.

Lemma includes_slash_toLowerCase (s : string) :
  includes "/" (toLowerCase s) = includes "/" s.
Proof.
  induction s as [|c s IH]; [reflexivity|].
  cbn [toLowerCase includes]. now rewrite IH, !startsWith_char, lowerChar_slash.
Qed.

Lemma sliceOffEnd_extension (name ext : string) :
  String.length ext = 5 -> sliceOffEnd 5 (name ++ ext) = name.
Proof.
  intros Hlen. unfold sliceOffEnd. rewrite length_append, Hlen.
  replace (String.length name + 5 - 5) with (String.length name) by lia.
  apply substring_app_left.
Qed.

Lemma getMapLabel_of_file (name ext : string) :
  toLowerCase ext = ".json" -> includes "/" name = false ->
  getMapLabel (name ++ ext) = name.
Proof.
  intros Hext Hname. unfold getMapLabel.
  assert (Hlen : String.length ext = 5)
    by (rewrite <- toLowerCase_length, Hext; reflexivity).
  assert (Hne : String.eqb (name ++ ext) "" = false).
  { apply String.eqb_neq. intros Hempty.
    apply (f_equal String.length) in Hempty. rewrite length_append, Hlen in Hempty.
    cbn [String.length] in Hempty. lia. }
  assert (Hslash : includes "/" (name ++ ext) = false).
  { rewrite includes_char_app, Hname, <- includes_slash_toLowerCase, Hext. reflexivity. }
  rewrite Hne, Hslash.
  assert (Hends : endsWith ".json" (toLowerCase (name ++ ext)) = true).
  { rewrite toLowerCase_app, Hext. apply endsWith_iff. now eexists. }
  rewrite Hends. now apply sliceOffEnd_extension.
Qed.

Lemma getMapLabel_of_path (dir name ext : string) :
  toLowerCase ext = ".json" -> includes "/" name = false ->
  getMapLabel (dir ++ "/" ++ name ++ ext) = name.
Proof.
  intros Hext Hname. unfold getMapLabel.
  assert (Hlen : String.length ext = 5)
    by (rewrite <- toLowerCase_length, Hext; reflexivity).
  assert (Hne : String.eqb (dir ++ "/" ++ name ++ ext) "" = false).
  { apply String.eqb_neq. intros Hempty.
    apply (f_equal String.length) in Hempty. rewrite !length_append in Hempty.
    cbn [String.length] in Hempty. lia. }
  assert (Hslash : includes "/" (dir ++ "/" ++ name ++ ext) = true).
  { apply includes_iff. now exists dir, (name ++ ext). }
  assert (Hfile : includes "/" (name ++ ext) = false).
  { rewrite includes_char_app, Hname, <- includes_slash_toLowerCase, Hext. reflexivity. }
  rewrite Hne, Hslash, fileName_after_slash by exact Hfile.
  assert (Hends : endsWith ".json" (toLowerCase (name ++ ext)) = true).
  { rewrite toLowerCase_app, Hext. apply endsWith_iff. now eexists. }
  rewrite Hends. now apply sliceOffEnd_extension.
Qed.

(** X13. [getMapLabel] of a path is its file name less a final [.json]
    in any letter case: for a name without a slash, the label of [name.json]
    and of [dir/name.json], however deep [dir], is [name]. A label never
    contains a slash, and the empty path is labelled [Unknown]. *)
Theorem getMapLabel_names (dir name ext : string) :
  toLowerCase ext = ".json" ->
  includes "/" name = false ->
  getMapLabel (name ++ ext) = name
  /\ getMapLabel (dir ++ "/" ++ name ++ ext) = name
  /\ (forall path, includes "/" (getMapLabel path) = false)
  /\ getMapLabel "" = "Unknown".
Proof.
  intros Hext Hname.
  split; [now apply getMapLabel_of_file|].
  split; [now apply getMapLabel_of_path|].
  split; [|reflexivity].
  intros path. unfold getMapLabel.
  destruct (String.eqb path ""); [reflexivity|].
  assert (Hfile : includes "/" (if includes "/" path then fileName path else path) = false).
  { destruct (includes "/" path) eqn:E; [apply fileName_has_no_slash | exact E]. }
  destruct (endsWith ".json" _); [|exact Hfile].
  unfold sliceOffEnd.
  destruct (includes "/" (substring 0 _ _)) eqn:E; [|reflexivity].
  apply includes_iff in E. destruct E as (a & b & Hab).
  match type of Hab with substring 0 ?n ?s = _ =>
    destruct (substring_prefix n s) as [rest Hrest] end.
  rewrite Hab in Hrest.
  assert (Hc : includes "/" (if includes "/" path then fileName path else path) = true).
  { apply includes_iff. exists a, (b ++ rest). rewrite Hrest at 1.
    now rewrite !string_app_assoc. }
  congruence.
Qed.

(** X14. The label of a known map leads back to a known map: when the list
    of known maps holds an entry [name.json] or [dir/name.json], with [name]
    non-empty, free of slashes and of white space at its ends, and the
    entry matches [name] under [findMapByName]'s comparison (lower-cased, the
    entry is the lower-cased name with [.json], alone or after a slash),
    [resolveMapPath] of that entry's label returns an entry of the list that
    matches [name], never the fallback path. The comparison is a premise:
    lower-casing a name inside an entry and on its own agree on the
    characters of this development, and need not agree elsewhere (a capital
    sigma is lower-cased by its place in the word). *)
Theorem getMapLabel_resolves (st : Store) (maps : list string)
    (entry dir name ext : string) :
  availableMaps (extensionState st) = JArr (map JStr maps) ->
  In entry maps ->
  entry = name ++ ext \/ entry = dir ++ "/" ++ name ++ ext ->
  toLowerCase ext = ".json" ->
  includes "/" name = false ->
  name <> "" ->
  trim name = name ->
  Matches name entry ->
  getMapLabel entry = name
  /\ exists found,
       resolveMapPath st (getMapLabel entry) = Return (Some found)
       /\ In found maps /\ Matches name found.
Proof.
  intros Hmaps Hin Hentry Hext Hname Hne Htrim Hmatch.
  assert (Hlabel : getMapLabel entry = name).
  { destruct Hentry as [->| ->];
      [now apply getMapLabel_of_file | now apply getMapLabel_of_path]. }
  split; [exact Hlabel|].
  rewrite Hlabel. unfold resolveMapPath, findMapByName.
  apply String.eqb_neq in Hne. rewrite Hne, Hmaps, Htrim.
  assert (Hnz : lengthIsZero (JArr (map JStr maps)) = false)
    by (destruct maps; [destruct Hin | reflexivity]).
  rewrite Hnz. cbn [truthy negb orb].
  destruct (findMatch_some_match (toLowerCase name) maps entry Hin)
    as (found & Hfound & Hfin & Hfm); [now apply nameMatches_iff|].
  rewrite Hfound. cbn [bind]. apply nameMatches_iff in Hfm.
  apply String.eqb_neq in Hne.
  pose proof (Matches_nonempty name found Hne Hfm) as Hnonempty.
  apply String.eqb_neq in Hnonempty. rewrite Hnonempty.
  now exists found.
Qed.

End Labels.

Lemma getMapLabel_names_witness :
  getMapLabel "Main.JSON" = "Main"
  /\ getMapLabel "dungeons/city/Main.JSON" = "Main".
Proof.
  pose proof (getMapLabel_names "dungeons/city" "Main" ".JSON" eq_refl eq_refl)
    as (Hfile & Hpath & _).
  split; [exact Hfile | exact Hpath].
Defined.

Lemma getMapLabel_resolves_witness :
  Matches "city" "maps/city.json"
  /\ exists found,
       resolveMapPath (storeWithMaps knownMaps) (getMapLabel "maps/city.json")
       = Return (Some found)
       /\ In found knownMaps /\ Matches "city" found.
Proof.
  assert (Hm : Matches "city" "maps/city.json").
  { right. right. right. exists "maps". reflexivity. }
  split; [exact Hm|].
  apply (getMapLabel_resolves (storeWithMaps knownMaps) knownMaps
           "maps/city.json" "maps" "city" ".json");
    try reflexivity.
  - right. now left.
  - now right.
  - discriminate.
  - exact Hm.
Defined.

(** ** Media overlays, further *)

Section MediaFurther.

Ltac plain_world w :=
  destruct w as [a i ib v vb open allowed listener notes];
  destruct a as [[asrc apaused atime [|]]|];
  destruct i as [[isrc idisplay [|] iwin]|];
  destruct ib as [[bdisplay [|] bwin]|];
  destruct v as [[vsrc vpaused vdisplay vmuted vloop vauto [|] vwin]|];
  destruct vb as [[cdisplay [|] cwin]|].

Ltac coherent :=
  unfold overlaysCoherent, windowInBody, controlsPresent in *;
  cbn [mapImageElement mapImageCloseButton mapVideoElement mapVideoCloseButton
       withImage withImageButton withVideo withVideoButton withResizeListener
       withAudio notify imgInWindow imgInBody btnInWindow btnInBody vidInWindow
       vidInBody isSome implb andb setDisplay appendButton newImage newVideo
       newButton setVideoDisplay unloadVideo fst snd negb
       getOrCreateMapImageElement getOrCreateMapVideoElement mapWindowOpen
       stop stopCurrentMapImage stopCurrentMapVideo vidSrc] in *;
  rewrite ?andb_true_iff in *;
  intuition (try discriminate; try reflexivity).

Lemma includes_dotdot_trimStart (s : string) :
  includes ".." s = true -> includes ".." (trimStart s) = true.
Proof.
  induction s as [|c s IH]; [discriminate|].
  cbn [trimStart]. destruct (isWhiteSpace c) eqn:Ec; [|trivial].
  cbn [includes]. rewrite orb_true_iff. intros [Hp|Hs]; [|now apply IH].
  exfalso. apply startsWith_iff in Hp. destruct Hp as [rest Hrest].
  cbn [append] in Hrest. injection Hrest as -> _. discriminate Ec.
Qed.

Lemma trimEnd_cons (c : ascii) (s : string) :
  trimEnd (String c s)
  = match trimEnd s with
    | EmptyString => if isWhiteSpace c then EmptyString else String c EmptyString
    | kept => String c kept
    end.
Proof. reflexivity. Qed.

Lemma includes_dotdot_trimEnd (s : string) :
  includes ".." s = true -> includes ".." (trimEnd s) = true.
Proof.
  induction s as [|c s IH]; [discriminate|].
  cbn [includes]. rewrite orb_true_iff. intros [Hp|Hs].
  - apply startsWith_iff in Hp. destruct Hp as [rest Hrest].
    cbn [append] in Hrest. injection Hrest as -> ->.
    destruct (trimEnd_head "." rest eq_refl) as [kept Hk].
    rewrite trimEnd_cons, Hk. apply includes_iff. now exists "", kept.
  - specialize (IH Hs). cbn [trimEnd].
    destruct (trimEnd s) as [|d kept]; [discriminate IH|].
    cbn [includes]. cbn [includes] in IH. rewrite IH. apply orb_true_r.
Qed.

Lemma includes_dotdot_mediaPath (folder : string) (extensions : list string)
    (defaultExtension s : string) :
  includes ".." s = true ->
  includes ".." (mediaPath folder extensions defaultExtension s) = true.
Proof.
  intros Hs. unfold mediaPath.
  assert (Ht : Contains ".." (trim s)).
  { apply includes_iff. unfold trim.
    now apply includes_dotdot_trimEnd, includes_dotdot_trimStart. }
  apply includes_iff. destruct Ht as (a & b & Ht). rewrite Ht.
  destruct (negb (startsWith folder _)); destruct (negb (existsb _ _));
    unfold Contains.
  - exists (folder ++ a), (b ++ defaultExtension). now rewrite !string_app_assoc.
  - exists (folder ++ a), b. now rewrite !string_app_assoc.
  - exists a, (b ++ defaultExtension). now rewrite !string_app_assoc.
  - now exists a, b.
Qed.

Lemma validateAssetPath_dotdot (path : string) :
  includes ".." path = true ->
  validateAssetPath (JStr path) = Throw (Error ("Invalid file path: " ++ path)).
Proof.
  intros Hp. unfold validateAssetPath, truthy.
  destruct (String.eqb path "") eqn:E.
  - apply String.eqb_eq in E. subst. discriminate.
  - now rewrite Hp.
Qed.

Lemma mediaSource_dotdot (folder : string) (extensions : list string)
    (defaultExtension s : string) :
  includes ".." s = true ->
  mediaSource folder extensions defaultExtension (JStr s)
  = Throw (Error ("Invalid file path: "
                  ++ mediaPath folder extensions defaultExtension s)).
Proof.
  intros Hs. unfold mediaSource.
  now rewrite validateAssetPath_dotdot by now apply includes_dotdot_mediaPath.
Qed.

(** X15. A media name that contains [..] starts nothing: each of
    [playMapSound], [showMapImage] and [playMapVideo] only reports the
    refused path, and every element, button and overlay state is what it
    was. *)
Theorem media_refuses_traversal (s : string) (opts : VideoOptions) (w : World) :
  includes ".." s = true ->
  playMapSound (JStr s) w
  = notify ("Audio error: Invalid file path: "
            ++ mediaPath "sounds/" audioExtensions ".mp3" s) w
  /\ showMapImage (JStr s) w
     = notify ("Image error: Invalid file path: "
               ++ mediaPath "images/" imageExtensions ".png" s) w
  /\ playMapVideo (JStr s) opts w
     = notify ("Video error: Invalid file path: "
               ++ mediaPath "movies/" videoExtensions ".mp4" s) w
  /\ (forall msg kind,
        overlayState kind (notify msg w) = overlayState kind w
        /\ closeControlVisible kind (notify msg w) = closeControlVisible kind w).
Proof.
  intros Hs.
  assert (Htruthy : truthy (JStr s) = true).
  { cbn [truthy]. destruct s; [discriminate | reflexivity]. }
  unfold playMapSound, showMapImage, playMapVideo.
  rewrite Htruthy, !mediaSource_dotdot by exact Hs. cbn [negb errMessage Error].
  repeat split; destruct kind; reflexivity.
Qed.

Lemma mediaPath_in_folder (folder : string) (extensions : list string)
    (defaultExtension s : string) :
  toLowerCase folder = folder ->
  toLowerCase defaultExtension = defaultExtension ->
  In defaultExtension extensions ->
  let path := toLowerCase (mediaPath folder extensions defaultExtension s) in
  startsWith folder path = true
  /\ existsb (fun ext => endsWith ext path) extensions = true.
Proof.
  intros Hfolder Hext Hin. unfold mediaPath. cbv zeta.
  set (rp := if negb (startsWith folder (toLowerCase (trim s)))
             then folder ++ trim s else trim s).
  assert (Hrp : startsWith folder (toLowerCase rp) = true).
  { subst rp. destruct (startsWith folder (toLowerCase (trim s))) eqn:E; cbn [negb].
    - exact E.
    - rewrite toLowerCase_app, Hfolder. apply startsWith_iff. now eexists. }
  destruct (existsb (fun ext => endsWith ext (toLowerCase rp)) extensions) eqn:E;
    cbn [negb].
  - now split.
  - rewrite toLowerCase_app, Hext. split.
    + apply startsWith_iff in Hrp. destruct Hrp as [rest Hrest]. rewrite Hrest.
      apply startsWith_iff. exists (rest ++ defaultExtension).
      now rewrite string_app_assoc.
    + apply existsb_exists. exists defaultExtension. split; [exact Hin|].
      apply endsWith_iff. now eexists.
Qed.

(** X16. The path a media function builds always lies in the kind's
    folder and always carries one of the kind's extensions, letter case
    apart, whatever the name: [sounds/] and an audio extension, [images/]
    and an image extension, [movies/] and a video extension. *)
Theorem mediaPath_normal (s : string) :
  (let path := toLowerCase (mediaPath "sounds/" audioExtensions ".mp3" s) in
   startsWith "sounds/" path = true
   /\ existsb (fun ext => endsWith ext path) audioExtensions = true)
  /\ (let path := toLowerCase (mediaPath "images/" imageExtensions ".png" s) in
      startsWith "images/" path = true
      /\ existsb (fun ext => endsWith ext path) imageExtensions = true)
  /\ (let path := toLowerCase (mediaPath "movies/" videoExtensions ".mp4" s) in
      startsWith "movies/" path = true
      /\ existsb (fun ext => endsWith ext path) videoExtensions = true).
Proof.
  split; [|split]; apply mediaPath_in_folder; try reflexivity; now left.
Qed.

(** X17. A sound that starts replaces whatever the audio element held:
    after [playMapSound] with a name whose path is accepted, the module's
    audio element is in the document, carries the new source at time 0, and
    plays if the browser lets it; its state owes nothing to the sound before.
    Image and video are not touched. When playback is refused the overlay
    stays idle and the failure is reported. *)
Theorem playMapSound_replaces (name : JsVal) (src : string) (w : World) :
  truthy name = true ->
  mediaSource "sounds/" audioExtensions ".mp3" name = Return src ->
  let w' := playMapSound name w in
  mapAudioElement w'
  = Some {| audioSrc := Some src; audioPaused := negb (playbackAllowed w);
            audioCurrentTime := 0%float; audioInBody := true |}
  /\ overlayState Audio w' = (if playbackAllowed w then Active else Idle)
  /\ notifications w'
     = (if playbackAllowed w then notifications w
        else push (notifications w) "Could not start map sound playback")
  /\ mapImageElement w' = mapImageElement w
  /\ mapImageCloseButton w' = mapImageCloseButton w
  /\ mapVideoElement w' = mapVideoElement w
  /\ mapVideoCloseButton w' = mapVideoCloseButton w.
Proof.
  intros Htruthy Hsrc w'. subst w'. unfold playMapSound.
  rewrite Htruthy, Hsrc. cbn [negb].
  destruct w as [a i ib v vb open allowed listener notes].
  destruct a as [[asrc apaused atime [|]]|]; destruct allowed;
    repeat split; reflexivity.
Qed.

(** X18. With the map window open, [showMapImage] with an accepted name
    shows the image: the module's image element sits in the window with the
    new source and is displayed, its close button is on screen, nothing is
    reported, and the overlays stay coherent. *)
Theorem showMapImage_shows (name : JsVal) (src : string) (w : World) :
  truthy name = true ->
  mediaSource "images/" imageExtensions ".png" name = Return src ->
  mapWindowOpen w = true ->
  overlaysCoherent w = true ->
  let w' := showMapImage name w in
  mapImageElement w'
  = Some {| imgSrc := Some src; imgDisplay := "block";
            imgInBody := true; imgInWindow := true |}
  /\ overlayState Image w' = Active
  /\ closeControlVisible Image w' = true
  /\ notifications w' = notifications w
  /\ overlaysCoherent w' = true.
Proof.
  intros Htruthy Hsrc Hopen Hcoh w'. subst w'. unfold showMapImage.
  rewrite Htruthy, Hsrc. cbn [negb].
  destruct w as [a i ib v vb open allowed listener notes].
  cbn [mapWindowOpen] in Hopen. subst open.
  destruct i as [[isrc idisplay [|] [|]]|];
    destruct ib as [[bdisplay [|] [|]]|];
    try (exfalso; clear -Hcoh; coherent; fail);
    (split; [reflexivity|]); (split; [reflexivity|]); (split; [reflexivity|]);
    (split; [reflexivity|]); coherent.
Qed.

(** X19. With the map window open, [playMapVideo] with an accepted name
    shows the video: the module's video element sits in the window with the
    new source and the given [muted], [loop] and [autoplay], is displayed,
    and plays when [autoplay] is on and the browser lets it; its close
    button is on screen and the resize listener is installed. *)
Theorem playMapVideo_plays (name : JsVal) (opts : VideoOptions) (src : string)
    (w : World) :
  truthy name = true ->
  mediaSource "movies/" videoExtensions ".mp4" name = Return src ->
  mapWindowOpen w = true ->
  overlaysCoherent w = true ->
  let w' := playMapVideo name opts w in
  mapVideoElement w'
  = Some {| vidSrc := Some src;
            vidPaused := negb (optAutoplay opts && playbackAllowed w);
            vidDisplay := "block";
            vidMuted := optMuted opts; vidLoop := optLoop opts;
            vidAutoplay := optAutoplay opts;
            vidInBody := true; vidInWindow := true |}
  /\ overlayState Video w' = Active
  /\ closeControlVisible Video w' = true
  /\ resizeListenerInstalled w' = true
  /\ notifications w' = notifications w
  /\ overlaysCoherent w' = true.
Proof.
  intros Htruthy Hsrc Hopen Hcoh w'. subst w'. unfold playMapVideo.
  rewrite Htruthy, Hsrc. cbn [negb].
  destruct w as [a i ib v vb open allowed listener notes].
  cbn [mapWindowOpen] in Hopen. subst open.
  destruct opts as [muted loop [|]]; destruct allowed;
    destruct v as [[[vsrc|] vpaused vdisplay vmuted vloop vauto [|] [|]]|];
    destruct vb as [[cdisplay [|] [|]]|];
    try (exfalso; clear -Hcoh; coherent; fail);
    (split; [reflexivity|]); (split; [reflexivity|]); (split; [reflexivity|]);
    (split; [reflexivity|]); (split; [reflexivity|]); coherent.
Qed.

(** X20. Without the map window, [showMapImage] and [playMapVideo] with
    an accepted name change nothing and report that the window is not
    open. *)
Theorem media_needs_window (name : JsVal) (opts : VideoOptions)
    (imageSrc videoSrc : string) (w : World) :
  truthy name = true ->
  mapWindowOpen w = false ->
  mediaSource "images/" imageExtensions ".png" name = Return imageSrc ->
  mediaSource "movies/" videoExtensions ".mp4" name = Return videoSrc ->
  showMapImage name w = notify "Map window not open" w
  /\ playMapVideo name opts w = notify "Map window not open" w.
Proof.
  intros Htruthy Hclosed Himage Hvideo.
  unfold showMapImage, playMapVideo, getOrCreateMapImageElement,
    getOrCreateMapVideoElement.
  now rewrite Htruthy, Himage, Hvideo, Hclosed.
Qed.

(** X21. The three kinds are independent: stopping one kind changes
    neither the elements nor the close buttons of the other two, and each
    play function leaves the elements and buttons of the other kinds as they
    were, whatever its argument. *)
Theorem media_kinds_independent (name : JsVal) (opts : VideoOptions) (w : World) :
  (mapImageElement (stop Audio w) = mapImageElement w
   /\ mapImageCloseButton (stop Audio w) = mapImageCloseButton w
   /\ mapVideoElement (stop Audio w) = mapVideoElement w
   /\ mapVideoCloseButton (stop Audio w) = mapVideoCloseButton w)
  /\ (mapAudioElement (stop Image w) = mapAudioElement w
      /\ mapVideoElement (stop Image w) = mapVideoElement w
      /\ mapVideoCloseButton (stop Image w) = mapVideoCloseButton w)
  /\ (mapAudioElement (stop Video w) = mapAudioElement w
      /\ mapImageElement (stop Video w) = mapImageElement w
      /\ mapImageCloseButton (stop Video w) = mapImageCloseButton w)
  /\ (mapImageElement (playMapSound name w) = mapImageElement w
      /\ mapImageCloseButton (playMapSound name w) = mapImageCloseButton w
      /\ mapVideoElement (playMapSound name w) = mapVideoElement w
      /\ mapVideoCloseButton (playMapSound name w) = mapVideoCloseButton w)
  /\ (mapAudioElement (showMapImage name w) = mapAudioElement w
      /\ mapVideoElement (showMapImage name w) = mapVideoElement w
      /\ mapVideoCloseButton (showMapImage name w) = mapVideoCloseButton w)
  /\ (mapAudioElement (playMapVideo name opts w) = mapAudioElement w
      /\ mapImageElement (playMapVideo name opts w) = mapImageElement w
      /\ mapImageCloseButton (playMapVideo name opts w) = mapImageCloseButton w).
Proof.
  destruct w as [a i ib v vb open allowed listener notes].
  split; [|split; [|split; [|split; [|split]]]].
  - destruct a as [[asrc apaused atime [|]]|]; repeat split; reflexivity.
  - destruct i as [[isrc idisplay [|] iwin]|]; destruct ib as [[bdisplay [|] bwin]|];
      repeat split; reflexivity.
  - destruct v as [[vsrc vpaused vdisplay vmuted vloop vauto [|] vwin]|];
      destruct vb as [[cdisplay [|] cwin]|]; repeat split; reflexivity.
  - unfold playMapSound. destruct (truthy name); cbn [negb]; [|now repeat split].
    destruct (mediaSource _ _ _ name); [|now repeat split].
    destruct a as [[asrc apaused atime [|]]|]; destruct allowed;
      repeat split; reflexivity.
  - unfold showMapImage. destruct (truthy name); cbn [negb]; [|now repeat split].
    destruct (mediaSource _ _ _ name); [|now repeat split].
    destruct open;
      destruct i as [[isrc idisplay [|] [|]]|]; destruct ib as [[bdisplay [|] [|]]|];
      repeat split; reflexivity.
  - unfold playMapVideo. destruct (truthy name); cbn [negb]; [|now repeat split].
    destruct (mediaSource _ _ _ name); [|now repeat split].
    destruct open;
      destruct v as [[[vsrc|] vpaused vdisplay vmuted vloop vauto [|] [|]]|];
      destruct vb as [[cdisplay [|] [|]]|];
      repeat split; reflexivity.
Qed.

(** X22. The three stops of the map window's close handler, in a page
    with a body, all return normally and leave every kind stopped: the
    audio element in the document is paused and rewound and keeps its
    source, the image element in the document is emptied and hidden, the
    video element in the document is paused, emptied and hidden (one
    outside the document is forgotten), both close buttons in the document
    are hidden; every kind is idle, no close control is on screen, the rest
    of the page is untouched, and running the three again changes nothing.
    In a page without a body where an audio element is remembered the first
    call throws, so the handler's [try] block ends there and the image and
    the video are not stopped. *)
Theorem stopAllMedia_idle (kind : MediaKind) (w : World) :
  stopAllMediaIn true w = Return (stopAllMedia w)
  /\ mapAudioElement (stopAllMedia w)
     = option_map (fun a => if audioInBody a
                            then {| audioSrc := audioSrc a; audioPaused := true;
                                    audioCurrentTime := 0%float; audioInBody := true |}
                            else a) (mapAudioElement w)
  /\ mapImageElement (stopAllMedia w)
     = option_map (fun img => if imgInBody img
                              then {| imgSrc := None; imgDisplay := "none";
                                      imgInBody := true;
                                      imgInWindow := imgInWindow img |}
                              else img) (mapImageElement w)
  /\ mapImageCloseButton (stopAllMedia w)
     = option_map (fun b => if btnInBody b then setDisplay "none" b else b)
         (mapImageCloseButton w)
  /\ mapVideoElement (stopAllMedia w)
     = match mapVideoElement w with
       | Some video =>
           if vidInBody video
           then Some {| vidSrc := None; vidPaused := true; vidDisplay := "none";
                        vidMuted := vidMuted video; vidLoop := vidLoop video;
                        vidAutoplay := vidAutoplay video;
                        vidInBody := true; vidInWindow := vidInWindow video |}
           else None
       | None => None
       end
  /\ mapVideoCloseButton (stopAllMedia w)
     = option_map (fun b => if btnInBody b then setDisplay "none" b else b)
         (mapVideoCloseButton w)
  /\ (mapWindowOpen (stopAllMedia w) = mapWindowOpen w
      /\ playbackAllowed (stopAllMedia w) = playbackAllowed w
      /\ resizeListenerInstalled (stopAllMedia w) = resizeListenerInstalled w
      /\ notifications (stopAllMedia w) = notifications w)
  /\ overlayState kind (stopAllMedia w) = Idle
  /\ closeControlVisible kind (stopAllMedia w) = false
  /\ stopAllMedia (stopAllMedia w) = stopAllMedia w
  /\ stopAllMediaIn true (stopAllMedia w) = Return (stopAllMedia w)
  /\ (forall a, mapAudioElement w = Some a ->
        exists e, stopAllMediaIn false w = Throw e /\ errName e = "TypeError").
Proof.
  assert (Hbody : forall w0, stopAllMediaIn true w0 = Return (stopAllMedia w0)).
  { intros w0. unfold stopAllMediaIn, stopAllMedia. plain_world w0; reflexivity. }
  assert (Htwice : stopAllMedia (stopAllMedia w) = stopAllMedia w).
  { unfold stopAllMedia. plain_world w; reflexivity. }
  split; [apply Hbody|].
  split; [unfold stopAllMedia; plain_world w; reflexivity|].
  split; [unfold stopAllMedia; plain_world w; reflexivity|].
  split; [unfold stopAllMedia; plain_world w; reflexivity|].
  split; [unfold stopAllMedia; plain_world w; reflexivity|].
  split; [unfold stopAllMedia; plain_world w; reflexivity|].
  split; [unfold stopAllMedia; plain_world w; repeat split; reflexivity|].
  split; [unfold stopAllMedia; destruct kind; plain_world w; reflexivity|].
  split; [unfold stopAllMedia; destruct kind; plain_world w; reflexivity|].
  split; [exact Htwice|].
  split; [now rewrite Hbody, Htwice|].
  intros a Ha. unfold stopAllMediaIn, stopCurrentMapAudioIn. rewrite Ha.
  eexists. split; reflexivity.
Qed.

(** X23. Coherence is kept: in a fresh page the overlays are coherent
    (a node in the map window is in the document, an element has its close
    button), and every stop and play function keeps them so. *)
Theorem overlaysCoherent_kept (kind : MediaKind) (name : JsVal)
    (opts : VideoOptions) (w : World) :
  overlaysCoherent initialWorld = true
  /\ (overlaysCoherent w = true ->
      overlaysCoherent (stop kind w) = true
      /\ overlaysCoherent (playMapSound name w) = true
      /\ overlaysCoherent (showMapImage name w) = true
      /\ overlaysCoherent (playMapVideo name opts w) = true).
Proof.
  split; [reflexivity|]. intros Hcoh.
  destruct w as [a i ib v vb open allowed listener notes].
  split; [|split; [|split]].
  - destruct kind.
    + destruct a as [[asrc apaused atime [|]]|]; exact Hcoh.
    + destruct i as [[isrc idisplay [|] [|]]|]; destruct ib as [[bdisplay [|] [|]]|];
        coherent.
    + destruct v as [[vsrc vpaused vdisplay vmuted vloop vauto [|] [|]]|];
        destruct vb as [[cdisplay [|] [|]]|]; coherent.
  - unfold playMapSound. destruct (truthy name); cbn [negb]; [|exact Hcoh].
    destruct (mediaSource _ _ _ name); [|exact Hcoh].
    destruct a as [[asrc apaused atime [|]]|]; destruct allowed; exact Hcoh.
  - unfold showMapImage. destruct (truthy name); cbn [negb]; [|exact Hcoh].
    destruct (mediaSource _ _ _ name); [|exact Hcoh].
    destruct open;
      destruct i as [[isrc idisplay [|] [|]]|]; destruct ib as [[bdisplay [|] [|]]|];
      coherent.
  - unfold playMapVideo. destruct (truthy name); cbn [negb]; [|exact Hcoh].
    destruct (mediaSource _ _ _ name); [|exact Hcoh].
    destruct open;
      destruct v as [[[vsrc|] vpaused vdisplay vmuted vloop vauto [|] [|]]|];
      destruct vb as [[cdisplay [|] [|]]|];
      coherent.
Qed.

End MediaFurther.

Lemma media_refuses_traversal_witness :
  playMapSound (JStr "../../secret") rainPlaying
  = notify "Audio error: Invalid file path: sounds/../../secret.mp3" rainPlaying.
Proof.
  apply (media_refuses_traversal "../../secret"
           {| optMuted := false; optLoop := false; optAutoplay := true |} rainPlaying).
  reflexivity.
Defined.

Lemma playMapSound_replaces_witness :
  mapAudioElement (playMapSound (JStr "storm.ogg") rainPlaying)
  = Some {| audioSrc := Some (extensionFolderPath ++ "/sounds/storm.ogg");
            audioPaused := false; audioCurrentTime := 0%float; audioInBody := true |}.
Proof.
  apply (playMapSound_replaces (JStr "storm.ogg")
           (extensionFolderPath ++ "/sounds/storm.ogg") rainPlaying);
    reflexivity.
Defined.

Lemma showMapImage_shows_witness :
  overlayState Image (showMapImage (JStr "portrait") windowOpened) = Active
  /\ closeControlVisible Image (showMapImage (JStr "portrait") windowOpened) = true.
Proof.
  pose proof (showMapImage_shows (JStr "portrait")
                (extensionFolderPath ++ "/images/portrait.png") windowOpened
                eq_refl eq_refl eq_refl eq_refl) as (_ & Hactive & Hcontrol & _).
  split; [exact Hactive | exact Hcontrol].
Defined.

Lemma playMapVideo_plays_witness :
  overlayState Video
    (playMapVideo (JStr "intro") {| optMuted := true; optLoop := false; optAutoplay := true |}
       windowOpened) = Active.
Proof.
  apply (playMapVideo_plays (JStr "intro")
           {| optMuted := true; optLoop := false; optAutoplay := true |}
           (extensionFolderPath ++ "/movies/intro.mp4") windowOpened);
    reflexivity.
Defined.

Lemma media_needs_window_witness :
  showMapImage (JStr "portrait") initialWorld = notify "Map window not open" initialWorld.
Proof.
  apply (media_needs_window (JStr "portrait")
           {| optMuted := false; optLoop := false; optAutoplay := true |}
           (extensionFolderPath ++ "/images/portrait.png")
           (extensionFolderPath ++ "/movies/portrait.mp4") initialWorld);
    reflexivity.
Defined.

(** ** Hover fill, further *)

Section HoverFurther.
Context `{Runtime}.
Variable cfg : MapSettings.

Lemma hexValue_digit (d : ascii) :
  isHexDigit d = true -> (0 <= hexValue d <= 15)%Z.
Proof.
  destruct d as [[] [] [] [] [] [] [] []]; intros Hd;
    first [discriminate Hd | vm_compute; split; discriminate].
Qed.

Lemma parseInt16_zero_head (b : ascii) :
  isHexDigit b = true ->
  parseInt16 (String "0" (String b EmptyString)) = Some (hexValue b).
Proof.
  destruct b as [[] [] [] [] [] [] [] []]; intros Hb;
    first [discriminate Hb | reflexivity].
Qed.

Lemma parseInt16_digit_head (a : ascii) (rest : string) :
  isHexDigit a = true -> a <> "0"%char ->
  parseInt16 (String a rest)
  = match hexPrefix rest true (hexValue a) with
    | Some n => Some n
    | None => None
    end.
Proof.
  destruct a as [[] [] [] [] [] [] [] []]; intros Ha Hz;
    first [discriminate Ha | reflexivity | now contradiction Hz].
Qed.

Lemma parseInt16_two_digits (a b : ascii) :
  isHexDigit a = true -> isHexDigit b = true ->
  parseInt16 (String a (String b EmptyString)) = Some (16 * hexValue a + hexValue b)%Z.
Proof.
  intros Ha Hb. destruct (ascii_dec a "0") as [->|Hz].
  - now rewrite parseInt16_zero_head.
  - rewrite parseInt16_digit_head by assumption.
    cbn [hexPrefix]. now rewrite Hb.
Qed.

Lemma six_digit_color (hex : string) :
  isValidColor (JStr hex) = true -> String.length hex <> 4 ->
  exists a b c d e f,
    hex = String "#" (String a (String b (String c (String d (String e
            (String f EmptyString))))))
    /\ isHexDigit a = true /\ isHexDigit b = true /\ isHexDigit c = true
    /\ isHexDigit d = true /\ isHexDigit e = true /\ isHexDigit f = true.
Proof.
  unfold isValidColor. cbn [ToString].
  destruct hex as [|h digits]; [discriminate|].
  destruct (ascii_dec h "#") as [->|Hh].
  2:{ intros Hv. exfalso.
      destruct h as [[] [] [] [] [] [] [] []]; try discriminate Hv. now apply Hh. }
  rewrite andb_true_iff, orb_true_iff, !Nat.eqb_eq. intros [Hall [Hlen|Hlen]] Hnot.
  - destruct digits as [|a [|b [|c [|d [|e [|f [|g rest]]]]]]]; try discriminate Hlen.
    cbn [allHex] in Hall. rewrite !andb_true_iff in Hall.
    destruct Hall as (Ha & Hb & Hc & Hd & He & Hf & _).
    now exists a, b, c, d, e, f.
  - exfalso. apply Hnot. cbn [String.length]. now rewrite Hlen.
Qed.

Lemma hoverRGB_three_digits (a b c : ascii) :
  isHexDigit a = true -> isHexDigit b = true -> isHexDigit c = true ->
  hoverRGB (String "#" (String a (String b (String c EmptyString))))
  = (Some (17 * hexValue a)%Z, Some (17 * hexValue b)%Z, Some (17 * hexValue c)%Z).
Proof.
  intros Ha Hb Hc. unfold hoverRGB. cbn [String.length Nat.eqb substring append].
  now rewrite !parseInt16_doubled.
Qed.

Lemma hoverRGB_six_digits (a b c d e f : ascii) :
  isHexDigit a = true -> isHexDigit b = true -> isHexDigit c = true ->
  isHexDigit d = true -> isHexDigit e = true -> isHexDigit f = true ->
  hoverRGB (String "#" (String a (String b (String c (String d (String e
              (String f EmptyString)))))))
  = (Some (16 * hexValue a + hexValue b)%Z, Some (16 * hexValue c + hexValue d)%Z,
     Some (16 * hexValue e + hexValue f)%Z).
Proof.
  intros Ha Hb Hc Hd He Hf. unfold hoverRGB. cbn [String.length Nat.eqb substring].
  now rewrite !parseInt16_two_digits.
Qed.

Lemma hoverRGB_in_range (hex : string) :
  isValidColor (JStr hex) = true ->
  exists R G B,
    hoverRGB hex = (Some R, Some G, Some B)
    /\ (0 <= R <= 255)%Z /\ (0 <= G <= 255)%Z /\ (0 <= B <= 255)%Z.
Proof.
  intros Hvalid.
  destruct (Nat.eq_dec (String.length hex) 4) as [Hlen|Hlen].
  - destruct (three_digit_color hex Hvalid Hlen) as (a & b & c & -> & Ha & Hb & Hc).
    exists (17 * hexValue a)%Z, (17 * hexValue b)%Z, (17 * hexValue c)%Z.
    split; [now apply hoverRGB_three_digits|].
    repeat split; now apply hexValue_range.
  - destruct (six_digit_color hex Hvalid Hlen)
      as (a & b & c & d & e & f & -> & Ha & Hb & Hc & Hd & He & Hf).
    exists (16 * hexValue a + hexValue b)%Z, (16 * hexValue c + hexValue d)%Z,
      (16 * hexValue e + hexValue f)%Z.
    split; [now apply hoverRGB_six_digits|].
    pose proof (hexValue_digit a Ha). pose proof (hexValue_digit b Hb).
    pose proof (hexValue_digit c Hc). pose proof (hexValue_digit d Hd).
    pose proof (hexValue_digit e He). pose proof (hexValue_digit f Hf).
    repeat split; lia.
Qed.

(** X24. For every colour [validateMapData] lets through, three digits or
    six, the hover-in handler reads three channels that are numbers between
    0 and 255, never [NaN], and the fill it sets is [rgba(R, G, B, o)] with
    those channels and the configured opacity; for six digits each channel
    is 16 times its first digit plus its second. *)
Theorem handleMouseOver_valid_color (hex : string) :
  isValidColor (JStr hex) = true ->
  exists R G B,
    hoverRGB hex = (Some R, Some G, Some B)
    /\ (0 <= R <= 255)%Z /\ (0 <= G <= 255)%Z /\ (0 <= B <= 255)%Z
    /\ handleMouseOver cfg hex
       = "rgba(" ++ showChannel (Some R) ++ ", " ++ showChannel (Some G) ++ ", "
                 ++ showChannel (Some B) ++ ", "
                 ++ NumberToString (hoverOpacity cfg) ++ ")"
    /\ (forall a b c d e f,
          hex = String "#" (String a (String b (String c (String d (String e
                  (String f EmptyString)))))) ->
          R = (16 * hexValue a + hexValue b)%Z
          /\ G = (16 * hexValue c + hexValue d)%Z
          /\ B = (16 * hexValue e + hexValue f)%Z).
Proof.
  intros Hvalid.
  destruct (hoverRGB_in_range hex Hvalid) as (R & G & B & Hrgb & HR & HG & HB).
  exists R, G, B. split; [exact Hrgb|].
  repeat (split; [assumption|]).
  split; [unfold handleMouseOver; now rewrite Hrgb|].
  intros a b c d e f ->.
  assert (Hlen : String.length
                   (String "#" (String a (String b (String c (String d (String e
                      (String f EmptyString))))))) <> 4) by discriminate.
  destruct (six_digit_color _ Hvalid Hlen)
    as (a' & b' & c' & d' & e' & f' & Heq & Ha & Hb & Hc & Hd & He & Hf).
  injection Heq as -> -> -> -> -> ->.
  rewrite hoverRGB_six_digits in Hrgb by assumption.
  injection Hrgb as <- <- <-. auto.
Qed.

End HoverFurther.

Lemma handleMouseOver_valid_color_witness :
  exists R G B,
    hoverRGB "#1E90ff" = (Some R, Some G, Some B)
    /\ (0 <= R <= 255)%Z /\ (0 <= G <= 255)%Z /\ (0 <= B <= 255)%Z
    /\ @handleMouseOver exampleRuntime mapSettings "#1E90ff"
       = "rgba(" ++ showChannel (Some R) ++ ", " ++ showChannel (Some G) ++ ", "
                 ++ showChannel (Some B) ++ ", "
                 ++ @NumberToString exampleRuntime (hoverOpacity mapSettings) ++ ")"
    /\ (forall a b c d e f,
          "#1E90ff" = String "#" (String a (String b (String c (String d (String e
                        (String f EmptyString)))))) ->
          R = (16 * hexValue a + hexValue b)%Z
          /\ G = (16 * hexValue c + hexValue d)%Z
          /\ B = (16 * hexValue e + hexValue f)%Z).
Proof.
  apply (@handleMouseOver_valid_color exampleRuntime mapSettings "#1E90ff").
  vm_compute. reflexivity.
Defined.

Example handleMouseOver_dodger_blue :
  @handleMouseOver exampleRuntime mapSettings "#1E90ff" = "rgba(30, 144, 255, 0.3)".
Proof. vm_compute. reflexivity. Qed.

(** ** The interactive surface *)

Section SurfaceProperties.
Context `{Runtime} `{Parser}.
Variable cfg : MapSettings.

(** The node of a shape, when there is one. *)
Lemma createInteractivePath_Return (enableTooltips : bool) (shape : JsVal)
    (node : PathNode) :
  createInteractivePath enableTooltips shape = Return node ->
  shapeDrawable enableTooltips shape = true
  /\ node
     = {| pathD := ToString (getProp shape "path");
          pathId := ToString (getProp shape "id");
          pathFill := "transparent";
          pathClass := "svg-path";
          pathStyleFill := None;
          pathScript := ToString (getProp shape "script");
          pathOriginalColor := ToString (getProp shape "color");
          pathTitle :=
            if enableTooltips && truthy (getProp shape "tooltip")
            then Some (ToString (getProp shape "tooltip")) else None;
          boundClick := true; boundMouseOver := true; boundMouseOut := true;
          listensClick := true; listensMouseOver := true; listensMouseOut := true |}.
Proof.
  unfold createInteractivePath, shapeDrawable, ToStringOrThrow.
  destruct shape; try discriminate; cbn [readProp bind];
    (destruct (hasPrimitive (getProp _ "path")); cbn [bind andb]; [|discriminate]);
    (destruct (hasPrimitive (getProp _ "id")); cbn [bind andb]; [|discriminate]);
    (destruct (hasPrimitive (getProp _ "script")); cbn [bind andb]; [|discriminate]);
    (destruct (hasPrimitive (getProp _ "color")); cbn [bind andb]; [|discriminate]);
    (destruct (enableTooltips && truthy (getProp _ "tooltip")); cbn [bind negb orb];
     [destruct (hasPrimitive (getProp _ "tooltip")); cbn [bind]; [|discriminate]|]);
    intros [= <-]; split; reflexivity.
Qed.

Lemma createInteractivePath_drawable (enableTooltips : bool) (shape : JsVal) :
  (shapeDrawable enableTooltips shape = true ->
   exists node, createInteractivePath enableTooltips shape = Return node)
  /\ (shapeDrawable enableTooltips shape = false ->
      exists e, createInteractivePath enableTooltips shape = Throw e).
Proof.
  unfold createInteractivePath, shapeDrawable, ToStringOrThrow.
  destruct shape; cbn [readProp bind];
    try (split; [discriminate | intros _; eexists; reflexivity]);
    (destruct (hasPrimitive (getProp _ "path")); cbn [bind andb];
     [|split; [discriminate | intros _; eexists; reflexivity]]);
    (destruct (hasPrimitive (getProp _ "id")); cbn [bind andb];
     [|split; [discriminate | intros _; eexists; reflexivity]]);
    (destruct (hasPrimitive (getProp _ "script")); cbn [bind andb];
     [|split; [discriminate | intros _; eexists; reflexivity]]);
    (destruct (hasPrimitive (getProp _ "color")); cbn [bind andb];
     [|split; [discriminate | intros _; eexists; reflexivity]]);
    (destruct (enableTooltips && truthy (getProp _ "tooltip")); cbn [bind negb orb];
     [destruct (hasPrimitive (getProp _ "tooltip")); cbn [bind]|]);
    split; try discriminate; intros _; eexists; reflexivity.
Qed.

Lemma createInteractivePath_tracked (enableTooltips : bool) (shape : JsVal)
    (node : PathNode) :
  createInteractivePath enableTooltips shape = Return node ->
  tracked node = true /\ silent (releaseHandlers node) = true
  /\ renderedFill node = "transparent".
Proof.
  intros Hnode. apply createInteractivePath_Return in Hnode as [_ ->].
  repeat split; reflexivity.
Qed.

Lemma createPaths_tracked (enableTooltips : bool) (shapes : list JsVal)
    (nodes : list PathNode) :
  createPaths enableTooltips shapes = Return nodes ->
  forallb tracked nodes = true
  /\ Forall2 (fun shape node => createInteractivePath enableTooltips shape = Return node)
       shapes nodes.
Proof.
  revert nodes. induction shapes as [|shape rest IH]; intros nodes; cbn [createPaths].
  - intros [= <-]. split; [reflexivity | constructor].
  - destruct (createInteractivePath enableTooltips shape) as [node|e] eqn:E;
      cbn [bind]; [|discriminate].
    destruct (createPaths enableTooltips rest) as [others|e]; cbn [bind]; [|discriminate].
    intros [= <-]. destruct (IH others eq_refl) as [Ht Hf].
    apply createInteractivePath_tracked in E as Hnode. destruct Hnode as (Hnode & _ & _).
    split.
    + cbn [forallb]. now rewrite Hnode, Ht.
    + now constructor.
Qed.

Lemma releaseHandlers_silent (node : PathNode) :
  tracked node = true -> silent (releaseHandlers node) = true.
Proof.
  unfold tracked, silent, releaseHandlers.
  cbn [listensClick listensMouseOver listensMouseOut].
  destruct (listensClick node), (boundClick node), (listensMouseOver node),
    (boundMouseOver node), (listensMouseOut node), (boundMouseOut node);
    cbn; intros Ht; try reflexivity; discriminate Ht.
Qed.

Lemma clearMap_keeps (state : Store * Surface) :
  forallb tracked (pathNodes (snd state)) = true ->
  forallb silent (removedPaths (snd state)) = true ->
  forallb tracked (pathNodes (snd (clearMap state))) = true
  /\ forallb silent (removedPaths (snd (clearMap state))) = true.
Proof.
  destruct state as [st surface]. cbn [snd]. intros Ht Hs. unfold clearMap.
  destruct (svgContainer surface); cbn [snd pathNodes removedPaths]; [|now split].
  split; [reflexivity|].
  rewrite forallb_app, Hs. cbn [andb].
  rewrite forallb_forall in *. intros node Hin.
  apply in_map_iff in Hin. destruct Hin as (n & <- & Hn).
  now apply releaseHandlers_silent, Ht.
Qed.

(** X25. No listener is left behind. A path [createInteractivePath] makes
    has its three listeners attached and their references stored, and
    [clearMap]'s teardown of such a path removes all three. Through every
    sequence of [initMap] and [clearMap] on a fresh surface, each path in
    the container has the reference of every listener on it, and each path
    taken out of the container has no listener left. *)
Theorem surface_leaves_no_listener (state : Store * Surface) :
  Rendered state ->
  forallb tracked (pathNodes (snd state)) = true
  /\ forallb silent (removedPaths (snd state)) = true
  /\ (forall enableTooltips shape node,
        createInteractivePath enableTooltips shape = Return node ->
        listensClick node = true /\ listensMouseOver node = true
        /\ listensMouseOut node = true /\ silent (releaseHandlers node) = true).
Proof.
  intros Hr.
  assert (Hinv : forallb tracked (pathNodes (snd state)) = true
                 /\ forallb silent (removedPaths (snd state)) = true).
  { induction Hr as [st | tips svgData state _ IH | state _ IH].
    - now split.
    - destruct IH as [Ht Hs]. destruct state as [st surface].
      unfold initMap. destruct (svgContainer surface) eqn:Ec; cbn [negb].
      + pose proof (clearMap_keeps (st, surface) Ht Hs) as [Ht' Hs'].
        destruct (clearMap (st, surface)) as [st' surface'].
        cbn [snd] in Ht', Hs'.
        destruct (backgroundImageOf svgData); cbn [snd pathNodes removedPaths reportSurface];
          [|now split].
        destruct (match getProp svgData "shapes" with
                  | JArr shapes => createPaths tips shapes
                  | _ => Throw _
                  end) as [nodes|e] eqn:E;
          cbn [snd pathNodes removedPaths reportSurface]; [|now split].
        split; [|exact Hs'].
        destruct (getProp svgData "shapes"); try discriminate E.
        now apply createPaths_tracked in E.
      + cbn [snd reportSurface pathNodes removedPaths]. now split.
    - now apply clearMap_keeps. }
  split; [apply Hinv|]. split; [apply Hinv|].
  intros tips shape node Hnode. apply createInteractivePath_Return in Hnode as [_ ->].
  repeat split; reflexivity.
Qed.

(** X26. Hovering changes the inline fill and nothing else, and leaving
    restores what is drawn: a path made from a shape is drawn transparent,
    hover-in draws it with the fill of the shape's colour, and hover-out
    draws it transparent again. For a complete shape that fill is
    [rgba(R, G, B, o)] with channels between 0 and 255. *)
Theorem hover_round_trip (enableTooltips : bool) (shape : JsVal) (node : PathNode) :
  createInteractivePath enableTooltips shape = Return node ->
  renderedFill node = "transparent"
  /\ renderedFill (hoverIn cfg node)
     = handleMouseOver cfg (ToString (getProp shape "color"))
  /\ renderedFill (handleMouseOut (hoverIn cfg node)) = renderedFill node
  /\ handleMouseOut (handleMouseOut (hoverIn cfg node)) = handleMouseOut node
  /\ (shapeComplete shape = true ->
      exists R G B,
        (0 <= R <= 255)%Z /\ (0 <= G <= 255)%Z /\ (0 <= B <= 255)%Z
        /\ renderedFill (hoverIn cfg node)
           = "rgba(" ++ showChannel (Some R) ++ ", " ++ showChannel (Some G) ++ ", "
                     ++ showChannel (Some B) ++ ", "
                     ++ NumberToString (hoverOpacity cfg) ++ ")").
Proof.
  intros Hnode.
  assert (Hcolor : pathOriginalColor node = ToString (getProp shape "color")
                   /\ renderedFill node = "transparent").
  { apply createInteractivePath_Return in Hnode as [_ ->]. split; reflexivity. }
  destruct Hcolor as [Hcolor Hfill].
  split; [exact Hfill|].
  split; [unfold hoverIn, renderedFill; cbn; now rewrite Hcolor|].
  split; [now rewrite Hfill|]. split; [reflexivity|].
  intros Hcomplete. unfold shapeComplete in Hcomplete.
  rewrite !andb_true_iff in Hcomplete. destruct Hcomplete as [_ Hvalid].
  assert (Hstr : isValidColor (JStr (ToString (getProp shape "color"))) = true).
  { unfold isValidColor in *. exact Hvalid. }
  destruct (hoverRGB_in_range _ Hstr) as (R & G & B & Hrgb & HR & HG & HB).
  exists R, G, B. repeat (split; [assumption|]).
  unfold hoverIn, renderedFill. cbn. rewrite Hcolor.
  unfold handleMouseOver. now rewrite Hrgb.
Qed.

Lemma createPaths_drawable (enableTooltips : bool) (shapes : list JsVal) :
  (forallb (shapeDrawable enableTooltips) shapes = true ->
   exists nodes, createPaths enableTooltips shapes = Return nodes)
  /\ (forallb (shapeDrawable enableTooltips) shapes = false ->
      exists e, createPaths enableTooltips shapes = Throw e).
Proof.
  induction shapes as [|shape rest [IHyes IHno]]; cbn [createPaths forallb].
  - split; [eauto | discriminate].
  - destruct (createInteractivePath_drawable enableTooltips shape) as [Hyes Hno].
    destruct (shapeDrawable enableTooltips shape); cbn [andb].
    + destruct (Hyes eq_refl) as [node ->]. cbn [bind]. split.
      * intros Hrest. destruct (IHyes Hrest) as [nodes ->]. cbn [bind]. eauto.
      * intros Hrest. destruct (IHno Hrest) as [e ->]. cbn [bind]. eauto.
    + destruct (Hno eq_refl) as [e ->]. cbn [bind]. split; [discriminate | eauto].
Qed.

(** X27. [initMap] draws what the document says, and only that. With the
    container present and the background image made, the former map is torn
    down and the image is in the container. When every shape can be drawn
    (its fields can be read and each value written into the path has a
    primitive value) the container holds exactly one path per shape, in
    document order, each made by [createInteractivePath], the map counts as
    loaded and nothing is reported. When some shape cannot be drawn, as one
    whose [id] is an object with a property [toString], no path is in the
    container, the map counts as not loaded and the failure is reported. *)
Theorem initMap_renders (enableTooltips : bool) (svgData : JsVal)
    (image : ImageNode) (shapes : list JsVal) (st : Store) (surface : Surface) :
  svgContainer surface = true ->
  backgroundImageOf svgData = Return image ->
  getProp svgData "shapes" = JArr shapes ->
  let result := initMap enableTooltips svgData (st, surface) in
  (forallb (shapeDrawable enableTooltips) shapes = true ->
   Forall2 (fun shape node => createInteractivePath enableTooltips shape = Return node)
     shapes (pathNodes (snd result))
   /\ isMapLoaded (extensionState (fst result)) = true
   /\ currentMapElement (snd result) = true
   /\ surfaceReports (snd result) = surfaceReports surface)
  /\ (forallb (shapeDrawable enableTooltips) shapes = false ->
      pathNodes (snd result) = []
      /\ isMapLoaded (extensionState (fst result)) = false
      /\ currentMapElement (snd result) = false
      /\ surfaceReports (snd result)
         = push (surfaceReports surface) "Map initialization error")
  /\ backgroundNode (snd result) = Some image
  /\ removedPaths (snd result)
     = (removedPaths surface ++ map releaseHandlers (pathNodes surface))%list
  /\ mapCache (fst result) = mapCache st.
Proof.
  intros Hc Himage Hshapes result. subst result.
  unfold initMap, clearMap. rewrite Hc, Himage, Hshapes. cbn [negb].
  destruct (createPaths_drawable enableTooltips shapes) as [Hyes Hno].
  destruct (forallb (shapeDrawable enableTooltips) shapes).
  - destruct (Hyes eq_refl) as [nodes Hnodes]. rewrite Hnodes.
    cbn [fst snd pathNodes backgroundNode currentMapElement surfaceReports removedPaths
         setMapLoaded extensionState isMapLoaded mapCache].
    split; [|split; [discriminate | repeat split; reflexivity]].
    intros _. split; [now apply createPaths_tracked in Hnodes|].
    repeat split; reflexivity.
  - destruct (Hno eq_refl) as [e He]. rewrite He.
    cbn [fst snd pathNodes backgroundNode currentMapElement surfaceReports removedPaths
         setMapLoaded extensionState isMapLoaded mapCache reportSurface].
    split; [discriminate|]. repeat split; reflexivity.
Qed.

(** X28. [initMap] gives up without drawing: with no container it only
    reports that; with the container present and a background [file] that
    [validateAssetPath] refuses, the document well validated or not, the
    container is left empty, the former map torn down, the map counts as
    not loaded and the failure is reported. [validateMapData] does not look
    at the path: it accepts an empty [file]. *)
Theorem initMap_gives_up (enableTooltips : bool) (svgData : JsVal)
    (st : Store) (surface : Surface) :
  (svgContainer surface = false ->
   initMap enableTooltips svgData (st, surface)
   = (st, reportSurface "Map container not found" surface))
  /\ (svgContainer surface = true ->
      truthy (getProp svgData "backgroundImage") = true ->
      RefusedPath (getProp (getProp svgData "backgroundImage") "file") ->
      let result := initMap enableTooltips svgData (st, surface) in
      pathNodes (snd result) = []
      /\ backgroundNode (snd result) = None
      /\ isMapLoaded (extensionState (fst result)) = false
      /\ surfaceReports (snd result)
         = push (surfaceReports surface) "Map initialization error"
      /\ removedPaths (snd result)
         = (removedPaths surface ++ map releaseHandlers (pathNodes surface))%list)
  /\ (forall data,
        documentComplete data = true ->
        getProp (getProp data "backgroundImage") "file" = JStr "" ->
        valid (validateMapData data) = true
        /\ RefusedPath (getProp (getProp data "backgroundImage") "file")).
Proof.
  split; [|split].
  - intros Hc. unfold initMap. now rewrite Hc.
  - intros Hc Hbg Hrefused result. subst result.
    unfold initMap, clearMap. rewrite Hc. cbn [negb].
    assert (Hthrow : exists e, backgroundImageOf svgData = Throw e).
    { unfold backgroundImageOf.
      assert (Hsvg : readProp svgData "backgroundImage"
                     = Return (getProp svgData "backgroundImage")).
      { destruct svgData; try reflexivity; discriminate Hbg. }
      rewrite Hsvg. cbn [bind].
      assert (Hfile : readProp (getProp svgData "backgroundImage") "file"
                      = Return (getProp (getProp svgData "backgroundImage") "file")).
      { destruct (getProp svgData "backgroundImage"); try reflexivity; discriminate Hbg. }
      rewrite Hfile. cbn [bind].
      apply resolveAssetPath_refused in Hrefused. destruct Hrefused as [e He].
      rewrite He. cbn [bind]. now exists e. }
    destruct Hthrow as [e He]. rewrite He.
    repeat split; reflexivity.
  - intros data Hcomplete Hfile. split.
    + now rewrite validateMapData_valid_complete.
    + rewrite Hfile. now left.
Qed.

End SurfaceProperties.

Lemma surface_leaves_no_listener_witness :
  forallb silent
    (removedPaths
       (snd (clearMap (@initMap pageRuntime exampleParser true docCity
                         (initialStore, emptySurface))))) = true.
Proof.
  apply (@surface_leaves_no_listener pageRuntime exampleParser
           (clearMap (@initMap pageRuntime exampleParser true docCity
                        (initialStore, emptySurface)))).
  apply rendered_clear. apply rendered_init. apply rendered_fresh.
Defined.

Lemma hover_round_trip_witness :
  exists node,
    @createInteractivePath pageRuntime true
      (JObj [("id", JStr "harbor"); ("path", JStr "M0 0 L9 9 Z");
             ("color", JStr "#F00"); ("script", JStr "/echo harbor")]) = Return node
    /\ renderedFill (@hoverIn pageRuntime mapSettings node) = "rgba(255, 0, 0, 0.3)"
    /\ renderedFill (handleMouseOut (@hoverIn pageRuntime mapSettings node))
       = "transparent".
Proof.
  eexists. split; [reflexivity|].
  match goal with |- context [hoverIn mapSettings ?n] =>
    pose proof (@hover_round_trip pageRuntime mapSettings true
                  (JObj [("id", JStr "harbor"); ("path", JStr "M0 0 L9 9 Z");
                         ("color", JStr "#F00"); ("script", JStr "/echo harbor")])
                  n eq_refl) as (Hfill & Hin & Hout & _)
  end.
  split; [rewrite Hin; vm_compute; reflexivity | rewrite Hout; exact Hfill].
Defined.

Lemma initMap_renders_witness :
  List.length
    (pathNodes (snd (@initMap pageRuntime exampleParser true docCity
                       (initialStore, emptySurface)))) = 1
  /\ isMapLoaded
       (extensionState (fst (@initMap pageRuntime exampleParser true docCity
                               (initialStore, emptySurface)))) = true.
Proof.
  pose proof (@initMap_renders pageRuntime exampleParser true docCity
                {| imageHref := extensionFolderPath ++ "/images/city.png";
                   imageWidth := "800"; imageHeight := "600" |}
                [JObj [("id", JStr "harbor"); ("path", JStr "M0 0 L9 9 Z");
                       ("color", JStr "#F00"); ("script", JStr "/echo harbor")]]
                initialStore emptySurface eq_refl eq_refl eq_refl)
    as (Hdrawn & _).
  destruct (Hdrawn eq_refl) as (Hpaths & Hloaded & _).
  split; [|exact Hloaded].
  apply Forall2_length in Hpaths. now rewrite <- Hpaths.
Defined.

Example initMap_docCity :
  snd (@initMap pageRuntime exampleParser true docCity (initialStore, emptySurface))
  = {| svgContainer := true; viewBox := Some "0 0 800 600";
       backgroundNode := Some {| imageHref := extensionFolderPath ++ "/images/city.png";
                                 imageWidth := "800"; imageHeight := "600" |};
       pathNodes := [{| pathD := "M0 0 L9 9 Z"; pathId := "harbor";
                        pathFill := "transparent"; pathClass := "svg-path";
                        pathStyleFill := None; pathScript := "/echo harbor";
                        pathOriginalColor := "#F00"; pathTitle := None;
                        boundClick := true; boundMouseOver := true;
                        boundMouseOut := true; listensClick := true;
                        listensMouseOver := true; listensMouseOut := true |}];
       removedPaths := []; currentMapElement := true; surfaceReports := [] |}.
Proof. vm_compute. reflexivity. Qed.

(** A document that validates and is not drawn: the [id] of its shape is an
    object with a property [toString], which [setAttribute] cannot
    convert. *)
Example initMap_object_id :
  let data := JObj [("backgroundImage",
                     JObj [("file", JStr "images/city.png");
                           ("width", JNum 800%float); ("height", JNum 600%float)]);
                    ("shapes", JArr [shapeWithObjectId])] in
  let result := @initMap pageRuntime exampleParser true data
                  (initialStore, emptySurface) in
  valid (@validateMapData pageRuntime data) = true
  /\ pathNodes (snd result) = []
  /\ isMapLoaded (extensionState (fst result)) = false
  /\ surfaceReports (snd result) = ["Map initialization error"].
Proof. vm_compute. repeat split; reflexivity. Qed.
